(** * Live chat intelligence: classification pipeline

    A shallow embedding of the two backends of the repository,

    - [chat_viz_backend.py]    (the single-stream backend, variant [Local]),
    - [chat_viz_backend_v2.py] (the per-video backend, variant [Production]),

    and the properties of their spam detector, ticker extractor, sentiment
    analysis, vibe batching and session registry.

    Conventions.
    - A Python [str] is a list of Unicode code points ([str := list N]).
    - Python's builtins and the third-party libraries the code calls
      ([str.lower], [str.upper], the character classes behind [\w], [\s],
      [\d] and [str.isalpha], [hash], [emoji.EMOJI_DATA], [emoji.emojize]) are
      the fields of the class [Runtime]; every general theorem holds for any
      runtime.  [basic_runtime] is the instance used to evaluate the code on
      concrete inputs.
    - Floats are modelled by rationals.  The confidences are two-digit
      decimals and the only float sums the code can reach are [0.5 + 0.2] and
      [0.6 + 0.2], which IEEE doubles round to [0.7] and [0.8], the values the
      rationals give; timestamps are subtracted and compared with whole
      seconds.
    - [datetime.now()] and the event-loop clock are inputs of the functions
      that read them. *)

From Stdlib Require Import QArith Qminmax Qround Lqa Lia.
From Stdlib Require Import Ascii String.
From stdpp Require Import gmap strings list.

Set Default Proof Using "Type".

(** ** Strings *)

Abbreviation char := N.
Abbreviation str := (list N).

(** A Python literal made of ASCII characters. *)
Definition py (s : string) : str :=
  map N_of_ascii (list_ascii_of_string s).

Definition str_eqb (a b : str) : bool := bool_decide (a = b).

(** [x in xs] for a Python set or list of strings. *)
Definition mem (x : str) (xs : list str) : bool := existsb (str_eqb x) xs.

(** [needle in text] for two strings. *)
Fixpoint is_prefix (p s : str) : bool :=
  match p, s with
  | [], _ => true
  | a :: p', b :: s' => (a =? b)%N && is_prefix p' s'
  | _ :: _, [] => false
  end.

Fixpoint contains (needle text : str) : bool :=
  is_prefix needle text ||
  match text with
  | [] => false
  | _ :: text' => contains needle text'
  end.

(** [xs[-n:]] for [n > 0]. *)
Definition lastn {A} (n : nat) (xs : list A) : list A :=
  drop (length xs - n) xs.

(** ** The Python runtime *)

Class Runtime := {
  str_lower : str → str;          (* str.lower() *)
  str_upper : str → str;          (* str.upper() *)
  isspace : char → bool;          (* str.isspace(), \s *)
  isalpha : char → bool;          (* str.isalpha() *)
  isupper : char → bool;          (* str.isupper() *)
  isalnum : char → bool;          (* str.isalnum() *)
  isdecimal : char → bool;        (* \d *)
  sre_ieq : char → char → bool;   (* equality of characters under re.IGNORECASE *)
  hash : str → Z;                 (* hash() *)
  EMOJI_DATA : char → bool;       (* c in emoji.EMOJI_DATA *)
}.

Section Strings.
Context `{Runtime}.

(** [\w]: alphanumeric or underscore. *)
Definition isword (c : char) : bool := isalnum c || (c =? 95)%N.

(** [str.strip()]. *)
Fixpoint lstrip (s : str) : str :=
  match s with
  | c :: s' => if isspace c then lstrip s' else s
  | [] => []
  end.

Definition str_strip (s : str) : str := rev (lstrip (rev (lstrip s))).

End Strings.

(** ** Regular expressions

    The subset of Python's [re] the two backends use, as syntax trees, with a
    backtracking matcher that tries alternatives in the order of [sre]:
    left alternative first, greedy repetition.  A pattern has at most one
    capturing group that the code reads (or refers back to); the parentheses
    of the other patterns only group. *)

Inductive citem :=
| IChar (c : char)            (* a literal character in a set *)
| IRange (lo hi : char)       (* lo-hi *)
| IWord                       (* \w *)
| IDigit                      (* \d *)
| ISpace.                     (* \s *)

Inductive re :=
| RChar (c : char)                       (* a literal character *)
| RAny                                   (* .  (no DOTALL: not a newline) *)
| RSet (neg : bool) (items : list citem) (* [...] and [^...], \w, \d, \s *)
| RBol                                   (* ^  (no MULTILINE) *)
| REol                                   (* $  (no MULTILINE) *)
| RWordB                                 (* \b *)
| REps
| RCat (r1 r2 : re)
| RAlt (r1 r2 : re)
| RStar (r : re)                         (* r*, greedy *)
| RGroup (r : re)                        (* (r), captured as group 1 *)
| RBackref.                              (* \1 *)

(** Derived forms. *)
Definition ROpt (r : re) : re := RAlt r REps.            (* r? *)
Definition RPlus (r : re) : re := RCat r (RStar r).      (* r+ *)

Fixpoint RPower (r : re) (n : nat) : re :=               (* r{n} *)
  match n with
  | O => REps
  | S n' => RCat r (RPower r n')
  end.

Fixpoint RUpto (r : re) (n : nat) : re :=                (* r{0,n} *)
  match n with
  | O => REps
  | S n' => ROpt (RCat r (RUpto r n'))
  end.

Definition RRep (r : re) (lo hi : nat) : re :=           (* r{lo,hi} *)
  RCat (RPower r lo) (RUpto r (hi - lo)).

Definition RAtLeast (r : re) (lo : nat) : re :=          (* r{lo,} *)
  RCat (RPower r lo) (RStar r).

Fixpoint RSeq (rs : list re) : re :=
  match rs with
  | [] => REps
  | [r] => r
  | r :: rs' => RCat r (RSeq rs')
  end.

Fixpoint ROr (rs : list re) : re :=                      (* r1|r2|... *)
  match rs with
  | [] => RSet false []
  | [r] => r
  | r :: rs' => RAlt r (ROr rs')
  end.

(** The characters of an ASCII literal, in sequence. *)
Definition RLit (s : string) : re := RSeq (map RChar (py s)).

Definition RWord : re := RSet false [IWord].
Definition RSpace : re := RSet false [ISpace].
Definition RDigit : re := RSet false [IDigit].

(** The matcher's cursor: the character before the position, the rest of the
    subject, and group 1 if it has matched. *)
Record mstate := MState {
  m_prev : option char;
  m_rest : str;
  m_cap : option str;
}.

Definition orelse {A} (x y : option A) : option A :=
  match x with
  | Some a => Some a
  | None => y
  end.

Section Matcher.
Context `{Runtime}.

Definition citem_ok (i : citem) (x : char) : bool :=
  match i with
  | IChar c => (c =? x)%N
  | IRange lo hi => (lo <=? x)%N && (x <=? hi)%N
  | IWord => isword x
  | IDigit => isdecimal x
  | ISpace => isspace x
  end.

Definition chr_eq (ic : bool) (c x : char) : bool :=
  if ic then sre_ieq c x else (c =? x)%N.

Definition opt_isword (o : option char) : bool :=
  match o with
  | Some c => isword c
  | None => false
  end.

(** [rmatch ic r st k]: match [r] at [st] and continue with [k]; the first
    continuation that succeeds decides.  [ic] is [re.IGNORECASE]. *)
Fixpoint rmatch {A} (ic : bool) (r : re) (st : mstate)
    (k : mstate → option A) {struct r} : option A :=
  match r with
  | RChar c =>
      match m_rest st with
      | x :: s => if chr_eq ic c x then k (MState (Some x) s (m_cap st)) else None
      | [] => None
      end
  | RAny =>
      match m_rest st with
      | x :: s => if (x =? 10)%N then None else k (MState (Some x) s (m_cap st))
      | [] => None
      end
  | RSet neg items =>
      match m_rest st with
      | x :: s =>
          if xorb neg (existsb (λ i, citem_ok i x) items)
          then k (MState (Some x) s (m_cap st)) else None
      | [] => None
      end
  | RBol => if m_prev st is None then k st else None
  | REol =>
      match m_rest st with
      | [] => k st
      | [x] => if (x =? 10)%N then k st else None
      | _ => None
      end
  | RWordB =>
      if xorb (opt_isword (m_prev st)) (opt_isword (head (m_rest st)))
      then k st else None
  | REps => k st
  | RCat r1 r2 => rmatch ic r1 st (λ st', rmatch ic r2 st' k)
  | RAlt r1 r2 => orelse (rmatch ic r1 st k) (rmatch ic r2 st k)
  | RStar r1 =>
      (fix loop (fuel : nat) (st : mstate) : option A :=
         match fuel with
         | O => k st
         | S fuel' =>
             orelse
               (rmatch ic r1 st (λ st',
                  if (length (m_rest st') <? length (m_rest st))%nat
                  then loop fuel' st' else None))
               (k st)
         end) (length (m_rest st)) st
  | RGroup r1 =>
      rmatch ic r1 st (λ st',
        k (MState (m_prev st') (m_rest st')
             (Some (take (length (m_rest st) - length (m_rest st')) (m_rest st)))))
  | RBackref =>
      match m_cap st with
      | Some g =>
          if is_prefix g (m_rest st)
          then k (MState (if last g is Some c then Some c else m_prev st)
                    (drop (length g) (m_rest st)) (m_cap st))
          else None
      | None => None
      end
  end.

(** A match object: where the match starts, [group(0)], [group(1)], and the
    cursor after the match. *)
Record match_obj := MatchObj {
  mo_start : nat;
  mo_text : str;
  mo_group1 : option str;
  mo_end : mstate;
}.

Definition match_at (ic : bool) (r : re) (prev : option char) (s : str)
    (i : nat) : option match_obj :=
  rmatch ic r (MState prev s None) (λ st',
    Some (MatchObj i (take (length s - length (m_rest st')) s) (m_cap st') st')).

(** [re.search]: the leftmost position at which the pattern matches. *)
Fixpoint search_from (ic : bool) (r : re) (prev : option char) (s : str)
    (i : nat) : option match_obj :=
  orelse (match_at ic r prev s i)
    match s with
    | [] => None
    | c :: s' => search_from ic r (Some c) s' (S i)
    end.

Definition re_search (ic : bool) (r : re) (s : str) : option match_obj :=
  search_from ic r None s 0.

(** [re.findall]: the successive non-overlapping matches, each given by its
    group 1 when the pattern has one and by the whole match otherwise.  After
    an empty match the scan moves on by one character. *)
Fixpoint findall_from (fuel : nat) (ic : bool) (r : re) (prev : option char)
    (s : str) : list str :=
  match fuel with
  | O => []
  | S fuel' =>
      match search_from ic r prev s 0 with
      | None => []
      | Some m =>
          default (mo_text m) (mo_group1 m) ::
          match mo_text m, m_rest (mo_end m) with
          | [], [] => []
          | [], c :: s' => findall_from fuel' ic r (Some c) s'
          | _ :: _, s' => findall_from fuel' ic r (m_prev (mo_end m)) s'
          end
      end
  end.

Definition re_findall (ic : bool) (r : re) (s : str) : list str :=
  findall_from (S (length s)) ic r None s.

End Matcher.

(** [basic_runtime] is CPython on the strings made of ASCII characters and of
    the code points of the glyph constants of [analyze_sentiment] other than
    U+00A9 and U+00B8 (that is U+00A2, U+00A5, U+00B4, U+00F0, U+0161, U+0178,
    U+02C6, U+2019, U+201C, U+201D, U+2030, U+20AC, with the case partners
    U+00D0, U+00FF, U+0160); none of them is a key of [emoji.EMOJI_DATA].
    The inputs evaluated in this file are such strings.  [hash] is a
    polynomial hash: CPython salts its own per process. *)

Definition ascii_upper_p (c : char) : bool := (65 <=? c)%N && (c <=? 90)%N.
Definition ascii_lower_p (c : char) : bool := (97 <=? c)%N && (c <=? 122)%N.
Definition ascii_digit_p (c : char) : bool := (48 <=? c)%N && (c <=? 57)%N.

Definition basic_lower (c : char) : char :=
  if ascii_upper_p c then (c + 32)%N
  else if (c =? 0xd0)%N then 0xf0%N
  else if (c =? 0x160)%N then 0x161%N
  else if (c =? 0x178)%N then 0xff%N
  else c.

Definition basic_upper (c : char) : char :=
  if ascii_lower_p c then (c - 32)%N
  else if (c =? 0xf0)%N then 0xd0%N
  else if (c =? 0x161)%N then 0x160%N
  else if (c =? 0xff)%N then 0x178%N
  else c.

Definition basic_isupper (c : char) : bool :=
  ascii_upper_p c || bool_decide (c ∈ [0xd0; 0x160; 0x178]%N).

Definition basic_isalpha (c : char) : bool :=
  ascii_upper_p c || ascii_lower_p c ||
  bool_decide (c ∈ [0xd0; 0xf0; 0xff; 0x160; 0x161; 0x178; 0x2c6]%N).

Definition basic_isspace (c : char) : bool :=
  ((9 <=? c)%N && (c <=? 13)%N) || ((28 <=? c)%N && (c <=? 32)%N).

Definition basic_hash (s : str) : Z :=
  fold_left (λ h c, (h * 1000003 + Z.of_N c)%Z) s 0%Z.

Definition basic_runtime : Runtime := {|
  str_lower := map basic_lower;
  str_upper := map basic_upper;
  isspace := basic_isspace;
  isalpha := basic_isalpha;
  isupper := basic_isupper;
  isalnum := λ c, basic_isalpha c || ascii_digit_p c;
  isdecimal := ascii_digit_p;
  sre_ieq := λ c x, (basic_lower c =? basic_lower x)%N;
  hash := basic_hash;
  EMOJI_DATA := λ _, false;
|}.

(** ** The two backends *)

Inductive variant :=
| Local         (* chat_viz_backend.py *)
| Production.   (* chat_viz_backend_v2.py *)

(** *** Ticker and lexicon tables *)

Definition KNOWN_TICKERS_local : gset str := list_to_set (map py [
  "AAPL"; "MSFT"; "GOOGL"; "GOOG"; "AMZN"; "NVDA"; "META"; "TSLA"; "BRK";
  "BRKB"; "TSM"; "AVGO"; "LLY"; "JPM"; "UNH"; "V"; "MA"; "XOM"; "JNJ"; "WMT";
  "AMD"; "INTC"; "MU"; "QCOM"; "TXN"; "AMAT"; "LRCX"; "KLAC"; "ADI"; "MRVL";
  "NXPI"; "MCHP"; "ON"; "SWKS"; "QRVO"; "MPWR"; "SMCI"; "ARM"; "ASML";
  "SNPS"; "CDNS"; "ANSS"; "WOLF"; "SLAB"; "CRUS"; "MKSI"; "ENTG"; "ACLS";
  "COHR"; "IPGP"; "CRM"; "ORCL"; "ADBE"; "NOW"; "INTU"; "PANW"; "CRWD";
  "SNOW"; "DDOG"; "ZS"; "NET"; "PLTR"; "MDB"; "ESTC"; "SPLK"; "TEAM"; "OKTA";
  "ZM"; "TWLO"; "HUBS"; "DOCU"; "WDAY"; "VEEV"; "RNG"; "BILL"; "PATH";
  "DOCN"; "CFLT"; "MNDY"; "GTLB"; "S"; "TENB"; "CYBR"; "FTNT"; "RPD"; "QLYS";
  "VRNS"; "SAIL"; "SMAR"; "APPN"; "IONQ"; "RGTI"; "QBTS"; "QUBT"; "ARQQ";
  "SOUN"; "BBAI"; "AI"; "UPST"; "CXAI"; "NFLX"; "SPOT"; "ROKU"; "TTD";
  "PINS"; "SNAP"; "RBLX"; "U"; "TTWO"; "EA"; "MTCH"; "BMBL"; "YELP"; "TRIP";
  "EXPE"; "BKNG"; "ABNB"; "UBER"; "LYFT"; "DASH"; "GRUB"; "DKNG"; "PENN";
  "CHWY"; "ETSY"; "EBAY"; "MELI"; "SE"; "SHOP"; "SQ"; "PYPL"; "SQ"; "AFRM";
  "SOFI"; "HOOD"; "COIN"; "UPST"; "LC"; "MQ"; "FOUR"; "PAYO"; "DLO"; "STNE";
  "PAGS"; "XP"; "NU"; "BILL"; "TOST"; "FLYW"; "OUST"; "JPM"; "BAC"; "WFC";
  "C"; "GS"; "MS"; "SCHW"; "BLK"; "BX"; "KKR"; "APO"; "ARES"; "OWL"; "TROW";
  "IVZ"; "BEN"; "AMG"; "LPLA"; "RJF"; "SEIC"; "USB"; "PNC"; "TFC"; "MTB";
  "FITB"; "KEY"; "RF"; "HBAN"; "CFG"; "ZION"; "AXP"; "COF"; "DFS"; "SYF";
  "ALLY"; "NAVI"; "SLM"; "FCNCA"; "WAL"; "EWBC"; "LLY"; "UNH"; "JNJ"; "PFE";
  "ABBV"; "MRK"; "TMO"; "ABT"; "DHR"; "BMY"; "AMGN"; "GILD"; "VRTX"; "REGN";
  "MRNA"; "BNTX"; "BIIB"; "ILMN"; "ISRG"; "DXCM"; "PODD"; "ALGN"; "IDXX";
  "IQV"; "CRL"; "RVTY"; "TECH"; "BIO"; "A"; "WAT"; "ZBH"; "SYK"; "BSX";
  "MDT"; "EW"; "HCA"; "CVS"; "CI"; "ELV"; "HUM"; "CNC"; "MOH"; "UHS"; "SGRY";
  "DVA"; "HIMS"; "DOCS"; "TDOC"; "OSCR"; "CLOV"; "WMT"; "COST"; "TGT"; "HD";
  "LOW"; "DLTR"; "DG"; "FIVE"; "OLLI"; "BJ"; "AMZN"; "BABA"; "JD"; "PDD";
  "CPNG"; "W"; "OSTK"; "REAL"; "CVNA"; "CARG"; "AN"; "LAD"; "KMX"; "SIG";
  "ULTA"; "SEPHORA"; "EL"; "TPR"; "RL"; "PVH"; "VFC"; "HBI"; "UAA"; "LULU";
  "NKE"; "DECK"; "CROX"; "SKX"; "WWW"; "SHOO"; "GPS"; "ANF"; "AEO"; "URBN";
  "EXPR"; "TLRD"; "BURL"; "TJX"; "ROST"; "WSM"; "RH"; "BBWI"; "WRBY"; "FIGS";
  "BROS"; "SBUX"; "MCD"; "CMG"; "QSR"; "WEN"; "DPZ"; "PZZA"; "YUM"; "WING";
  "SHAK"; "JACK"; "DNUT"; "DIN"; "CAKE"; "EAT"; "TXRH"; "BLMN"; "DRI";
  "CBRL"; "PLAY"; "SIX"; "FUN"; "SEAS"; "CNK"; "IMAX"; "PEP"; "KO"; "MNST";
  "CELH"; "KDP"; "TAP"; "SAM"; "STZ"; "DEO"; "BF"; "PM"; "MO"; "BTI"; "TPB";
  "TLRY"; "CGC"; "ACB"; "CRON"; "SNDL"; "VFF"; "TSLA"; "RIVN"; "LCID"; "NIO";
  "XPEV"; "LI"; "FSR"; "NKLA"; "RIDE"; "WKHS"; "GOEV"; "FFIE"; "MULN"; "VFS";
  "PTRA"; "ARVL"; "LEV"; "HYLN"; "EVGO"; "CHPT"; "BLNK"; "VLTA"; "DCFC";
  "QS"; "MVST"; "SLDP"; "FREY"; "FREYR"; "ENVX"; "AMPX"; "F"; "GM"; "TM";
  "HMC"; "RACE"; "STLA"; "VWAGY"; "BMWYY"; "MBGAF"; "POAHY"; "BA"; "LMT";
  "RTX"; "NOC"; "GD"; "HII"; "LHX"; "TDG"; "TXT"; "HWM"; "CAT"; "DE"; "PCAR";
  "CMI"; "AGCO"; "CNHI"; "TEX"; "ASTE"; "OSK"; "WNC"; "GE"; "HON"; "MMM";
  "EMR"; "ROK"; "AME"; "PH"; "ITW"; "NDSN"; "MIDD"; "URI"; "HEES"; "WSC";
  "ACM"; "PWR"; "EME"; "FIX"; "MTZ"; "AROC"; "TPC"; "FDX"; "UPS"; "DAL";
  "UAL"; "AAL"; "LUV"; "ALK"; "JBLU"; "SAVE"; "HA"; "JBHT"; "KNX"; "ODFL";
  "SAIA"; "XPO"; "GXO"; "CHRW"; "EXPD"; "LSTR"; "HUBG"; "XOM"; "CVX"; "COP";
  "EOG"; "SLB"; "MPC"; "VLO"; "PSX"; "OXY"; "PXD"; "DVN"; "FANG"; "HAL";
  "BKR"; "NOV"; "HP"; "OII"; "RIG"; "VAL"; "DO"; "AR"; "RRC"; "EQT"; "SWN";
  "CNX"; "CTRA"; "MTDR"; "CHRD"; "PR"; "GPOR"; "NEE"; "DUK"; "SO"; "D";
  "AEP"; "XEL"; "SRE"; "ED"; "EIX"; "WEC"; "ES"; "AWK"; "ATO"; "NI"; "CMS";
  "DTE"; "FE"; "PPL"; "EVRG"; "AES"; "PLUG"; "FCEL"; "BLDP"; "BE"; "BLOOM";
  "ENPH"; "SEDG"; "RUN"; "NOVA"; "ARRY"; "SHLS"; "MAXN"; "SPWR"; "FSLR";
  "CSIQ"; "JKS"; "DQ"; "FLNC"; "STEM"; "GEVO"; "AMT"; "PLD"; "EQIX"; "CCI";
  "PSA"; "DLR"; "SBAC"; "O"; "WELL"; "AVB"; "EQR"; "VTR"; "ARE"; "MAA";
  "UDR"; "ESS"; "CPT"; "SUI"; "ELS"; "INVH"; "MPW"; "PEAK"; "DOC"; "HR";
  "OHI"; "CTRE"; "SBRA"; "LTC"; "NHI"; "GMRE"; "LIN"; "APD"; "SHW"; "DD";
  "DOW"; "PPG"; "ECL"; "EMN"; "ALB"; "FMC"; "NEM"; "FCX"; "NUE"; "STLD";
  "CLF"; "X"; "AA"; "SCCO"; "TECK"; "RIO"; "BHP"; "VALE"; "MT"; "BTU";
  "ARCH"; "CNR"; "HCC"; "AMR"; "CEIX"; "ARLP"; "MP"; "LAC"; "LTHM"; "SQM";
  "LTBR"; "UUUU"; "DNN"; "NXE"; "URG"; "CCJ"; "RKLB"; "LUNR"; "RDW"; "ASTS";
  "BKSY"; "SPIR"; "PL"; "VORB"; "ASTR"; "MNTS"; "MSTR"; "COIN"; "MARA";
  "RIOT"; "CLSK"; "IREN"; "HUT"; "BITF"; "BTBT"; "CIFR"; "EBON"; "CORZ";
  "ARBK"; "GREE"; "BTDR"; "WULF"; "BTCM"; "ETOR"; "SATO"; "DGHI"; "IBIT";
  "GBTC"; "FBTC"; "ARKB"; "BITB"; "HODL"; "BRRR"; "BTCO"; "DEFI"; "EZBC";
  "ETHE"; "ETHV"; "CETH"; "FETH"; "ETHA"; "MSTU"; "MSTX"; "MSTZ"; "CONL";
  "GME"; "AMC"; "BB"; "NOK"; "BBBY"; "KOSS"; "EXPR"; "NAKD"; "SNDL"; "TLRY";
  "WKHS"; "CLOV"; "WISH"; "SOFI"; "HOOD"; "LCID"; "RIVN"; "DWAC"; "PHUN";
  "MARK"; "SPCE"; "SKLZ"; "PLBY"; "BYND"; "CRSR"; "NNDM"; "SPRT"; "ATER";
  "IRNT"; "SDC"; "PROG"; "BBIG"; "TYDE"; "CEI"; "OCGN"; "AGRX"; "BIOR";
  "SAVA"; "SRNE"; "EDSA"; "DJT"; "SMFL"; "RDDT"; "LUNR"; "SPY"; "QQQ"; "IWM";
  "DIA"; "VOO"; "VTI"; "VTV"; "VUG"; "VGT"; "VHT"; "VNQ"; "VWO"; "VEA";
  "VIG"; "SCHD"; "JEPI"; "JEPQ"; "QYLD"; "XYLD"; "RYLD"; "XLF"; "XLE"; "XLK";
  "XLV"; "XLI"; "XLY"; "XLP"; "XLU"; "XLB"; "XLRE"; "IYR"; "ITB"; "XHB";
  "KRE"; "KBE"; "OIH"; "XOP"; "AMLP"; "MLPA"; "TAN"; "ICLN"; "PBW"; "QCLN";
  "LIT"; "BATT"; "DRIV"; "IDRV"; "CARZ"; "KOMP"; "ARKK"; "ARKW"; "ARKF";
  "ARKG"; "ARKQ"; "ARKX"; "PRNT"; "IZRL"; "MOON"; "ROBO"; "BOTZ"; "HACK";
  "BUG"; "CIBR"; "WCLD"; "SKYY"; "CLOU"; "IGV"; "SOXX"; "SMH"; "PSI"; "SOXL";
  "SOXS"; "TQQQ"; "SQQQ"; "QLD"; "QID"; "SPXL"; "SPXS"; "SPXU"; "UPRO";
  "TNA"; "TZA"; "LABU"; "LABD"; "FAS"; "FAZ"; "ERX"; "ERY"; "NUGT"; "DUST";
  "JNUG"; "JDST"; "GUSH"; "DRIP"; "BOIL"; "KOLD"; "UCO"; "SCO"; "USO"; "UNG";
  "UVXY"; "SVXY"; "VXX"; "VIXY"; "SVOL"; "VIXM"; "SPX"; "NDX"; "VIX"; "RUT";
  "DJI"; "CPI"; "PPI"; "PCE"; "GDP"; "NFP"; "JOBS"; "FOMC"; "FED"; "OPEC";
  "BTC"; "ETH"; "SOL"; "XRP"; "DOGE"; "ADA"; "AVAX"; "DOT"; "LINK"; "MATIC";
  "SHIB"; "LTC"; "BCH"; "UNI"; "AAVE"; "MKR"; "ATOM"; "FIL"; "ICP"; "APT"
]%string).

Definition KNOWN_TICKERS_production : gset str := list_to_set (map py [
  "AAPL"; "MSFT"; "GOOGL"; "GOOG"; "AMZN"; "NVDA"; "META"; "TSLA"; "BRK";
  "BRKB"; "TSM"; "AVGO"; "LLY"; "JPM"; "UNH"; "V"; "MA"; "XOM"; "JNJ"; "WMT";
  "AMD"; "INTC"; "MU"; "QCOM"; "TXN"; "AMAT"; "LRCX"; "KLAC"; "ADI"; "MRVL";
  "NXPI"; "MCHP"; "ON"; "SWKS"; "QRVO"; "MPWR"; "SMCI"; "ARM"; "ASML";
  "SNPS"; "CRM"; "ORCL"; "ADBE"; "NOW"; "INTU"; "PANW"; "CRWD"; "SNOW";
  "DDOG"; "ZS"; "NET"; "PLTR"; "MDB"; "ESTC"; "TEAM"; "OKTA"; "ZM"; "TWLO";
  "HUBS"; "DOCU"; "IONQ"; "RGTI"; "QBTS"; "QUBT"; "ARQQ"; "SOUN"; "BBAI";
  "AI"; "UPST"; "CXAI"; "GME"; "AMC"; "BB"; "NOK"; "KOSS"; "SNDL"; "TLRY";
  "LCID"; "RIVN"; "DJT"; "RDDT"; "MSTR"; "COIN"; "MARA"; "RIOT"; "CLSK";
  "IREN"; "HUT"; "BITF"; "IBIT"; "GBTC"; "FBTC"; "ARKB"; "ETHE"; "BTC";
  "ETH"; "SOL"; "XRP"; "DOGE"; "ADA"; "AVAX"; "DOT"; "LINK"; "SHIB"; "SPY";
  "QQQ"; "IWM"; "DIA"; "VOO"; "VTI"; "ARKK"; "SOXL"; "TQQQ"; "UVXY"; "SPX";
  "NDX"; "VIX"; "RUT"; "DJI"
]%string).

Definition IGNORE_WORDS_local : gset str := list_to_set (map py [
  "ALL"; "ARE"; "BIG"; "BUY"; "CAN"; "CEO"; "DAY"; "DID"; "EOD"; "FOR";
  "GET"; "GOT"; "HAS"; "HER"; "HIM"; "HIS"; "HOW"; "ITS"; "LET"; "LOT";
  "LOW"; "MAN"; "MAY"; "NEW"; "NOT"; "NOW"; "OLD"; "ONE"; "OUR"; "OUT";
  "OWN"; "RUN"; "SAW"; "SAY"; "SEE"; "SET"; "SHE"; "THE"; "TOO"; "TRY";
  "TWO"; "USE"; "WAS"; "WAY"; "WHO"; "WHY"; "WIN"; "WON"; "YES"; "YET";
  "YOU"; "JUST"; "KNOW"; "LIKE"; "LOOK"; "MAKE"; "MORE"; "MOST"; "MUCH";
  "MUST"; "NEXT"; "ONLY"; "OVER"; "SAME"; "SELF"; "SOME"; "SUCH"; "TELL";
  "THAN"; "THAT"; "THEM"; "THEN"; "THIS"; "TIME"; "VERY"; "WANT"; "WELL";
  "WHAT"; "WHEN"; "WILL"; "WITH"; "WORK"; "YEAR"; "BEEN"; "COME"; "DOES";
  "DONE"; "EACH"; "EVEN"; "FIND"; "GIVE"; "GOOD"; "HAVE"; "HERE"; "INTO";
  "KEEP"; "LAST"; "LONG"; "TAKE"; "THEIR"; "THINK"; "THOSE"; "UNDER";
  "COULD"; "WOULD"; "ABOUT"; "AFTER"; "BEING"; "COULD"; "EVERY"; "FIRST";
  "FOUND"; "GREAT"; "NEVER"; "OTHER"; "PLACE"; "RIGHT"; "STILL"; "THINK";
  "WHERE"; "WHICH"; "WHILE"; "WORLD"; "THESE"; "THING"; "THROUGH"; "LOL";
  "LMAO"; "LMFAO"; "OMG"; "WTF"; "IMO"; "IMHO"; "BTW"; "FYI"; "TBH"; "IDK";
  "SMH"; "NGL"; "BRO"; "SIS"; "FAM"; "ASAP"; "TBD"; "RN"; "FR"; "GG"; "GL";
  "HF"; "AFK"; "BRB"; "IRL"; "GOAT"; "FWIW"; "TLDR"; "TL"; "ATH"; "ATL";
  "AH"; "PM"; "IV"; "OI"; "RSI"; "EMA"; "SMA"; "MACD"; "VWAP"; "OTM"; "ITM";
  "ATM"; "DTE"; "VOL"; "AVG"; "MAX"; "MIN"; "BID"; "ASK"; "HIGH"; "OPEN";
  "YOLO"; "FOMO"; "HODL"; "MOON"; "DIP"; "RIP"; "CALLS"; "PUTS"; "CALL";
  "PUT"; "LONG"; "SHORT"; "SELL"; "HOLD"; "USA"; "NYC"; "LA"; "UK"; "EU";
  "US"; "AI"; "CEO"; "CFO"; "COO"; "CTO"; "IPO"; "SEC"; "IRS"; "FBI"; "CIA";
  "LOVE"; "LIFE"; "CARE"; "HELP"; "HOME"; "HOPE"; "KIND"; "MIND"; "REAL";
  "TRUE"; "BABY"; "BEST"; "FAST"; "FREE"; "FULL"; "GLAD"; "GOES"; "GONE";
  "HARD"; "HUGE"; "IDEA"; "JOBS"; "KIDS"; "LATE"; "LESS"; "LIVE"; "LOST";
  "LUCK"; "MAIN"; "NICE"; "OPEN"; "PAID"; "PLAY"; "POOR"; "RISK"; "SAFE";
  "SICK"; "SURE"; "TALK"; "WAIT"; "WALK"; "WILD"; "WISE"; "GUYS"; "NUTS";
  "KINDA"; "ELON"
]%string).

Definition IGNORE_WORDS_production : gset str := list_to_set (map py [
  "ALL"; "ARE"; "BIG"; "BUY"; "CAN"; "CEO"; "DAY"; "DID"; "EOD"; "FOR";
  "GET"; "GOT"; "HAS"; "HER"; "HIM"; "HIS"; "HOW"; "ITS"; "LET"; "LOT";
  "LOW"; "MAN"; "MAY"; "NEW"; "NOT"; "NOW"; "OLD"; "ONE"; "OUR"; "OUT";
  "OWN"; "RUN"; "SAW"; "SAY"; "SEE"; "SET"; "SHE"; "THE"; "TOO"; "TRY";
  "TWO"; "USE"; "WAS"; "WAY"; "WHO"; "WHY"; "WIN"; "WON"; "YES"; "YET";
  "YOU"; "JUST"; "KNOW"; "LIKE"; "LOOK"; "MAKE"; "MORE"; "MOST"; "MUCH";
  "LOL"; "LMAO"; "LMFAO"; "OMG"; "WTF"; "IMO"; "IMHO"; "BTW"; "FYI"; "TBH";
  "IDK"; "SMH"; "NGL"; "BRO"; "SIS"; "FAM"; "ASAP"; "GOAT"; "ELON"
]%string).

Definition AMBIGUOUS_TICKERS_local : gset str := list_to_set (map py [
  "ALL"; "ARE"; "BIG"; "CAN"; "CAR"; "DAY"; "FUN"; "FOR"; "GAS"; "GOT";
  "HAS"; "HIT"; "HOT"; "KEY"; "LOW"; "MAN"; "MEN"; "NET"; "NOW"; "OLD";
  "ONE"; "OUT"; "OWN"; "PAY"; "RUN"; "SEE"; "SIX"; "TEN"; "THE"; "TOP";
  "TRY"; "TWO"; "WAY"; "WIN"; "WON"; "YOU"; "ALLY"; "APPS"; "BALL"; "BAND";
  "BILL"; "BLUE"; "BOOM"; "CARS"; "CASH"; "COST"; "DECK"; "DISH"; "DOOR";
  "EDIT"; "EYES"; "FACT"; "FAST"; "FIVE"; "FLOW"; "FOOD"; "FORM"; "FREE";
  "FUEL"; "FULL"; "FUND"; "GAME"; "GOOD"; "GROW"; "HAND"; "HEAR"; "HELP";
  "HERE"; "HOME"; "HOPE"; "IDEA"; "INFO"; "JOBS"; "KIDS"; "KIND"; "KNOW";
  "LAND"; "LAST"; "LAWS"; "LEAD"; "LIFE"; "LINE"; "LIVE"; "LOOK"; "LOVE";
  "LUCK"; "MAKE"; "MATH"; "MEAN"; "MEET"; "MIND"; "MOVE"; "MUST"; "NEAR";
  "NEED"; "NEWS"; "NEXT"; "NICE"; "OPEN"; "PACK"; "PAID"; "PASS"; "PATH";
  "PEAK"; "PLAY"; "PLUS"; "POST"; "PUSH"; "RACE"; "RARE"; "RATE"; "READ";
  "REAL"; "REST"; "RIDE"; "RING"; "RISE"; "ROAD"; "ROCK"; "ROLL"; "ROOF";
  "ROOM"; "SAFE"; "SAIL"; "SALE"; "SAVE"; "SEED"; "SELF"; "SHIP"; "SHOP";
  "SHOW"; "SICK"; "SIDE"; "SIGN"; "SITE"; "SIZE"; "SNAP"; "SOLO"; "SONG";
  "SOON"; "SOUL"; "SPOT"; "STAR"; "STAY"; "STEP"; "STOP"; "TALK"; "TALL";
  "TEAM"; "TECH"; "TELL"; "TEST"; "TEXT"; "TICK"; "TIES"; "TIRE"; "TOWN";
  "TREE"; "TRIP"; "TRUE"; "TURN"; "UNIT"; "VERY"; "VIEW"; "VOID"; "VOTE";
  "WAIT"; "WALK"; "WALL"; "WARM"; "WASH"; "WAVE"; "WAYS"; "WEAR"; "WEEK";
  "WELL"; "WEST"; "WIDE"; "WIFE"; "WILD"; "WING"; "WIRE"; "WISE"; "WISH";
  "WOOD"; "WORD"; "WORK"; "WRAP"; "YARD"; "YEAR"; "ZERO"; "ZONE"; "BROS";
  "MARK"; "TELL"; "HEAR"; "DISH"; "TRIP"
]%string).

Definition AMBIGUOUS_TICKERS_production : gset str := list_to_set (map py [
  "ALLY"; "APPS"; "BALL"; "BAND"; "BILL"; "BLUE"; "BOOM"; "BROS"; "CARS";
  "CASH"; "COST"; "DECK"; "DISH"; "DOOR"; "EYES"; "FAST"; "FIVE"; "FLOW";
  "FOOD"; "FREE"; "FUEL"; "FULL"; "FUND"; "GAME"; "GOOD"; "GROW"; "HAND";
  "HEAR"; "HELP"; "HOME"; "HOPE"; "IDEA"; "INFO"; "JOBS"; "KIND"; "KNOW";
  "LAND"; "LAST"; "LEAD"; "LIFE"; "LINE"; "LIVE"; "LOOK"; "LOVE"; "LUCK";
  "MAKE"; "MARK"; "MIND"; "MOVE"; "NEED"; "NEWS"; "NEXT"; "NICE"; "OPEN";
  "PACK"; "PAID"; "PASS"; "PATH"; "PEAK"; "PLAY"; "PLUS"; "POST"; "PUSH";
  "RACE"; "RARE"; "RATE"; "READ"; "REAL"; "REST"; "RIDE"; "RING"; "RISE";
  "ROAD"; "ROCK"; "ROLL"; "ROOF"; "ROOM"; "SAFE"; "SAIL"; "SALE"; "SAVE";
  "SEED"; "SELF"; "SHIP"; "SHOP"; "SHOW"; "SICK"; "SIDE"; "SIGN"; "SITE";
  "SIZE"; "SNAP"; "SOLO"; "SONG"; "SOON"; "SOUL"; "SPOT"; "STAR"; "STAY";
  "STEP"; "STOP"; "TALK"; "TEAM"; "TECH"; "TELL"; "TEST"; "TEXT"; "TRIP";
  "TRUE"; "TURN"; "VIEW"; "VOTE"; "WAIT"; "WALK"; "WALL"; "WAVE"; "WAYS";
  "WELL"; "WILD"; "WING"; "WIRE"; "WISE"; "WISH"; "WOOD"; "WORD"; "WORK";
  "YEAR"; "ZERO"; "ZONE"
]%string).

Definition DOLLAR_ONLY_TICKERS_local : gset str := list_to_set (map py [
  "DO"; "GO"; "ON"; "SO"; "IT"; "AT"; "BE"; "BY"; "OR"; "AN"; "AS"; "IF";
  "NO"; "UP"; "WE"; "HE"; "ME"; "TV"; "A"; "I"; "U"; "AI"; "KO"; "CAT"; "DOG"
]%string).

Definition DOLLAR_ONLY_TICKERS_production : gset str := list_to_set (map py [
  "DO"; "GO"; "ON"; "SO"; "IT"; "AT"; "BE"; "BY"; "OR"; "AN"; "AS"; "IF";
  "NO"; "UP"; "WE"; "HE"; "ME"; "TV"; "A"; "I"; "U"; "AI"; "KO"; "CAT"
]%string).

Definition STOCK_CONTEXT_WORDS_local : gset str := list_to_set (map py [
  "buy"; "buying"; "bought"; "sell"; "selling"; "sold"; "calls"; "call";
  "puts"; "put"; "shares"; "stock"; "stocks"; "price"; "trading"; "trade";
  "long"; "short"; "bullish"; "bearish"; "options"; "option"; "squeeze";
  "moon"; "pump"; "dump"; "dip"; "rip"; "breakout"; "earnings"; "er"; "hold";
  "holding"; "position"; "entry"; "exit"; "target"; "pt"; "strike"; "exp";
  "expiry"; "weekly"; "weeklies"; "leaps"; "spread"; "portfolio"; "bag";
  "bags"; "bagholder"; "avg"; "average"; "profit"; "loss"; "gain"; "gains";
  "tendies"; "yolo"; "fomo"; "chart"; "ta"; "support"; "resistance";
  "volume"; "float"; "si"; "iv"; "oi"; "gamma"; "delta"; "theta"; "vega";
  "greeks"; "ripping"; "drilling"; "tanking"; "mooning"; "printing";
  "sending"; "weak"; "strong"; "green"; "red"; "bounce"; "fade"; "reversal";
  "oversold"; "overbought"; "undervalued"; "overvalued"; "cheap";
  "expensive"; "dividend"; "div"; "yield"; "pe"; "eps"; "revenue";
  "guidance"; "upgrade"; "downgrade"; "analyst"; "pt"; "rating"; "sector";
  "etf"; "rally"; "crash"; "correction"; "pullback"; "consolidation";
  "channel"; "ticker"; "symbol"; "stonk"; "stonks"; "invest"; "investing";
  "investor"
]%string).

Definition STOCK_CONTEXT_WORDS_production : gset str := list_to_set (map py [
  "buy"; "buying"; "bought"; "sell"; "selling"; "sold"; "calls"; "call";
  "puts"; "put"; "shares"; "stock"; "stocks"; "price"; "trading"; "trade";
  "long"; "short"; "bullish"; "bearish"; "options"; "option"; "squeeze";
  "moon"; "pump"; "dump"; "dip"; "rip"; "breakout"; "earnings"; "hold";
  "holding"; "position"; "entry"; "exit"; "target"; "strike"; "portfolio"
]%string).

Definition BULLISH_WORDS_local : gset str := list_to_set (map py [
  "buy"; "buying"; "bought"; "long"; "calls"; "call"; "bullish"; "moon";
  "rocket"; "pump"; "breakout"; "rip"; "ripping"; "squeeze"; "green"; "up";
  "higher"; "strong"; "support"; "bounce"; "reversal"; "cheap"; "dip";
  "accumulate"; "load"; "loading"; "ath"; "highs"; "beat"; "crush"; "smash";
  "blast"; "fly"; "flying"; "soar"; "send"; "print"; "tendies"; "gains";
  "bullish"; "lfg"; "letsgoo"; "bullrun"; "parabolic"
]%string).

Definition BULLISH_WORDS_production : gset str := list_to_set (map py [
  "buy"; "buying"; "bought"; "long"; "calls"; "call"; "bullish"; "moon";
  "rocket"; "pump"; "breakout"; "rip"; "ripping"; "squeeze"; "green"; "up";
  "higher"; "strong"; "support"; "bounce"; "reversal"; "cheap"; "dip";
  "accumulate"; "load"; "loading"; "ath"; "highs"; "beat"; "crush"; "smash";
  "blast"; "fly"; "flying"; "soar"; "send"; "print"; "tendies"; "gains";
  "lfg"; "letsgoo"; "parabolic"
]%string).

Definition BEARISH_WORDS_local : gset str := list_to_set (map py [
  "sell"; "selling"; "sold"; "short"; "puts"; "put"; "bearish"; "dump";
  "dumping"; "crash"; "crashing"; "tank"; "tanking"; "drill"; "drilling";
  "red"; "down"; "lower"; "weak"; "resistance"; "rejection"; "fade";
  "overvalued"; "expensive"; "bubble"; "top"; "topped"; "rug"; "rugged";
  "rekt"; "trapped"; "baghold"; "bagholder"; "dead"; "cliff"; "sink";
  "capitulate"; "capitulation"; "bloodbath"; "slaughter"
]%string).

Definition BEARISH_WORDS_production : gset str := list_to_set (map py [
  "sell"; "selling"; "sold"; "short"; "puts"; "put"; "bearish"; "dump";
  "dumping"; "crash"; "crashing"; "tank"; "tanking"; "drill"; "drilling";
  "red"; "down"; "lower"; "weak"; "resistance"; "rejection"; "fade";
  "overvalued"; "expensive"; "bubble"; "top"; "topped"; "rug"; "rugged";
  "rekt"; "trapped"; "baghold"; "bagholder"; "dead"; "cliff"; "sink"
]%string).

Definition COMPANY_NAMES : list (str * str) :=
  map (λ p, (py p.1, py p.2)) [
  ("TESLA", "TSLA"); ("NVIDIA", "NVDA"); ("APPLE", "AAPL");
  ("MICROSOFT", "MSFT"); ("AMAZON", "AMZN"); ("GOOGLE", "GOOGL");
  ("ALPHABET", "GOOGL"); ("PALANTIR", "PLTR"); ("COINBASE", "COIN");
  ("ROBINHOOD", "HOOD"); ("GAMESTOP", "GME"); ("SUPERMICRO", "SMCI");
  ("BROADCOM", "AVGO"); ("MICRON", "MU"); ("QUALCOMM", "QCOM");
  ("NETFLIX", "NFLX"); ("DISNEY", "DIS"); ("PAYPAL", "PYPL");
  ("SNOWFLAKE", "SNOW"); ("CROWDSTRIKE", "CRWD"); ("ROCKETLAB", "RKLB");
  ("ROCKET", "RKLB"); ("SPACEX", "SPACEX"); ("DATADOG", "DDOG");
  ("SALESFORCE", "CRM"); ("ORACLE", "ORCL"); ("ADOBE", "ADBE");
  ("INTEL", "INTC"); ("COSTCO", "COST"); ("WALMART", "WMT");
  ("TARGET", "TGT"); ("STARBUCKS", "SBUX"); ("MCDONALDS", "MCD");
  ("CHIPOTLE", "CMG"); ("BOEING", "BA"); ("LOCKHEED", "LMT")
]%string.


(** *** Patterns *)

(** [re.compile('|'.join(SPAM_LINK_PATTERNS), re.IGNORECASE)] *)
Definition SPAM_LINK_RE_local : re := ROr [
  RLit "discord.gg/";
  RLit "t.me/";
  RLit "bit.ly/";
  RLit "tinyurl.com/";
  RLit "telegram.";
  RLit "whatsapp.";
  RLit "signal.group/";
  RSeq [RLit "join"; RStar RAny; RLit "group"];
  RSeq [RLit "join"; RStar RAny; RLit "channel"];
  RSeq [RLit "join"; RStar RAny; RLit "server"];
  RSeq [RLit "click"; RStar RAny; RLit "link"];
  RSeq [RLit "check"; RStar RAny; RLit "bio"];
  RSeq [RLit "link"; RStar RAny; RLit "bio"];
  RSeq [RLit "dm"; RStar RAny; RLit "me"];
  RSeq [RLit "dm"; RStar RAny; RLit "for"];
  RSeq [RLit "message"; RStar RAny; RLit "me"]
].

(** [re.compile('|'.join(SPAM_PUMP_PHRASES), re.IGNORECASE)] *)
Definition SPAM_PUMP_RE_local : re := ROr [
  RSeq [RLit "guaranteed"; RStar RAny; RLit "gains"];
  RLit "100x";
  RLit "1000x";
  RSeq [RLit "10x"; RStar RAny; RLit "guaranteed"];
  RSeq [RLit "free"; RStar RAny; RLit "money"];
  RSeq [RLit "free"; RStar RAny; RLit "crypto"];
  RSeq [RLit "free"; RStar RAny; RLit "bitcoin"];
  RLit "airdrop";
  RSeq [RLit "giveaway"; RStar RAny; RLit "crypto"];
  RSeq [RLit "send"; RStar RAny; RLit "eth"];
  RSeq [RLit "send"; RStar RAny; RLit "btc"];
  RSeq [RLit "double"; RStar RAny; RLit "your"];
  RSeq [RLit "triple"; RStar RAny; RLit "your"];
  RSeq [RLit "10x"; RStar RAny; RLit "your"];
  RSeq [RLit "insider"; RStar RAny; RLit "info"];
  RSeq [RLit "insider"; RStar RAny; RLit "tip"];
  RSeq [RLit "trust"; RStar RAny; RLit "me"; RStar RAny; RLit "bro"];
  RSeq [RLit "financial"; RStar RAny; RLit "freedom"];
  RSeq [RLit "quit"; RStar RAny; RLit "job"];
  RSeq [RLit "passive"; RStar RAny; RLit "income"];
  RSeq [RLit "limited"; RStar RAny; RLit "spots"];
  RSeq [RLit "act"; RStar RAny; RLit "now"];
  RSeq [RLit "hurry"; RStar RAny; RLit "up"];
  RSeq [RLit "once"; RStar RAny; RLit "lifetime"];
  RSeq [RLit "cant"; RStar RAny; RLit "miss"];
  RSeq [RLit "can't"; RStar RAny; RLit "miss"];
  RSeq [RLit "get"; RStar RAny; RLit "rich"];
  RLit "millionaire";
  RLit "lambo";
  RSeq [RLit "pump"; RStar RAny; RLit "coming"];
  RSeq [RLit "moon"; RStar RAny; RLit "guaranteed"];
  RSeq [RLit "easy"; RStar RAny; RLit "money"];
  RSeq [RLit "secret"; RStar RAny; RLit "strategy"];
  RSeq [RLit "they"; RStar RAny; RLit "dont"; RStar RAny; RLit "want"];
  RSeq [RLit "subscribe"; RStar RAny; RLit "my"];
  RSeq [RLit "follow"; RStar RAny; RLit "my"];
  RSeq [RLit "check"; RStar RAny; RLit "my"; RStar RAny; RLit "channel"]
].

(** [re.compile('|'.join(SPAM_CRYPTO_SCAM), re.IGNORECASE)] *)
Definition SPAM_CRYPTO_RE_local : re := ROr [
  RSeq [RLit "send"; RStar RAny; RPlus RDigit; RStar RAny; RLit "eth"];
  RSeq [RLit "send"; RStar RAny; RPlus RDigit; RStar RAny; RLit "btc"];
  RSeq [RLit "send"; RStar RAny; RPlus RDigit; RStar RAny; RLit "sol"];
  RSeq [RLit "wallet"; RStar RAny; RLit "address"];
  RSeq [RLit "connect"; RStar RAny; RLit "wallet"];
  RSeq [RLit "validate"; RStar RAny; RLit "wallet"];
  RSeq [RLit "sync"; RStar RAny; RLit "wallet"];
  RSeq [RLit "claim"; RStar RAny; RLit "reward"];
  RSeq [RLit "claim"; RStar RAny; RLit "token"];
  RSeq [RLit "claim"; RStar RAny; RLit "airdrop"]
].

(** [re.compile(..., re.IGNORECASE)] *)
Definition SPAM_LINK_RE_production : re := ROr [
  RLit "discord.gg/";
  RLit "t.me/";
  RLit "bit.ly/";
  RLit "tinyurl.com/";
  RLit "telegram.";
  RSeq [RLit "join"; RStar RAny; RLit "group"];
  RSeq [RLit "join"; RStar RAny; RLit "channel"];
  RSeq [RLit "dm"; RStar RAny; RLit "me"]
].

(** [re.compile(..., re.IGNORECASE)] *)
Definition SPAM_PUMP_RE_production : re := ROr [
  RSeq [RLit "guaranteed"; RStar RAny; RLit "gains"];
  RLit "100x";
  RLit "1000x";
  RSeq [RLit "free"; RStar RAny; RLit "money"];
  RSeq [RLit "free"; RStar RAny; RLit "crypto"];
  RLit "airdrop";
  RSeq [RLit "giveaway"; RStar RAny; RLit "crypto"];
  RSeq [RLit "double"; RStar RAny; RLit "your"];
  RSeq [RLit "insider"; RStar RAny; RLit "info"];
  RSeq [RLit "financial"; RStar RAny; RLit "freedom"];
  RSeq [RLit "limited"; RStar RAny; RLit "spots"];
  RSeq [RLit "get"; RStar RAny; RLit "rich"];
  RSeq [RLit "pump"; RStar RAny; RLit "coming"];
  RSeq [RLit "moon"; RStar RAny; RLit "guaranteed"];
  RSeq [RLit "subscribe"; RStar RAny; RLit "my"];
  RSeq [RLit "follow"; RStar RAny; RLit "my"]
].

(** [re.compile(..., re.IGNORECASE)] *)
Definition SPAM_CRYPTO_RE_production : re := ROr [
  RSeq [RLit "send"; RStar RAny; RPlus RDigit; RStar RAny; RLit "eth"];
  RSeq [RLit "send"; RStar RAny; RPlus RDigit; RStar RAny; RLit "btc"];
  RSeq [RLit "wallet"; RStar RAny; RLit "address"];
  RSeq [RLit "connect"; RStar RAny; RLit "wallet"];
  RSeq [RLit "validate"; RStar RAny; RLit "wallet"];
  RSeq [RLit "claim"; RStar RAny; RLit "reward"]
].

(** [re.compile('|'.join(QUESTION_PATTERNS), re.IGNORECASE)] *)
Definition QUESTION_PATTERN : re := ROr [
  RLit "?";
  RSeq [RBol; ROr [RLit "what"; RLit "when"; RLit "where"; RLit "why";
    RLit "how"; RLit "is"; RLit "are"; RLit "do"; RLit "does"; RLit "will";
    RLit "should"; RLit "can"; RLit "could"; RLit "would"; RLit "any"];
    RWordB];
  RSeq [RWordB; ROr [RLit "what"; RLit "which"; RLit "who"]; RStar RAny;
    RWordB; ROr [RLit "is"; RLit "are"; RLit "should"; RLit "would";
    RLit "do"]; RWordB];
  RSeq [RWordB; ROr [RLit "thoughts"; RLit "opinion"; RLit "think";
    RLit "reckon"]; RWordB; RStar RAny; RWordB; ROr [RLit "on";
    RLit "about"]; RWordB];
  RSeq [RWordB; RLit "good"; RPlus RSpace; ROr [RLit "price"; RLit "entry";
    RLit "time"; RLit "level"; RLit "spot"]; RWordB];
  RSeq [RWordB; ROr [RLit "should"; RLit "would"]; RPlus RSpace;
    ROr [RLit "i"; RLit "we"; RLit "you"]; RWordB];
  RSeq [RWordB; ROr [RLit "buy"; RLit "sell"; RLit "hold"]; RPlus RSpace;
    ROr [RLit "or"; RLit "now"]; RWordB];
  RSeq [RWordB; RLit "worth"; RPlus RSpace; ROr [RLit "it"; RLit "buying";
    RLit "holding"]; RWordB];
  RSeq [RWordB; RLit "any"; RPlus RSpace; ROr [RLit "news"; RLit "update";
    RLit "thoughts"]; RWordB];
  RSeq [RWordB; RLit "entry"; RStar RSpace; ROpt (ROr [RLit "point";
    RLit "price"; RLit "level"]); RWordB];
  RSeq [RWordB; RLit "target"; RStar RSpace; ROpt (RLit "price"); RWordB;
    RStar RAny; RWordB; RLit "for"; RWordB];
  RSeq [RWordB; RLit "pt"; RWordB; RStar RAny; RWordB; RLit "for"; RWordB]
].

Definition DOLLAR_RE : re :=
  RSeq [RLit "$"; RGroup (RRep (RSet false [IRange 65 90]) 1 5); RWordB].

Definition TICKER_WORD_RE : re :=
  RSeq [RWordB; RGroup (RRep (RSet false [IRange 65 90]) 2 5); RWordB].

Definition WORDS_RE : re :=
  RPlus RWord.

Definition REPEAT_RE : re :=
  RSeq [RGroup RAny; RAtLeast RBackref 4].

(** The patterns of [extract_video_id] in chat_viz_backend_v2.py, each with
    its group 1. *)
Definition NOT_SEP : re := RSet true [IChar 38; IChar 63; ISpace].   (* [^&?\s] *)

Definition VIDEO_ID_PATTERNS : list re := [
  RSeq [ROr [RLit "v="; RLit "/v/"; RLit "youtu.be/"]; RGroup (RPlus NOT_SEP)];
  RSeq [RLit "embed/"; RGroup (RPlus NOT_SEP)];
  RSeq [RLit "live/"; RGroup (RPlus NOT_SEP)];
  RSeq [RBol;
        RGroup (RRep (RSet false [IRange 97 122; IRange 65 90; IRange 48 57;
                                  IChar 95; IChar 45]) 11 11);
        REol]
].

(** *** Constants of the two files *)

Definition KNOWN_TICKERS (v : variant) : gset str :=
  match v with Local => KNOWN_TICKERS_local | Production => KNOWN_TICKERS_production end.
Definition IGNORE_WORDS (v : variant) : gset str :=
  match v with Local => IGNORE_WORDS_local | Production => IGNORE_WORDS_production end.
Definition AMBIGUOUS_TICKERS (v : variant) : gset str :=
  match v with Local => AMBIGUOUS_TICKERS_local | Production => AMBIGUOUS_TICKERS_production end.
Definition DOLLAR_ONLY_TICKERS (v : variant) : gset str :=
  match v with Local => DOLLAR_ONLY_TICKERS_local | Production => DOLLAR_ONLY_TICKERS_production end.
Definition STOCK_CONTEXT_WORDS (v : variant) : gset str :=
  match v with Local => STOCK_CONTEXT_WORDS_local | Production => STOCK_CONTEXT_WORDS_production end.
Definition BULLISH_WORDS (v : variant) : gset str :=
  match v with Local => BULLISH_WORDS_local | Production => BULLISH_WORDS_production end.
Definition BEARISH_WORDS (v : variant) : gset str :=
  match v with Local => BEARISH_WORDS_local | Production => BEARISH_WORDS_production end.
Definition SPAM_LINK_RE (v : variant) : re :=
  match v with Local => SPAM_LINK_RE_local | Production => SPAM_LINK_RE_production end.
Definition SPAM_PUMP_RE (v : variant) : re :=
  match v with Local => SPAM_PUMP_RE_local | Production => SPAM_PUMP_RE_production end.
Definition SPAM_CRYPTO_RE (v : variant) : re :=
  match v with Local => SPAM_CRYPTO_RE_local | Production => SPAM_CRYPTO_RE_production end.

Definition HISTORY_WINDOW : Q := 60.
Definition MAX_HISTORY_PER_USER : nat := 20.

(** The rapid-fire rule: [len(recent_10s) >= 3] with confidence 0.8 in
    chat_viz_backend.py, [>= 5] with 0.6 in chat_viz_backend_v2.py. *)
Definition RAPID_FIRE_COUNT (v : variant) : nat :=
  match v with Local => 3 | Production => 5 end.
Definition RAPID_FIRE_CONFIDENCE (v : variant) : Q :=
  match v with Local => 0.8 | Production => 0.6 end.

(** [messages[:10]] in chat_viz_backend.py, [messages[:VIBE_BATCH_SIZE]] in
    chat_viz_backend_v2.py; the vibe pass runs when [>= 3], respectively
    [>= VIBE_CHECK_INTERVAL], seconds have passed. *)
Definition VIBE_BATCH_SIZE (v : variant) : nat :=
  match v with Local => 10 | Production => 3 end.
Definition VIBE_CHECK_INTERVAL (v : variant) : Q :=
  match v with Local => 3 | Production => 30 end.

Definition PULSE_INTERVAL : Q := 120.

(** The glyph constants of [analyze_sentiment], as the source files hold
    them. *)
Definition POSITIVE_GLYPHS : list str := [
  [0xf0; 0x178; 0x161; 0x20ac];
  [0xf0; 0x178; 0x201c; 0x2c6];
  [0xf0; 0x178; 0x2019; 0x161];
  [0xf0; 0x178; 0x178; 0xa2];
  [0xf0; 0x178; 0x201d; 0xa5]
]%N.

Definition NEGATIVE_GLYPHS : list str := [
  [0xf0; 0x178; 0x201c; 0x2030];
  [0xf0; 0x178; 0x2019; 0x201d];
  [0xf0; 0x178; 0x201d; 0xb4];
  [0xf0; 0x178; 0xa9; 0xb8];
  [0xf0; 0x178; 0x2019; 0x20ac]
]%N.

(** Comparisons of rationals as booleans. *)
Definition Qltb (a b : Q) : bool := negb (Qle_bool b a).
Definition Qleb (a b : Q) : bool := Qle_bool a b.

(** ** Ticker extraction *)

Section Classifiers.
Context `{Runtime}.
Variable v : variant.

Definition has_stock_context (text : str) : bool :=
  let text_lower := str_lower text in
  let words : gset str := list_to_set (re_findall false WORDS_RE text_lower) in
  bool_decide (words ∩ STOCK_CONTEXT_WORDS v ≠ ∅).

(** [for name, ticker in COMPANY_NAMES.items(): if re.search(r'\b' + name +
    r'\b', text_upper): return ticker] *)
Fixpoint company_lookup (names : list (str * str)) (text_upper : str) : option str :=
  match names with
  | [] => None
  | (name, ticker) :: names' =>
      match re_search false (RSeq [RWordB; RSeq (map RChar name); RWordB]) text_upper with
      | Some _ => Some ticker
      | None => company_lookup names' text_upper
      end
  end.

(** The two loops over [words]; [ambiguous] says which of them. *)
Fixpoint scan_words (ambiguous : bool) (all_valid : gset str) (words : list str)
    : option str :=
  match words with
  | [] => None
  | word :: words' =>
      if bool_decide (word ∈ IGNORE_WORDS v) || bool_decide (word ∈ DOLLAR_ONLY_TICKERS v)
      then scan_words ambiguous all_valid words'
      else if bool_decide (word ∈ all_valid) &&
              eqb ambiguous (bool_decide (word ∈ AMBIGUOUS_TICKERS v))
      then Some word
      else scan_words ambiguous all_valid words'
  end.

(** Rule 1: the match of [\$([A-Z]{1,5})\b] in the upper-cased text. *)
Definition dollar_token (text_upper : str) : option str :=
  match re_search false DOLLAR_RE text_upper with
  | Some dollar_match => Some (default [] (mo_group1 dollar_match))
  | None => None
  end.

(** Rules 2 to 4: company names, known tickers, ambiguous tickers in
    context. *)
Definition extract_plain (text : str) (session_discovered : gset str) : option str :=
  let text_upper := str_upper text in
  match company_lookup COMPANY_NAMES text_upper with
  | Some ticker => Some ticker
  | None =>
      let all_valid := KNOWN_TICKERS v ∪ session_discovered in
      let words := re_findall false TICKER_WORD_RE text_upper in
      match scan_words false all_valid words with
      | Some word => Some word
      | None =>
          if has_stock_context text
          then scan_words true all_valid words
          else None
      end
  end.

(** [extract_ticker]: the result and the set [session_discovered] after the
    call (a module global in chat_viz_backend.py, an argument in
    chat_viz_backend_v2.py). *)
Definition extract_ticker (text : str) (session_discovered : gset str)
    : option str * gset str :=
  let text_upper := str_upper text in
  match dollar_token text_upper with
  | Some ticker =>
      if bool_decide (ticker ∈ IGNORE_WORDS v)
      then (extract_plain text session_discovered, session_discovered)
      else (Some ticker, {[ticker]} ∪ session_discovered)
  | None => (extract_plain text session_discovered, session_discovered)
  end.

(** ** Sentiment and questions *)

Inductive sentiment := bullish | bearish | neutral.

Definition any_in (glyphs : list str) (text : str) : bool :=
  existsb (λ g, contains g text) glyphs.

Definition analyze_sentiment (text : str) : sentiment :=
  let text_lower := str_lower text in
  let words : gset str := list_to_set (re_findall false WORDS_RE text_lower) in
  let bullish_count := size (words ∩ BULLISH_WORDS v) in
  let bearish_count := size (words ∩ BEARISH_WORDS v) in
  let bullish_count :=
    if any_in POSITIVE_GLYPHS text then bullish_count + 2 else bullish_count in
  let bearish_count :=
    if any_in NEGATIVE_GLYPHS text then bearish_count + 2 else bearish_count in
  if bearish_count <? bullish_count then bullish
  else if bullish_count <? bearish_count then bearish
  else neutral.

Definition is_question (text : str) : bool :=
  bool_decide (is_Some (re_search true QUESTION_PATTERN text)).

End Classifiers.

(** ** Spam detection *)

Inductive reason_code :=
| duplicate | rapid_fire | promo_link | pump_promo | crypto_scam
| excessive_caps | repetitive_chars | excessive_emojis.

#[global] Instance reason_code_eq_dec : EqDecision reason_code.
Proof. solve_decision. Defined.

(** The dict [detect_spam] returns. *)
Record spam_result := SpamResult {
  is_spam : bool;
  reason : option reason_code;
  reasons : list reason_code;
  confidence : Q;
}.

(** [user_message_history]: author ↦ [(timestamp, text_hash), ...]. *)
Abbreviation history := (gmap str (list (Q * Z))).

(** [round(x, 2)]: to the nearest hundredth, ties to the even one. *)
Definition round2 (x : Q) : Q :=
  let y := (x * 100)%Q in
  let f := Qfloor y in
  let d := (y - inject_Z f)%Q in
  let n := if Qltb d 0.5 then f
           else if Qltb 0.5 d then (f + 1)%Z
           else if Z.even f then f else (f + 1)%Z in
  (inject_Z n / 100)%Q.

Definition clean_history (author : str) (current_time : Q) (user_history : history)
    : history :=
  match user_history !! author with
  | Some entries =>
      <[author :=
          lastn MAX_HISTORY_PER_USER
            (List.filter (λ e, Qltb (current_time - e.1) HISTORY_WINDOW) entries)]>
        user_history
  | None => user_history
  end.

(** One rule of [detect_spam]: [if hit: reasons.append(code); confidence =
    max(confidence, c)]. *)
Definition fire (hit : bool) (code : reason_code) (c : Q)
    (acc : list reason_code * Q) : list reason_code * Q :=
  if hit then (acc.1 ++ [code], Qmax acc.2 c) else acc.

Section Spam.
Context `{Runtime}.
Variable v : variant.

(** The conditions of the eight rules, on the cleaned history. *)
Definition duplicate_hit (text : str) (author : str) (user_history : history) : bool :=
  let text_hash := hash (str_strip (str_lower text)) in
  match user_history !! author with
  | Some entries =>
      let recent_hashes := map snd entries in
      bool_decide (text_hash ∈ recent_hashes)
  | None => false
  end.

Definition rapid_fire_hit (current_time : Q) (author : str) (user_history : history)
    : bool :=
  match user_history !! author with
  | Some entries =>
      let recent_timestamps := map fst entries in
      let recent_10s :=
        List.filter (λ ts, Qltb (current_time - ts) 10) recent_timestamps in
      bool_decide (RAPID_FIRE_COUNT v ≤ length recent_10s)
  | None => false
  end.

Definition excessive_caps_hit (text : str) : bool :=
  let alpha_chars := List.filter isalpha text in
  if bool_decide (10 ≤ length alpha_chars) then
    let caps_ratio :=
      (inject_Z (Z.of_nat (length (List.filter isupper alpha_chars)))
       / inject_Z (Z.of_nat (length alpha_chars)))%Q in
    Qltb 0.7 caps_ratio
  else false.

Definition excessive_emojis_hit (text : str) : bool :=
  let emoji_count := length (List.filter EMOJI_DATA text) in
  bool_decide (10 < emoji_count).

Definition searches (ic : bool) (r : re) (text : str) : bool :=
  bool_decide (is_Some (re_search ic r text)).

(** [detect_spam(text, author)] at clock reading [current_time]: the verdict
    and the history after the call. *)
Definition detect_spam (current_time : Q) (text : str) (author : str)
    (user_history : history) : spam_result * history :=
  let user_history := clean_history author current_time user_history in
  let text_lower := str_lower text in
  let text_hash := hash (str_strip text_lower) in
  let acc : list reason_code * Q := ([], 0%Q) in
  let acc := fire (duplicate_hit text author user_history) duplicate 0.9 acc in
  let acc := fire (rapid_fire_hit current_time author user_history)
               rapid_fire (RAPID_FIRE_CONFIDENCE v) acc in
  let acc := fire (searches true (SPAM_LINK_RE v) text) promo_link 0.85 acc in
  let acc := fire (searches true (SPAM_PUMP_RE v) text) pump_promo 0.8 acc in
  let acc := fire (searches true (SPAM_CRYPTO_RE v) text) crypto_scam 0.95 acc in
  let acc := fire (excessive_caps_hit text) excessive_caps 0.5 acc in
  let acc := fire (searches false REPEAT_RE text) repetitive_chars 0.4 acc in
  let acc := fire (excessive_emojis_hit text) excessive_emojis 0.5 acc in
  let '(reasons, confidence) := acc in
  let user_history :=
    match user_history !! author with
    | Some _ => user_history
    | None => <[author := []]> user_history
    end in
  let user_history :=
    alter (λ entries, entries ++ [(current_time, text_hash)]) author user_history in
  let confidence :=
    if bool_decide (2 ≤ length reasons) && Qltb confidence 0.7
    then Qmin 0.75 (confidence + 0.2)
    else confidence in
  (SpamResult (Qleb 0.7 confidence) (head reasons) reasons (round2 confidence),
   user_history).

End Spam.

(** ** Message processing *)

(** The chat item of the chat source: [c.message], [c.author.name] and the
    two privilege attributes, which [getattr(..., False)] reads with a
    default. *)
Record author_info := Author {
  name : str;
  isChatOwner : option bool;
  isChatModerator : option bool;
}.

Record chat_item := ChatItem {
  message : str;
  author : author_info;
}.

Definition getattr (attr : option bool) (dflt : bool) : bool := default dflt attr.

Inductive vibe_code := funny | uplifting.

(** The dict [process_message] returns. *)
Record processed := Processed {
  p_text : str;
  p_author : str;
  p_timestamp : Q;
  p_topic : option str;
  p_sentiment : sentiment;
  p_isQuestion : bool;
  p_vibe : option vibe_code;
  p_spam : spam_result;
}.

(** The per-video state of chat_viz_backend_v2.py ([get_video_state]); in
    chat_viz_backend.py the last two are module globals. *)
Record video_state_t := VideoState {
  pulse_buffer : list nat;
  user_message_history : history;
  session_discovered : gset str;
}.

(** The calls [process_message] makes, in order (a ghost record). *)
Inductive call :=
| CallDetectSpam (text author : str)
| CallExtractTicker (text : str)
| CallIsQuestion (text : str)
| CallAnalyzeSentiment (text : str).

Section Processing.
Context `{Runtime}.
Variable v : variant.

(** [convert_emoji_codes] replaces [:code:] names by glyphs through a table
    and [emoji.emojize]; it leaves a text without [:] as it is.  The
    properties below hold whatever it returns. *)
Variable convert_emoji_codes : str → str.

(** [is_privileged] of chat_viz_backend_v2.py; chat_viz_backend.py has no
    such test and calls [detect_spam] for every message. *)
Definition is_privileged (chat_author : author_info) : bool :=
  match v with
  | Local => false
  | Production =>
      getattr (isChatOwner chat_author) false
      || getattr (isChatModerator chat_author) false
  end.

(** [process_message(chat_msg)] with the clock readings [now] (inside
    [detect_spam]) and [stamp] (for the field [timestamp]): the dict, the
    state after the call, and the calls made. *)
Definition process_message (now stamp : Q) (chat_msg : chat_item)
    (state : video_state_t) : processed * video_state_t * list call :=
  let chat_author := author chat_msg in
  let text := convert_emoji_codes (message chat_msg) in
  let author := name chat_author in
  let '(spam_result, user_history, calls) :=
    if is_privileged chat_author
    then (SpamResult false None [] 0%Q, user_message_history state, [])
    else
      let '(r, h) := detect_spam v now text author (user_message_history state) in
      (r, h, [CallDetectSpam text author]) in
  let '(topic, discovered) := extract_ticker v text (session_discovered state) in
  let isQuestion := is_question text in
  let calls := calls ++ [CallExtractTicker text; CallIsQuestion text] in
  let state := VideoState (pulse_buffer state) user_history discovered in
  match topic with
  | Some (_ :: _) =>
      (Processed text author stamp topic (analyze_sentiment v text) isQuestion None
         spam_result,
       state, calls ++ [CallAnalyzeSentiment text])
  | _ =>
      (Processed text author stamp topic neutral isQuestion None spam_result,
       state, calls)
  end.

End Processing.


(** ** The scraping loop

    The message dicts are objects shared by [vibe_batch] and
    [pulse_buffer], and [classify_vibe_batch] writes into them: the lists
    hold object identities and [store] maps an identity to the dict.  One
    iteration of the [while] loop is one step.  The completion service is an
    oracle, asked at most once per message for each kind of question (the
    spam question for the [n]-th message read, the vibe question for the
    message stored under an identity); its reply is [None] when the call
    times out or fails. *)

Inductive event :=
| Connected
| Message (p : processed)
| Vibe (p : processed)
| Pulse (x : str)
| Error.

(** The local variables of [scrape_youtube_chat], with the message dicts
    that exist while the loop runs ([store]) and two ghost fields: what was
    broadcast, and the messages whose vibe the completion service was asked
    for. *)
Record scraper := Scraper {
  store : gmap nat processed;
  vibe_batch : list nat;
  last_vibe_check : Q;
  last_pulse_time : Q;
  spam_count : nat;
  msg_count : nat;
  sent : list event;
  vibe_queries : list nat;
}.

Section Scraper.
Context `{Runtime}.
Variable v : variant.
Variable convert_emoji_codes : str → str.

(** The replies of the completion service to the spam prompt and to the vibe
    prompt of message [id], and [generate_pulse_summary] (prompt, completion
    and clean-up of the reply) on a buffer snapshot. *)
Variable llm_spam_reply : nat → str → option str.
Variable llm_vibe_reply : nat → str → option str.
Variable generate_pulse_summary : list processed → option str.

Definition llm_spam_check (id : nat) (text : str) : bool :=
  match llm_spam_reply id text with
  | Some result => contains (py "yes") (str_lower result)
  | None => false
  end.

Definition classify_vibe_single (id : nat) (text : str) : option vibe_code :=
  match llm_vibe_reply id text with
  | Some result =>
      let result_lower := str_lower result in
      if contains (py "funny") result_lower then Some funny
      else if contains (py "uplifting") result_lower then Some uplifting
      else None
  | None => None
  end.

Definition set_vibe (vibe : vibe_code) (p : processed) : processed :=
  Processed (p_text p) (p_author p) (p_timestamp p) (p_topic p) (p_sentiment p)
    (p_isQuestion p) (Some vibe) (p_spam p).

(** [classify_vibe_batch(messages)]: the store after the call and the
    messages that were submitted to the completion service. *)
Definition classify_vibe_batch (messages : list nat) (store : gmap nat processed)
    : gmap nat processed * list nat :=
  let batch := take (VIBE_BATCH_SIZE v) messages in
  let results :=
    map (λ id, from_option (λ p, classify_vibe_single id (p_text p)) None (store !! id))
      batch in
  (fold_left
     (λ store '(id, vibe),
        match vibe with
        | Some vb => alter (set_vibe vb) id store
        | None => store
        end)
     (zip batch results) store,
   batch).

Definition truthy (topic : option str) : bool :=
  match topic with
  | Some (_ :: _) => true
  | _ => false
  end.

(** The body of [for c in chat.get().sync_items()], for one item and its two
    clock readings. *)
Definition handle_item (st : video_state_t * scraper) (item : Q * Q * chat_item)
    : video_state_t * scraper :=
  let '(state, s) := st in
  let '(now, stamp, c) := item in
  let '(processed, state, _) :=
    process_message v convert_emoji_codes now stamp c state in
  let id := size (store s) in
  let nth := msg_count s in
  let msg_count := S (msg_count s) in
  let spam_info := p_spam processed in
  if is_spam spam_info
  then (state, Scraper (store s) (vibe_batch s) (last_vibe_check s)
                 (last_pulse_time s) (S (spam_count s)) msg_count (sent s)
                 (vibe_queries s))
  else if Qleb 0.5 (confidence spam_info)
          && llm_spam_check nth (p_text processed)
  then (state, Scraper (store s) (vibe_batch s) (last_vibe_check s)
                 (last_pulse_time s) (S (spam_count s)) msg_count (sent s)
                 (vibe_queries s))
  else
    let sent :=
      if truthy (p_topic processed) || p_isQuestion processed
      then sent s ++ [Message processed] else sent s in
    (VideoState (pulse_buffer state ++ [id]) (user_message_history state)
       (session_discovered state),
     Scraper (<[id := processed]> (store s)) (vibe_batch s ++ [id])
       (last_vibe_check s) (last_pulse_time s) (spam_count s) msg_count sent
       (vibe_queries s)).

(** Whether the vibe pass runs at [current_time]. *)
Definition vibe_due (current_time : Q) (s : scraper) : bool :=
  Qleb (VIBE_CHECK_INTERVAL v) (current_time - last_vibe_check s)
  && bool_decide (vibe_batch s ≠ []).

Definition has_vibe (store : gmap nat processed) (id : nat) : bool :=
  bool_decide (is_Some (store !! id ≫= p_vibe)).

(** [if current_time - last_vibe_check >= ... and vibe_batch: ...] *)
Definition vibe_pass (current_time : Q) (s : scraper) : scraper :=
  if vibe_due current_time s then
    let classified := lastn 20 (vibe_batch s) in
    let '(store, queried) := classify_vibe_batch classified (store s) in
    let vibes := omap (λ id, store !! id) (List.filter (has_vibe store) classified) in
    Scraper store [] current_time (last_pulse_time s) (spam_count s) (msg_count s)
      (sent s ++ map Vibe vibes) (vibe_queries s ++ queried)
  else s.

(** [if current_time - last_pulse_time >= PULSE_INTERVAL and
    len(pulse_buffer) >= 10: ...] *)
Definition pulse_pass (current_time : Q) (st : video_state_t * scraper)
    : video_state_t * scraper :=
  let '(state, s) := st in
  if Qleb PULSE_INTERVAL (current_time - last_pulse_time s)
     && bool_decide (10 ≤ length (pulse_buffer state))
  then
    let pulse :=
      generate_pulse_summary (omap (λ id, store s !! id) (pulse_buffer state)) in
    let sent := if pulse is Some x then sent s ++ [Pulse x] else sent s in
    (VideoState [] (user_message_history state) (session_discovered state),
     Scraper (store s) (vibe_batch s) (last_vibe_check s) current_time
       (spam_count s) (msg_count s) sent (vibe_queries s))
  else (state, s).

(** One iteration of the loop once the chat source has delivered [items]:
    the items, then the vibe pass and the pulse pass at [current_time]. *)
Definition scrape_iteration (items : list (Q * Q * chat_item)) (current_time : Q)
    (st : video_state_t * scraper) : video_state_t * scraper :=
  let '(state, s) := fold_left handle_item items st in
  pulse_pass current_time (state, vibe_pass current_time s).

(** The local variables when the loop starts; chat_viz_backend_v2.py has
    broadcast [connected] by then. *)
Definition scraper_init (current_time : Q) : scraper :=
  Scraper ∅ [] current_time current_time 0 0
    (match v with Local => [] | Production => [Connected] end) [].

(** The same local variables when message dicts exist already: in
    chat_viz_backend_v2.py [state['pulse_buffer']] is kept in [video_state]
    and the dicts in it outlive the task that made them. *)
Definition scraper_init_on (messages : gmap nat processed) (current_time : Q)
    : scraper :=
  Scraper messages [] current_time current_time 0 0
    (match v with Local => [] | Production => [Connected] end) [].

End Scraper.

(** ** The session registry of chat_viz_backend_v2.py

    The module globals [connected_clients], [video_clients],
    [active_scrapers] and [video_state], the local variable
    [client_video_id] of each [handle_client], and the tasks that
    [asyncio.create_task] has started and that have not finished.  The server
    runs on one event loop: the steps below are the stretches of code between
    two suspension points, except that an iteration of the scraping loop is
    taken as one step.

    [state['pulse_buffer']] holds the message dicts themselves, and the entry
    of [video_state] is never deleted: the dicts of a video live as long as
    the server.  While a task runs they are the [store] of its loop; when it
    ends, its local variables are gone and the dicts stay, in
    [video_messages], where the next task of the video finds them. *)

Inductive task_phase :=
| Created                 (* scheduled, body not entered yet *)
| Looping (s : scraper).  (* inside the [while] loop *)

Record server := Server {
  connected_clients : gset nat;
  client_video_id : gmap nat str;
  video_clients : gmap str (gset nat);
  active_scrapers : gmap str nat;
  video_state : gmap str video_state_t;
  tasks : gmap nat (str * task_phase);
  next_task : nat;
  video_messages : gmap str (gmap nat processed);
}.

(** What the chat source gives to one turn of the loop. *)
Inductive chat_step :=
| Ended                                  (* chat.is_alive() is false *)
| Failed                                 (* chat.get() raises *)
| Items (items : list (Q * Q * chat_item)).

(** The SUBSCRIBE message: [data.get('videoId')] and [data.get('url')]. *)
Record subscribe_data := SubscribeData {
  videoId : option str;
  url : option str;
}.

Section Server.
Context `{Runtime}.
Variable convert_emoji_codes : str → str.
Variable llm_spam_reply : nat → str → option str.
Variable llm_vibe_reply : nat → str → option str.
Variable generate_pulse_summary : list processed → option str.

Fixpoint first_group (patterns : list re) (url : str) : option str :=
  match patterns with
  | [] => None
  | pattern :: patterns' =>
      match re_search false pattern url with
      | Some m => Some (default [] (mo_group1 m))
      | None => first_group patterns' url
      end
  end.

Definition extract_video_id (url : str) : str :=
  default url (first_group VIDEO_ID_PATTERNS url).

Definition get_video_state (video_id : str) (vs : gmap str video_state_t)
    : gmap str video_state_t :=
  match vs !! video_id with
  | Some _ => vs
  | None => <[video_id := VideoState [] ∅ ∅]> vs
  end.

(** [video_clients[client_video_id].discard(websocket)] under [if
    client_video_id and client_video_id in video_clients]. *)
Definition discard_client (ws : nat) (current : option str)
    (vc : gmap str (gset nat)) : gmap str (gset nat) :=
  match current with
  | Some (c :: id) => alter (λ clients, clients ∖ {[ws]}) (c :: id) vc
  | _ => vc
  end.

(** A client connects: [connected_clients.add(websocket)]. *)
Definition connect (ws : nat) (srv : server) : server :=
  Server ({[ws]} ∪ connected_clients srv) (delete ws (client_video_id srv))
    (video_clients srv) (active_scrapers srv) (video_state srv) (tasks srv) (next_task srv)
    (video_messages srv).

(** The SUBSCRIBE branch once the video id is known and not empty. *)
Definition subscribe (ws : nat) (video_id : str) (srv : server) : server :=
  let vc := discard_client ws (client_video_id srv !! ws) (video_clients srv) in
  let vc :=
    match vc !! video_id with
    | Some _ => vc
    | None => <[video_id := ∅]> vc
    end in
  let vc := alter (λ clients, {[ws]} ∪ clients) video_id vc in
  let cvi := <[ws := video_id]> (client_video_id srv) in
  match active_scrapers srv !! video_id with
  | Some _ =>
      Server (connected_clients srv) cvi vc (active_scrapers srv) (video_state srv)
        (tasks srv) (next_task srv) (video_messages srv)
  | None =>
      let task := next_task srv in
      Server (connected_clients srv) cvi vc (<[video_id := task]> (active_scrapers srv))
        (video_state srv) (<[task := (video_id, Created)]> (tasks srv)) (S task)
        (video_messages srv)
  end.

(** The SUBSCRIBE branch: resolve the id, then subscribe or answer with an
    error. *)
Definition on_subscribe (ws : nat) (data : subscribe_data) (srv : server) : server :=
  let video_id :=
    match videoId data with
    | Some (c :: id) => c :: id
    | _ => extract_video_id (default [] (url data))
    end in
  match video_id with
  | _ :: _ => subscribe ws video_id srv
  | [] => srv
  end.

(** The UNSUBSCRIBE branch. *)
Definition unsubscribe (ws : nat) (srv : server) : server :=
  match client_video_id srv !! ws with
  | Some (c :: id) =>
      match video_clients srv !! (c :: id) with
      | Some _ =>
          Server (connected_clients srv) (delete ws (client_video_id srv))
            (discard_client ws (Some (c :: id)) (video_clients srv))
            (active_scrapers srv) (video_state srv) (tasks srv) (next_task srv)
            (video_messages srv)
      | None => srv
      end
  | _ => srv
  end.

(** The [finally] of [handle_client]. *)
Definition disconnect (ws : nat) (srv : server) : server :=
  Server (connected_clients srv ∖ {[ws]}) (delete ws (client_video_id srv))
    (discard_client ws (client_video_id srv !! ws) (video_clients srv))
    (active_scrapers srv) (video_state srv) (tasks srv) (next_task srv)
    (video_messages srv).

(** The message dicts of a video once [task] is over: those of its loop,
    when it had entered it. *)
Definition messages_after (task : nat) (video_id : str) (srv : server)
    : gmap str (gmap nat processed) :=
  match tasks srv !! task with
  | Some (_, Looping s) => <[video_id := store s]> (video_messages srv)
  | _ => video_messages srv
  end.

(** The [finally] of [scrape_youtube_chat]; the task is over. *)
Definition scraper_finally (task : nat) (video_id : str) (srv : server) : server :=
  Server (connected_clients srv) (client_video_id srv) (video_clients srv)
    (delete video_id (active_scrapers srv)) (video_state srv)
    (delete task (tasks srv)) (next_task srv) (messages_after task video_id srv).

(** Whether somebody still watches: the test at the head of the loop. *)
Definition has_clients (video_id : str) (srv : server) : bool :=
  match video_clients srv !! video_id with
  | Some clients => bool_decide (clients ≠ ∅)
  | None => false
  end.

(** A task enters [scrape_youtube_chat]: [get_video_state], then
    [pytchat.create], which succeeds or raises.  The loop starts with fresh
    local variables, on the message dicts the video has. *)
Definition scraper_start (task : nat) (create_ok : bool) (current_time : Q)
    (srv : server) : server :=
  match tasks srv !! task with
  | Some (video_id, Created) =>
      let vs := get_video_state video_id (video_state srv) in
      let srv := Server (connected_clients srv) (client_video_id srv) (video_clients srv)
                 (active_scrapers srv) vs (tasks srv) (next_task srv)
                 (video_messages srv) in
      if create_ok
      then
        let messages := default ∅ (video_messages srv !! video_id) in
        Server (connected_clients srv) (client_video_id srv) (video_clients srv)
          (active_scrapers srv) vs
          (<[task := (video_id,
                      Looping (scraper_init_on Production messages current_time))]>
             (tasks srv))
          (next_task srv) (video_messages srv)
      else scraper_finally task video_id srv
  | _ => srv
  end.

(** One turn of the [while] loop of a task. *)
Definition scraper_poll (task : nat) (chat : chat_step) (current_time : Q)
    (srv : server) : server :=
  match tasks srv !! task with
  | Some (video_id, Looping s) =>
      match chat with
      | Ended | Failed => scraper_finally task video_id srv
      | Items items =>
          if has_clients video_id srv then
            match video_state srv !! video_id with
            | Some state =>
                let '(state, s) :=
                  scrape_iteration Production convert_emoji_codes llm_spam_reply
                    llm_vibe_reply generate_pulse_summary items current_time
                    (state, s) in
                Server (connected_clients srv) (client_video_id srv) (video_clients srv)
                  (active_scrapers srv) (<[video_id := state]> (video_state srv))
                  (<[task := (video_id, Looping s)]> (tasks srv)) (next_task srv)
                  (video_messages srv)
            | None => srv
            end
          else scraper_finally task video_id srv
      end
  | _ => srv
  end.

End Server.

(** ** The chat pulse

    [generate_pulse_summary(messages)] of both backends.  The completion
    service is an oracle from the prompt to the text of its reply, [None]
    when the request fails or the reply cannot be read; [stamp] is the
    reading of [datetime.now()]. *)

Definition PULSE_MESSAGE_WINDOW : nat := 100.

(** The dict [generate_pulse_summary] returns. *)
Record pulse := PulseDict {
  pulse_summary : str;
  pulse_mood : str;
  pulse_top_ticker : option str;
  pulse_msg_count : nat;
  pulse_timestamp : Q;
}.

(** [sep.join(parts)] *)
Fixpoint str_join (sep : str) (parts : list str) : str :=
  match parts with
  | [] => []
  | [p] => p
  | p :: rest => p ++ sep ++ str_join sep rest
  end.

(** [str(n)] for a natural number. *)
Fixpoint digits (fuel n : nat) (acc : str) : str :=
  match fuel with
  | O => acc
  | S fuel' =>
      let acc := N.of_nat (48 + n mod 10) :: acc in
      if n <? 10 then acc else digits fuel' (n / 10) acc
  end.

Definition str_of_nat (n : nat) : str := digits (S n) n [].

(** [ticker_counts[t] = ticker_counts.get(t, 0) + 1] on a dict, which keeps
    its keys in the order of their first insertion. *)
Fixpoint count_ticker (t : str) (ticker_counts : list (str * nat)) : list (str * nat) :=
  match ticker_counts with
  | [] => [(t, 1)]
  | (k, n) :: rest =>
      if str_eqb k t then (k, S n) :: rest else (k, n) :: count_ticker t rest
  end.

(** [sorted(items, key=lambda x: -x[1])]: by falling count; the sort is
    stable, items of equal count keep their order. *)
Fixpoint insert_by_count (x : str * nat) (sorted : list (str * nat))
    : list (str * nat) :=
  match sorted with
  | [] => [x]
  | y :: rest =>
      if y.2 <? x.2 then x :: y :: rest else y :: insert_by_count x rest
  end.

Definition sorted_by_count (items : list (str * nat)) : list (str * nat) :=
  fold_left (λ sorted x, insert_by_count x sorted) items [].

Definition is_bullish (s : sentiment) : bool :=
  match s with bullish => true | _ => false end.
Definition is_bearish (s : sentiment) : bool :=
  match s with bearish => true | _ => false end.
Definition is_neutral (s : sentiment) : bool :=
  match s with neutral => true | _ => false end.

(** The four mood glyphs, as the source files spell them. *)
Definition MOOD_BULLISH : str := [0xf0; 0x178; 0x178; 0xa2]%N.
Definition MOOD_BEARISH : str := [0xf0; 0x178; 0x201d; 0xb4]%N.
Definition MOOD_MIXED : str := [0xf0; 0x178; 0x178; 0xa1]%N.
Definition MOOD_QUIET : str := [0xe2; 0x161; 0xaa]%N.

Section Pulse.
Context `{Runtime}.
Variable v : variant.
Variable llm_response : str → option str.

Definition pulse_prompt (ticker_summary sentiment_summary sample_msgs : str) : str :=
  match v with
  | Production =>
      py "Summarize this YouTube live chat in ONE short sentence (under 15 words)."
      ++ [10%N] ++ py "Top tickers: " ++ ticker_summary
      ++ [10%N] ++ py "Sentiment: " ++ sentiment_summary
      ++ [10%N; 10%N] ++ py "Recent messages:"
      ++ [10%N] ++ sample_msgs
      ++ [10%N; 10%N] ++ py "Summary:"
  | Local =>
      py "Summarize this YouTube live chat in ONE short sentence (under 15 words)."
      ++ [10%N] ++ py "Capture the overall mood and what people are talking about."
      ++ [10%N; 10%N] ++ py "Top tickers mentioned: " ++ ticker_summary
      ++ [10%N] ++ py "Sentiment: " ++ sentiment_summary
      ++ [10%N; 10%N] ++ py "Recent messages:"
      ++ [10%N] ++ sample_msgs
      ++ [10%N; 10%N] ++ py "Write a brief, casual summary like:"
      ++ [10%N] ++ py "- " ++ [34%N]
      ++ py "Bullish energy on NVDA, everyone waiting for earnings" ++ [34%N]
      ++ [10%N] ++ py "- " ++ [34%N]
      ++ py "Mixed feelings, lots of jokes about Jerome Powell" ++ [34%N]
      ++ [10%N] ++ py "- " ++ [34%N]
      ++ py "Quiet chat, mostly questions about entry points" ++ [34%N]
      ++ [10%N; 10%N] ++ py "Summary:"
  end.

(** The clean-up of the reply: quotes out, a leading dash off, at most 80
    characters. *)
Definition clean_summary (summary : str) : str :=
  let summary := str_strip (List.filter (λ c, negb (c =? 34)%N) summary) in
  let summary :=
    match summary with
    | c :: rest => if (c =? 45)%N then str_strip rest else summary
    | [] => summary
    end in
  if 80 <? length summary then take 77 summary ++ py "..." else summary.

Definition generate_pulse_summary (stamp : Q) (messages : list processed)
    : option pulse :=
  match messages with
  | [] => None
  | _ :: _ =>
      let texts := map p_text (lastn PULSE_MESSAGE_WINDOW messages) in
      let tickers :=
        omap (λ m, if truthy (p_topic m) then p_topic m else None) messages in
      let sentiments :=
        List.filter (λ s, negb (is_neutral s)) (map p_sentiment messages) in
      let ticker_counts := fold_left (λ counts t, count_ticker t counts) tickers [] in
      let top_tickers := take 3 (sorted_by_count ticker_counts) in
      let bullish_count := length (List.filter is_bullish sentiments) in
      let bearish_count := length (List.filter is_bearish sentiments) in
      let sample_msgs := str_join [10%N] (lastn 30 texts) in
      let ticker_summary :=
        match top_tickers with
        | [] => py "none"
        | _ :: _ =>
            str_join (py ", ")
              (map (λ tc, tc.1 ++ py "(" ++ str_of_nat tc.2 ++ py ")") top_tickers)
        end in
      let sentiment_summary :=
        str_of_nat bullish_count ++ py " bullish, "
        ++ str_of_nat bearish_count ++ py " bearish" in
      let prompt := pulse_prompt ticker_summary sentiment_summary sample_msgs in
      match llm_response prompt with
      | None => None
      | Some response =>
          let summary := str_strip response in
          match v, summary with
          | Production, [] => None
          | _, _ =>
              let summary := clean_summary summary in
              let mood :=
                if bearish_count * 2 <? bullish_count then MOOD_BULLISH
                else if bullish_count * 2 <? bearish_count then MOOD_BEARISH
                else if (0 <? bullish_count) || (0 <? bearish_count) then MOOD_MIXED
                else MOOD_QUIET in
              Some (PulseDict summary mood (fst <$> head top_tickers)
                      (length messages) stamp)
          end
      end
  end.

End Pulse.

(** ** Start-up of chat_viz_backend_v2.py

    [main(video_url)]: with a video on the command line, its scraper task is
    created and registered before the server accepts a client. *)
Definition main `{Runtime} (video_url : option str) : server :=
  match video_url with
  | Some (c :: rest) =>
      let video_id := extract_video_id (c :: rest) in
      Server ∅ ∅ ∅ {[video_id := 0]} ∅ {[0 := (video_id, Created)]} 1 ∅
  | _ => Server ∅ ∅ ∅ ∅ ∅ ∅ 0 ∅
  end.

(** ** The icon generator (src/extension/icons/generate_icons.py)

    A byte string is a list of numbers below 256.  [zlib.crc32] and
    [zlib.compress] are fields of the class [IconRuntime]; so are the two
    float comparisons of [create_png], [dist < radius] and
    [dist < radius + 2], as functions of the size and the pixel.
    [struct.pack('>I', n)] raises for a number that does not fit 32 bits:
    the functions return [None] then. *)

Class IconRuntime := {
  crc32 : list N → N;                      (* zlib.crc32 *)
  compress : list N → list N;              (* zlib.compress(data, 9) *)
  in_circle : nat → nat → nat → bool;      (* size, x, y: dist < radius *)
  in_border : nat → nat → nat → bool;      (* size, x, y: dist < radius + 2 *)
}.

(** [struct.pack('>I', n)] *)
Definition pack_I (n : N) : option (list N) :=
  if (n <? 2 ^ 32)%N
  then Some [(n / 2 ^ 24) mod 256; (n / 2 ^ 16) mod 256; (n / 2 ^ 8) mod 256;
             n mod 256]%N
  else None.

(** [b'\x89PNG\r\n\x1a\n'] *)
Definition PNG_SIGNATURE : list N := [137; 80; 78; 71; 13; 10; 26; 10]%N.

Section Icons.
Context `{IconRuntime}.

Definition png_chunk (chunk_type data : list N) : option (list N) :=
  match pack_I (N.of_nat (length data)) with
  | Some chunk_len =>
      let chunk := chunk_len ++ chunk_type ++ data in
      let crc := N.land (crc32 (chunk_type ++ data)) 0xffffffff in
      match pack_I crc with
      | Some crc_bytes => Some (chunk ++ crc_bytes)
      | None => None
      end
  | None => None
  end.

(** The three bytes of the pixel [(x, y)], for the default colour. *)
Definition pixel (size x y : nat) : list N :=
  if in_circle size x y then [59; 130; 246]%N
  else if in_border size x y then [30; 30; 40]%N
  else [15; 15; 25]%N.

(** One scanline: the filter byte, then the pixels. *)
Definition scanline (size y : nat) : list N :=
  0%N :: flat_map (λ x, pixel size x y) (seq 0 size).

Definition raw_data (size : nat) : list N :=
  flat_map (scanline size) (seq 0 size).

(** [create_png(size)] *)
Definition create_png (size : nat) : option (list N) :=
  match pack_I (N.of_nat size) with
  | Some width =>
      let ihdr_data := width ++ width ++ [8; 2; 0; 0; 0]%N in
      match png_chunk (py "IHDR") ihdr_data,
            png_chunk (py "IDAT") (compress (raw_data size)),
            png_chunk (py "IEND") [] with
      | Some ihdr, Some idat, Some iend => Some (PNG_SIGNATURE ++ ihdr ++ idat ++ iend)
      | _, _, _ => None
      end
  | None => None
  end.

(** [main()]: the files written, with their contents. *)
Definition icon_files : list (str * option (list N)) :=
  map (λ size, (py "icon" ++ str_of_nat size ++ py ".png", create_png size))
    [16; 32; 48; 128].

End Icons.
(** * Specification-level definitions *)

(** ** The spam verdict *)

(** The rule table of [detect_spam]: reason, confidence, and whether the rule
    triggers on this message (against the cleaned history). *)
Record rule := Rule {
  rule_code : reason_code;
  rule_confidence : Q;
  rule_hit : bool;
}.

Section SpamRules.
Context `{Runtime}.
Variable v : variant.

Definition rules (current_time : Q) (text author : str) (cleaned : history)
    : list rule := [
  Rule duplicate 0.9 (duplicate_hit text author cleaned);
  Rule rapid_fire (RAPID_FIRE_CONFIDENCE v) (rapid_fire_hit v current_time author cleaned);
  Rule promo_link 0.85 (searches true (SPAM_LINK_RE v) text);
  Rule pump_promo 0.8 (searches true (SPAM_PUMP_RE v) text);
  Rule crypto_scam 0.95 (searches true (SPAM_CRYPTO_RE v) text);
  Rule excessive_caps 0.5 (excessive_caps_hit text);
  Rule repetitive_chars 0.4 (searches false REPEAT_RE text);
  Rule excessive_emojis 0.5 (excessive_emojis_hit text)
].

Definition triggered (current_time : Q) (text author : str) (user_history : history)
    : list rule :=
  List.filter rule_hit
    (rules current_time text author (clean_history author current_time user_history)).

End SpamRules.

(** The largest of a list of confidences, starting from 0 as the code does. *)
Definition max_confidence (cs : list Q) : Q := fold_left Qmax cs 0%Q.


(** The combination step of [detect_spam] on [n] reasons with running
    confidence [m]. *)
Definition boost (n : nat) (m : Q) : Q :=
  if bool_decide (2 ≤ n) && Qltb m 0.7 then Qmin 0.75 (m + 0.2) else m.

(** What [clean_history] keeps of an author's entries at [current_time]. *)
Definition kept (current_time : Q) (entries : list (Q * Z)) : list (Q * Z) :=
  lastn MAX_HISTORY_PER_USER
    (List.filter (λ e, Qltb (current_time - e.1) HISTORY_WINDOW) entries).
Arguments kept : simpl never.

(** Successive calls of [detect_spam] for one author, at the given clock
    readings: the verdicts and the history after the last call. *)
Fixpoint score_stream `{Runtime} (v : variant) (author : str) (msgs : list (Q * str))
    (h : history) : list spam_result * history :=
  match msgs with
  | [] => ([], h)
  | (t, text) :: msgs' =>
      let '(r, h') := detect_spam v t text author h in
      let '(rs, h'') := score_stream v author msgs' h' in
      (r :: rs, h'')
  end.

(** Successive calls of [detect_spam] for any authors, each message with its
    clock reading, its text and its author: the history after the last
    call. *)
Definition score_chat `{Runtime} (v : variant) (msgs : list (Q * str * str))
    (h : history) : history :=
  fold_left (λ h m, (detect_spam v m.1.1 m.1.2 m.2 h).2) msgs h.

(** The messages of [author] among [msgs]. *)
Definition sent_by (author : str) (msgs : list (Q * str * str))
    : list (Q * str * str) :=
  List.filter (λ m, bool_decide (m.2 = author)) msgs.

(** An author name for the concrete runs. *)
Definition alice : str := py "alice".

(** [n] messages of [alice], one per second from second 1, each a different
    letter. *)
Definition chatter (n : nat) : list (Q * str * str) :=
  map (λ i, (inject_Z (Z.of_nat (S i)), [N.of_nat (97 + i)], alice)) (seq 0 n).

(** An entry at most 10 seconds old at [t]. *)
Definition recent (t : Q) (e : Q * Z) : Prop := (e.1 <= t)%Q ∧ (t - e.1 < 10)%Q.

(** The history entry [detect_spam] appends for a message scored at [m.1]. *)
Definition entry_of `{Runtime} (m : Q * str) : Q * Z :=
  (m.1, hash (str_strip (str_lower m.2))).

(** A burst of [n] messages of one author, one per second from second 0. *)
Definition burst (n : nat) : list (Q * str) :=
  map (λ i, (inject_Z (Z.of_nat i), py "gm")) (seq 0 n).

(** A message of the channel owner with a promotional link. *)
Definition owner_promo : chat_item :=
  ChatItem (py "join my group at discord.gg/abc")
    (Author (py "host") (Some true) (Some false)).

Definition fresh_state : video_state_t := VideoState [] ∅ ∅.

(** A viewer's message full of bullish words, with no ticker in it. *)
Definition bullish_chatter : chat_item :=
  ChatItem (py "buy buy moon pump gains")
    (Author alice (Some false) (Some false)).

(** The cursor after reading the characters [w]. *)
Definition advance (st : mstate) (w rest : str) : mstate :=
  MState (if last w is Some d then Some d else m_prev st) rest (m_cap st).

(** Membership in a character set [[...]] or [[^...]]. *)
Definition in_set `{Runtime} (neg : bool) (items : list citem) (x : char) : Prop :=
  xorb neg (existsb (λ i, citem_ok i x) items) = true.


(** The character before the position that follows [pre] in a subject. *)
Definition before (pre : str) : option char := last pre.

(** ** Sentiment, as the specification words it *)

(** The words of a text: its maximal runs of word characters. *)
Fixpoint tokens_from `{Runtime} (cur : str) (s : str) : list str :=
  match s with
  | [] => if cur is [] then [] else [cur]
  | c :: s' =>
      if isword c then tokens_from (cur ++ [c]) s'
      else (if cur is [] then [] else [cur]) ++ tokens_from [] s'
  end.

Definition tokens `{Runtime} (s : str) : list str := tokens_from [] s.

(** The longest prefix of [s] whose characters satisfy [p], and the rest. *)
Fixpoint span (p : char → bool) (s : str) : str * str :=
  match s with
  | c :: s' =>
      if p c then let '(w, rest) := span p s' in (c :: w, rest) else ([], s)
  | [] => ([], [])
  end.

(** The number of distinct lower-cased words of the text that are in the
    lexicon. *)
Definition lexicon_count `{Runtime} (lexicon : gset str) (text : str) : nat :=
  size (list_to_set (tokens (str_lower text)) ∩ lexicon).

Definition sentiment_of_counts (bullish_count bearish_count : nat) : sentiment :=
  if bearish_count <? bullish_count then bullish
  else if bullish_count <? bearish_count then bearish
  else neutral.

(** The reading of C7 as stated: 2 for each glyph of the list that occurs in
    the text. *)
Definition glyphs_present (glyphs : list str) (text : str) : nat :=
  length (List.filter (λ g, contains g text) glyphs).

Definition sentiment_per_glyph `{Runtime} (v : variant) (text : str) : sentiment :=
  sentiment_of_counts
    (lexicon_count (BULLISH_WORDS v) text + 2 * glyphs_present POSITIVE_GLYPHS text)
    (lexicon_count (BEARISH_WORDS v) text + 2 * glyphs_present NEGATIVE_GLYPHS text).

(** What the code does: 2 once, when at least one glyph of the list occurs. *)
Definition glyph_bonus (glyphs : list str) (text : str) : nat :=
  if any_in glyphs text then 2 else 0.

Definition sentiment_any_glyph `{Runtime} (v : variant) (text : str) : sentiment :=
  sentiment_of_counts
    (lexicon_count (BULLISH_WORDS v) text + glyph_bonus POSITIVE_GLYPHS text)
    (lexicon_count (BEARISH_WORDS v) text + glyph_bonus NEGATIVE_GLYPHS text).

(** Two positive glyphs and one negative glyph, as the source files spell
    them. *)
Definition two_up_one_down : str :=
  [0xf0; 0x178; 0x161; 0x20ac; 32;
   0xf0; 0x178; 0x201c; 0x2c6; 32;
   0xf0; 0x178; 0x2019; 0x20ac]%N.

(** ** Vibe batching, as the specification words it *)



(** A plain message, for the concrete runs. *)
Definition plain (text : string) : processed :=
  Processed (py text) alice 0 None neutral false None (SpamResult false None [] 0).



(** ** A run of the server, for the concrete evaluations *)

Definition no_reply (id : nat) (text : str) : option str := None.

Definition video_tail : str := py "Qw4w9WgXcQ".
Definition video : str := 100%N :: video_tail.   (* dQw4w9WgXcQ *)

Definition subscribe_to_video : subscribe_data := SubscribeData (Some video) None.














(** ** Further specification-level definitions *)

(** The reasons a verdict can hold alone without being spam while its
    confidence is 0.5 or more. *)
Definition borderline (v : variant) : list reason_code :=
  match v with
  | Local => [excessive_caps; excessive_emojis]
  | Production => [rapid_fire; excessive_caps; excessive_emojis]
  end.

(** Capital letters [A-Z]. *)
Definition capital (c : char) : Prop := (65 <= c)%N ∧ (c <= 90)%N.

Definition capitalb (c : char) : bool := (65 <=? c)%N && (c <=? 90)%N.

(** The link literals that the patterns [SPAM_LINK_RE] of the two backends
    share. *)
Definition LINK_LITERALS : list str :=
  map py ["discord.gg/"; "t.me/"; "bit.ly/"; "tinyurl.com/"; "telegram."].








(** ** Runs of the server *)

(** One step of the server of chat_viz_backend_v2.py: a client connects (a
    new websocket), a connected client sends SUBSCRIBE or UNSUBSCRIBE or goes
    away, a scraper task enters its body or takes a turn of its loop. *)
Inductive step `{Runtime} (conv : str → str) : server → server → Prop :=
| step_connect ws srv :
    ws ∉ connected_clients srv → step conv srv (connect ws srv)
| step_subscribe ws data srv :
    ws ∈ connected_clients srv → step conv srv (on_subscribe ws data srv)
| step_unsubscribe ws srv :
    ws ∈ connected_clients srv → step conv srv (unsubscribe ws srv)
| step_disconnect ws srv :
    ws ∈ connected_clients srv → step conv srv (disconnect ws srv)
| step_start task create_ok t srv :
    step conv srv (scraper_start task create_ok t srv)
| step_poll spam_or vibe_or pulse_or task chat t srv :
    step conv srv (scraper_poll conv spam_or vibe_or pulse_or task chat t srv).

(** The servers a run reaches from start-up. *)
Inductive reachable `{Runtime} (conv : str → str) (video_url : option str)
    : server → Prop :=
| reach_main : reachable conv video_url (main video_url)
| reach_step srv srv' :
    reachable conv video_url srv → step conv srv srv' →
    reachable conv video_url srv'.

(** The client sets hold the subscriptions, no more and no less: a client is
    in the client set of a video exactly when that video is the one it
    subscribed to last, and only connected clients are in a set. *)
Definition one_video_per_client (srv : server) : Prop :=
  video_clients srv !! [] = None ∧
  (∀ ws video_id clients,
     video_clients srv !! video_id = Some clients → ws ∈ clients →
     ws ∈ connected_clients srv ∧ client_video_id srv !! ws = Some video_id) ∧
  (∀ ws video_id,
     client_video_id srv !! ws = Some video_id →
     ∃ clients, video_clients srv !! video_id = Some clients ∧ ws ∈ clients).

(** The video id a SUBSCRIBE message asks for: [videoId], or else what
    [extract_video_id] makes of [url]; empty when there is none. *)
Definition requested_video `{Runtime} (data : subscribe_data) : str :=
  match videoId data with
  | Some (c :: id) => c :: id
  | _ => extract_video_id (default [] (url data))
  end.

(** The client gets the broadcasts of [video_id] and of no other video. *)
Definition watches (ws : nat) (video_id : str) (srv : server) : Prop :=
  (∃ clients, video_clients srv !! video_id = Some clients ∧ ws ∈ clients) ∧
  ∀ other clients,
    video_clients srv !! other = Some clients → ws ∈ clients → other = video_id.

(** A client that is in the client set of no video: nothing is broadcast to
    it. *)
Definition in_no_set (ws : nat) (srv : server) : Prop :=
  ∀ video_id clients, video_clients srv !! video_id = Some clients → ws ∉ clients.

(** The registry [active_scrapers] and the running tasks correspond one to
    one: a video has at most one pipeline. *)
Definition one_task_per_video (srv : server) : Prop :=
  (∀ video_id task, active_scrapers srv !! video_id = Some task →
     ∃ phase, tasks srv !! task = Some (video_id, phase)) ∧
  (∀ task video_id phase, tasks srv !! task = Some (video_id, phase) →
     active_scrapers srv !! video_id = Some task) ∧
  (∀ task, next_task srv ≤ task → tasks srv !! task = None).



(** A fresh server on which client 1 has subscribed to [video]. *)
Definition one_subscriber `{Runtime} : server :=
  on_subscribe 1 subscribe_to_video (connect 1 (main None)).

(** ** The pulse *)

(** The number of messages whose topic is [t]. *)
Definition mentions (t : str) (messages : list processed) : nat :=
  length (List.filter (λ m, bool_decide (p_topic m = Some t)) messages).

(** The count a dict of counts holds for a key (0 when absent). *)
Fixpoint count_of (t : str) (counts : list (str * nat)) : nat :=
  match counts with
  | [] => 0
  | (k, n) :: rest => if str_eqb k t then n else count_of t rest
  end.

(** By falling count. *)
Fixpoint falling (items : list (str * nat)) : Prop :=
  match items with
  | [] => True
  | x :: rest => Forall (λ y, y.2 ≤ x.2) rest ∧ falling rest
  end.

(** A message about a ticker, for the concrete runs. *)
Definition about (ticker : string) : processed :=
  Processed (py "up") alice 0 (Some (py ticker)) bullish false None
    (SpamResult false None [] 0).

(** A completion service that always replies with the same sentence. *)
Definition quiet_reply (prompt : str) : option str := Some (py "Quiet chat").

(** ** Video ids and icons *)

(** The characters of a video id: [[a-zA-Z0-9_-]]. *)
Definition id_char (c : char) : bool :=
  ((97 <=? c)%N && (c <=? 122)%N) || ((65 <=? c)%N && (c <=? 90)%N)
  || ((48 <=? c)%N && (c <=? 57)%N) || (c =? 95)%N || (c =? 45)%N.

(** The number a big-endian byte string stands for. *)
Definition be32 (bytes : list N) : N := fold_left (λ a b, (a * 256 + b)%N) bytes 0%N.

(** A stand-in for zlib and the float comparisons, for the concrete runs:
    no compression, checksum 0, every pixel inside the circle. *)
Definition plain_icons : IconRuntime := {|
  crc32 := λ _, 0%N;
  compress := λ data, data;
  in_circle := λ _ _ _, true;
  in_border := λ _ _ _, true;
|}.
(** * Properties *)

(** Closed comparisons of rationals. *)
Ltac Qclosed :=
  first [ vm_compute; first [reflexivity | discriminate | intro; discriminate]
        | let Hq := fresh in
          intro Hq; vm_compute in Hq; exfalso; apply Hq; reflexivity ].
Ltac Qabsurd Hyp :=
  first [vm_compute in Hyp; discriminate Hyp
        | exfalso; apply Hyp; vm_compute; first [reflexivity | discriminate]].

Lemma Qmax_cases (a b : Q) : Qmax a b = a ∨ Qmax a b = b.
Proof.
  unfold Qmax, GenericMinMax.gmax. destruct (a ?= b)%Q; auto.
Qed.

Lemma fold_Qmax_In (cs : list Q) (a : Q) : In (fold_left Qmax cs a) (a :: cs).
Proof.
  revert a. induction cs as [|c cs IH]; intros a; cbn [fold_left].
  - now left.
  - destruct (IH (Qmax a c)) as [E | Hin].
    + destruct (Qmax_cases a c) as [E' | E']; rewrite E' in E |- *.
      * now left.
      * right; now left.
    + right; now right.
Qed.

Lemma fold_Qmax_ge_init (cs : list Q) (a : Q) : (a <= fold_left Qmax cs a)%Q.
Proof.
  revert a. induction cs as [|c cs IH]; intros a; cbn [fold_left].
  - apply Qle_refl.
  - eapply Qle_trans; [apply Q.le_max_l | apply IH].
Qed.

Lemma fold_Qmax_ub (cs : list Q) (a c : Q) :
  In c cs → (c <= fold_left Qmax cs a)%Q.
Proof.
  revert a. induction cs as [|c' cs IH]; intros a Hin; [destruct Hin |].
  destruct Hin as [-> | Hin]; cbn [fold_left].
  - eapply Qle_trans; [apply Q.le_max_r | apply fold_Qmax_ge_init].
  - now apply IH.
Qed.

(** [max_confidence] is the maximum: an upper bound of the list that is 0 or
    one of its members. *)
Lemma max_confidence_is_max (cs : list Q) :
  (∀ c, In c cs → (c <= max_confidence cs)%Q) ∧
  (max_confidence cs = 0%Q ∨ In (max_confidence cs) cs) ∧
  (0 <= max_confidence cs)%Q.
Proof.
  split; [|split].
  - intros c Hin. now apply fold_Qmax_ub.
  - destruct (fold_Qmax_In cs 0%Q) as [E | Hin]; [left; now symmetry | now right].
  - apply fold_Qmax_ge_init.
Qed.

Lemma fire_fold (rs : list rule) (acc : list reason_code * Q) :
  fold_left (λ acc r, fire (rule_hit r) (rule_code r) (rule_confidence r) acc) rs acc
  = (acc.1 ++ map rule_code (List.filter rule_hit rs),
     fold_left Qmax (map rule_confidence (List.filter rule_hit rs)) acc.2).
Proof.
  revert acc. induction rs as [|r rs IH]; intros [l c]; cbn [fold_left].
  - cbn. now rewrite app_nil_r.
  - rewrite IH. cbn [List.filter]. unfold fire.
    destruct (rule_hit r); cbn; [now rewrite <- app_assoc | reflexivity].
Qed.

Lemma filter_In_map {A B} (f : A → B) (p : A → bool) (l : list A) (b : B) :
  In b (map f (List.filter p l)) → In b (map f l).
Proof.
  rewrite !in_map_iff. intros (a & E & Hin). exists a. split; [done|].
  apply filter_In in Hin. tauto.
Qed.

Lemma filter_NoDup_map {A B} (f : A → B) (p : A → bool) (l : list A) :
  NoDup (map f l) → NoDup (map f (List.filter p l)).
Proof.
  induction l as [|a l IH]; cbn; [done|].
  intros Hnd. apply NoDup_cons in Hnd as [Hnotin Hnd].
  destruct (p a); cbn; [|auto].
  apply NoDup_cons. split; [|auto].
  intros Hin. apply Hnotin. apply list_elem_of_In.
  apply list_elem_of_In in Hin. eapply filter_In_map, Hin.
Qed.

Lemma detect_spam_verdict `{Runtime} v now text author hist :
  let cleaned := clean_history author now hist in
  let acc :=
    fold_left (λ acc r, fire (rule_hit r) (rule_code r) (rule_confidence r) acc)
      (rules v now text author cleaned) ([], 0%Q) in
  let c := if bool_decide (2 ≤ length acc.1) && Qltb acc.2 0.7
           then Qmin 0.75 (acc.2 + 0.2)%Q else acc.2 in
  (detect_spam v now text author hist).1
  = SpamResult (Qleb 0.7 c) (head acc.1) acc.1 (round2 c).
Proof.
  intros cleaned acc c. unfold detect_spam. fold cleaned.
  subst c acc. unfold rules. cbn [fold_left rule_hit rule_code rule_confidence].
  match goal with |- context [fire ?b excessive_emojis ?q ?a] =>
    destruct (fire b excessive_emojis q a) as [rs cf] end.
  reflexivity.
Qed.


(** ** The author history *)

Lemma clean_history_lookup (author : str) (t : Q) (h : history) :
  clean_history author t h !! author = kept t <$> (h !! author).
Proof.
  unfold clean_history. destruct (h !! author) as [l|] eqn:E.
  - now rewrite lookup_insert_eq.
  - now rewrite E.
Qed.

Lemma clean_history_other (author other : str) (t : Q) (h : history) :
  other ≠ author → clean_history author t h !! other = h !! other.
Proof.
  intros Hne. unfold clean_history. destruct (h !! author); [|done].
  now rewrite lookup_insert_ne.
Qed.

(** The history entry of the author after a call: the kept entries followed
    by the new one. *)
Lemma detect_spam_history `{Runtime} (v : variant) (t : Q) (text author : str)
    (h : history) :
  (detect_spam v t text author h).2 !! author
  = Some (kept t (default [] (h !! author))
          ++ [(t, hash (str_strip (str_lower text)))]).
Proof.
  unfold detect_spam.
  match goal with |- context [fire ?b excessive_emojis ?q ?a] =>
    destruct (fire b excessive_emojis q a) as [rs cf] end.
  cbn [snd]. rewrite lookup_alter_eq.
  pose proof (clean_history_lookup author t h) as Hc.
  destruct (clean_history author t h !! author) as [l|] eqn:E.
  - rewrite E. destruct (h !! author); cbn in Hc |- *; congruence.
  - rewrite lookup_insert_eq. destruct (h !! author); cbn in Hc |- *; [congruence|].
    reflexivity.
Qed.

(** The entries of the other authors are not touched. *)
Lemma detect_spam_other `{Runtime} (v : variant) (t : Q) (text author other : str)
    (h : history) :
  other ≠ author → (detect_spam v t text author h).2 !! other = h !! other.
Proof.
  intros Hne. unfold detect_spam.
  match goal with |- context [fire ?b excessive_emojis ?q ?a] =>
    destruct (fire b excessive_emojis q a) as [rs cf] end.
  cbn [snd]. rewrite lookup_alter_ne by done.
  destruct (clean_history author t h !! author).
  - now apply clean_history_other.
  - rewrite lookup_insert_ne by done. now apply clean_history_other.
Qed.

(** ** Shape of the verdict *)

Lemma Qltb_lt (a b : Q) : Qltb a b = true ↔ (a < b)%Q.
Proof.
  unfold Qltb. rewrite negb_true_iff, <- not_true_iff_false, Qle_bool_iff.
  split; [apply Qnot_le_lt | apply Qlt_not_le].
Qed.

Lemma Qleb_le (a b : Q) : Qleb a b = true ↔ (a <= b)%Q.
Proof. apply Qle_bool_iff. Qed.

Lemma verdict_shape `{Runtime} (v : variant) (now : Q) (text author : str)
    (hist : history) :
  let fired := triggered v now text author hist in
  let c := boost (length fired) (max_confidence (map rule_confidence fired)) in
  (detect_spam v now text author hist).1
  = SpamResult (Qleb 0.7 c) (head (map rule_code fired)) (map rule_code fired)
      (round2 c).
Proof.
  intros fired c. rewrite detect_spam_verdict, fire_fold.
  cbn [fst snd app]. rewrite length_map. reflexivity.
Qed.

(** The running maximum is 0 or the confidence of one of the eight rules. *)
Lemma max_confidence_candidates `{Runtime} (v : variant) (now : Q)
    (text author : str) (hist : history) :
  In (max_confidence (map rule_confidence (triggered v now text author hist)))
     [0; 0.9; RAPID_FIRE_CONFIDENCE v; 0.85; 0.8; 0.95; 0.5; 0.4; 0.5]%Q.
Proof.
  destruct (fold_Qmax_In
              (map rule_confidence (triggered v now text author hist)) 0%Q)
    as [E | Hin].
  - left. exact E.
  - right. apply filter_In_map in Hin. exact Hin.
Qed.

(** On these values [round(confidence, 2)] changes nothing. *)
Lemma round2_boost (v : variant) (n : nat) (m : Q) :
  In m [0; 0.9; RAPID_FIRE_CONFIDENCE v; 0.85; 0.8; 0.95; 0.5; 0.4; 0.5]%Q →
  (round2 (boost n m) == boost n m)%Q.
Proof.
  intros Hm. unfold boost.
  destruct (bool_decide (2 ≤ n)); destruct v; cbn [RAPID_FIRE_CONFIDENCE In] in Hm;
    repeat (destruct Hm as [<- | Hm]); try destruct Hm; Qclosed.
Qed.

Lemma boost_ge (n : nat) (m : Q) : (m <= boost n m)%Q.
Proof.
  unfold boost. destruct (bool_decide (2 ≤ n) && Qltb m 0.7) eqn:E.
  - apply andb_true_iff in E as [_ E]. apply Qltb_lt in E.
    apply Q.min_glb; lra.
  - apply Qle_refl.
Qed.

(** ** Entries that stay in the history *)

Lemma lastn_app_keep {A} (n : nat) (xs es : list A) :
  length es ≤ n → ∃ pre, lastn n (xs ++ es) = pre ++ es.
Proof.
  intros Hle. unfold lastn. exists (drop (length (xs ++ es) - n) xs).
  rewrite drop_app_le; [done|]. rewrite length_app. lia.
Qed.

Lemma filter_all {A} (p : A → bool) (l : list A) :
  (∀ x, In x l → p x = true) → List.filter p l = l.
Proof.
  induction l as [|a l IH]; cbn; [done|]. intros Hall.
  rewrite (Hall a) by now left. f_equal. apply IH. intros x Hx. apply Hall. now right.
Qed.

Lemma filter_length_app_ge {A} (p : A → bool) (xs es : list A) :
  (∀ x, In x es → p x = true) → length es ≤ length (List.filter p (xs ++ es)).
Proof.
  intros Hall. rewrite List.filter_app, length_app, (filter_all p es Hall). lia.
Qed.

(** Entries that are recent at [t] survive a cleaning at any [t1 <= t]. *)
Lemma kept_recent (t t1 : Q) (xs es : list (Q * Z)) :
  (t1 <= t)%Q → Forall (recent t) es → length es ≤ MAX_HISTORY_PER_USER →
  ∃ pre, kept t1 (xs ++ es) = pre ++ es.
Proof.
  intros Ht Hes Hlen. unfold kept. rewrite List.filter_app.
  rewrite (filter_all _ es).
  - now apply lastn_app_keep.
  - intros e He. rewrite Forall_forall in Hes.
    destruct (Hes e (proj2 (list_elem_of_In _ _) He)) as [H1 H2].
    apply Qltb_lt. unfold HISTORY_WINDOW. lra.
Qed.

(** After a run of calls whose clock readings are recent at [t], the author's
    history ends with the entries of that run. *)
Lemma score_stream_suffix `{Runtime} (v : variant) (author : str) (t : Q)
    (msgs : list (Q * str)) :
  ∀ (h : history) (pre es : list (Q * Z)),
    default [] (h !! author) = pre ++ es →
    Forall (recent t) es →
    Forall (λ m, recent t (entry_of m)) msgs →
    length es + length msgs ≤ MAX_HISTORY_PER_USER →
    ∃ pre', default [] ((score_stream v author msgs h).2 !! author)
            = pre' ++ es ++ map entry_of msgs.
Proof.
  induction msgs as [|[t1 x1] msgs IH]; intros h pre es Hh Hes Hmsgs Hlen.
  - exists pre. cbn. now rewrite app_nil_r.
  - cbn [score_stream].
    destruct (detect_spam v t1 x1 author h) as [r h1] eqn:Ed.
    destruct (score_stream v author msgs h1) as [rs h2] eqn:Es. cbn [snd].
    apply Forall_cons in Hmsgs as [[Ht1 Ht1'] Hmsgs]. cbn [fst entry_of] in Ht1, Ht1'.
    pose proof (detect_spam_history v t1 x1 author h) as Hh1.
    rewrite Ed in Hh1. cbn [snd] in Hh1. rewrite Hh in Hh1.
    cbn [length] in Hlen.
    destruct (kept_recent t t1 pre es Ht1 Hes ltac:(lia)) as [pre1 Hk].
    rewrite Hk in Hh1.
    destruct (IH h1 pre1 (es ++ [entry_of (t1, x1)])) as [pre' Hres].
    + rewrite Hh1. simpl. now rewrite <- app_assoc.
    + apply Forall_app. split; [done|]. apply Forall_singleton. split; done.
    + done.
    + rewrite length_app. cbn [length]. lia.
    + rewrite Es in Hres. cbn [snd] in Hres.
      exists pre'. rewrite Hres. cbn [map]. now rewrite <- app_assoc.
Qed.

(** ** The matcher *)

Lemma orelse_Some {A} (x y : option A) (a : A) :
  orelse x y = Some a → x = Some a ∨ y = Some a.
Proof. destruct x; cbn; auto. Qed.

Lemma is_prefix_app (p s : str) : is_prefix p s = true → s = p ++ drop (length p) s.
Proof.
  revert s. induction p as [|a p IH]; intros s Hp; [done|].
  destruct s as [|b s]; [discriminate|]. cbn in Hp.
  apply andb_true_iff in Hp as [Hab Hp]. apply N.eqb_eq in Hab. subst b.
  cbn. f_equal. now apply IH.
Qed.

(** A successful match hands to its continuation a cursor further along the
    subject. *)
Lemma rmatch_consumes `{Runtime} {A} (ic : bool) (r : re) :
  ∀ (st : mstate) (k : mstate → option A) (a : A),
    rmatch ic r st k = Some a →
    ∃ st', k st' = Some a ∧ m_rest st' `suffix_of` m_rest st.
Proof.
  induction r as [c| |neg items| | | | |r1 IH1 r2 IH2|r1 IH1 r2 IH2|r1 IH1|r1 IH1|];
    intros st k a Hm; cbn [rmatch] in Hm.
  - destruct (m_rest st) as [|x s] eqn:Es; [discriminate|].
    destruct (chr_eq ic c x); [|discriminate].
    eexists. split; [exact Hm|]. cbn. now apply suffix_cons_r.
  - destruct (m_rest st) as [|x s] eqn:Es; [discriminate|].
    destruct (x =? 10)%N; [discriminate|].
    eexists. split; [exact Hm|]. cbn. now apply suffix_cons_r.
  - destruct (m_rest st) as [|x s] eqn:Es; [discriminate|].
    destruct (xorb neg _); [|discriminate].
    eexists. split; [exact Hm|]. cbn. now apply suffix_cons_r.
  - destruct (m_prev st); [discriminate|]. now exists st.
  - destruct (m_rest st) as [|x [|y s]] eqn:Es; [| | discriminate].
    + exists st. split; [done|]. now rewrite Es.
    + destruct (x =? 10)%N; [|discriminate]. exists st. split; [done|]. now rewrite Es.
  - destruct (xorb _ _); [|discriminate]. now exists st.
  - now exists st.
  - apply IH1 in Hm as (st1 & Hm & Hs1). apply IH2 in Hm as (st2 & Hm & Hs2).
    exists st2. split; [done|]. now trans (m_rest st1).
  - apply orelse_Some in Hm as [Hm | Hm]; [now apply IH1 | now apply IH2].
  - revert Hm. generalize (length (m_rest st)) at 1. intros fuel. revert st.
    induction fuel as [|fuel IHf]; intros st Hm.
    + now exists st.
    + apply orelse_Some in Hm as [Hm | Hm]; [|now exists st].
      apply IH1 in Hm as (st1 & Hm & Hs1).
      destruct (length (m_rest st1) <? length (m_rest st))%nat; [|discriminate].
      apply IHf in Hm as (st2 & Hm & Hs2).
      exists st2. split; [done|]. now trans (m_rest st1).
  - apply IH1 in Hm as (st1 & Hm & Hs1). eexists. split; [exact Hm|]. exact Hs1.
  - destruct (m_cap st) as [g|]; [|discriminate].
    destruct (is_prefix g (m_rest st)) eqn:Ep; [|discriminate].
    eexists. split; [exact Hm|]. cbn. apply suffix_drop.
Qed.

Lemma last_cons_or {A} (c : A) (l : list A) (o : option A) :
  (if last (c :: l) is Some d then Some d else o)
  = (if last l is Some d then Some d else Some c).
Proof.
  revert c o. induction l as [|e l IH]; intros c o; [done|].
  rewrite last_cons_cons. now rewrite !(IH e).
Qed.

(** [search_from] returns the match at the leftmost position of the subject
    that has one. *)
Lemma search_from_inv `{Runtime} (ic : bool) (r : re) (s : str) :
  ∀ (prev : option char) (i : nat) (m : match_obj),
    search_from ic r prev s i = Some m →
    ∃ (pre s' : str),
      s = pre ++ s' ∧
      match_at ic r (if last pre is Some d then Some d else prev) s'
        (i + length pre) = Some m ∧
      ∀ (pre1 pre2 : str) (c : char), pre = pre1 ++ c :: pre2 →
        match_at ic r (if last pre1 is Some d then Some d else prev)
          (c :: pre2 ++ s') (i + length pre1) = None.
Proof.
  induction s as [|c s IH]; intros prev i m Hs; cbn [search_from] in Hs.
  - apply orelse_Some in Hs as [Hs | Hs]; [|discriminate].
    exists [], []. rewrite Nat.add_0_r. split; [done|]. split; [done|].
    intros pre1 pre2 d Hd. now destruct pre1.
  - destruct (match_at ic r prev (c :: s) i) as [m0|] eqn:E0.
    + cbn in Hs. injection Hs as <-.
      exists [], (c :: s). rewrite Nat.add_0_r. split; [done|]. split; [done|].
      intros pre1 pre2 d Hd. now destruct pre1.
    + cbn in Hs. apply IH in Hs as (pre & s' & -> & Hm & Hleft).
      exists (c :: pre), s'. split; [done|]. split.
      * cbn [length]. now rewrite Nat.add_succ_r, last_cons_or.
      * intros pre1 pre2 d Hd. destruct pre1 as [|e pre1].
        -- cbn in Hd. injection Hd as <- <-. cbn. now rewrite Nat.add_0_r.
        -- cbn in Hd. injection Hd as <- ->.
           specialize (Hleft pre1 pre2 d eq_refl).
           cbn [length]. rewrite Nat.add_succ_r, last_cons_or. exact Hleft.
Qed.

(** Bounded repetitions of a character set read a run of its members. *)
Lemma rmatch_set_upto `{Runtime} {A} (ic neg : bool) (items : list citem) (n : nat) :
  ∀ (st : mstate) (k : mstate → option A) (a : A),
    rmatch ic (RUpto (RSet neg items) n) st k = Some a →
    ∃ w rest, m_rest st = w ++ rest ∧ length w ≤ n ∧
              Forall (in_set neg items) w ∧ k (advance st w rest) = Some a.
Proof.
  induction n as [|n IH]; intros st k a Hm; cbn [RUpto ROpt rmatch] in Hm.
  - exists [], (m_rest st).
    split; [done|]. split; [done|]. split; [constructor|]. now destruct st.
  - apply orelse_Some in Hm as [Hm | Hm].
    + destruct (m_rest st) as [|x s] eqn:Es; [discriminate|].
      destruct (xorb neg _) eqn:Ex; [|discriminate].
      apply IH in Hm as (w & rest & Hw & Hlen & Hall & Hk). cbn in Hw, Hk.
      exists (x :: w), rest. subst s. split; [done|]. split; [|split].
      * cbn. lia.
      * now constructor.
      * unfold advance in Hk |- *. cbn [m_prev m_cap] in Hk.
        now rewrite last_cons_or.
    + exists [], (m_rest st).
      split; [done|]. split; [cbn; lia|]. split; [constructor|]. now destruct st.
Qed.

Lemma rmatch_set_power `{Runtime} {A} (ic neg : bool) (items : list citem) (n : nat) :
  ∀ (st : mstate) (k : mstate → option A) (a : A),
    rmatch ic (RPower (RSet neg items) n) st k = Some a →
    ∃ w rest, m_rest st = w ++ rest ∧ length w = n ∧
              Forall (in_set neg items) w ∧ k (advance st w rest) = Some a.
Proof.
  induction n as [|n IH]; intros st k a Hm; cbn [RPower rmatch] in Hm.
  - exists [], (m_rest st).
    split; [done|]. split; [done|]. split; [constructor|]. now destruct st.
  - destruct (m_rest st) as [|x s] eqn:Es; [discriminate|].
    destruct (xorb neg _) eqn:Ex; [|discriminate].
    apply IH in Hm as (w & rest & Hw & Hlen & Hall & Hk). cbn in Hw, Hk.
    exists (x :: w), rest. subst s. split; [done|]. split; [|split].
    + cbn. lia.
    + now constructor.
    + unfold advance in Hk |- *. cbn [m_prev m_cap] in Hk.
      now rewrite last_cons_or.
Qed.

Lemma rmatch_set_rep `{Runtime} {A} (ic neg : bool) (items : list citem) (lo hi : nat) :
  ∀ (st : mstate) (k : mstate → option A) (a : A),
    rmatch ic (RRep (RSet neg items) lo hi) st k = Some a →
    ∃ w rest, m_rest st = w ++ rest ∧ lo ≤ length w ≤ lo + (hi - lo) ∧
              Forall (in_set neg items) w ∧ k (advance st w rest) = Some a.
Proof.
  intros st k a Hm. unfold RRep in Hm. cbn [rmatch] in Hm.
  apply rmatch_set_power in Hm as (w1 & rest1 & Hw1 & Hl1 & Ha1 & Hm).
  apply rmatch_set_upto in Hm as (w2 & rest2 & Hw2 & Hl2 & Ha2 & Hm).
  cbn in Hw2. exists (w1 ++ w2), rest2. split; [|split; [|split]].
  - now rewrite Hw1, Hw2, app_assoc.
  - rewrite length_app. lia.
  - now apply Forall_app.
  - unfold advance in Hm |- *. cbn [m_prev m_cap] in Hm.
    rewrite last_app. destruct (last w2); [exact Hm|]. exact Hm.
Qed.

(** The token of rule 1 is a run of one to five letters [A-Z] that follows a
    [$] in the subject. *)
Lemma dollar_token_shape `{Runtime} (s t : str) :
  dollar_token s = Some t →
  ∃ pre post, s = pre ++ 36%N :: t ++ post ∧ 1 ≤ length t ≤ 5 ∧
              Forall (λ c, (65 <= c)%N ∧ (c <= 90)%N) t.
Proof.
  unfold dollar_token. destruct (re_search false DOLLAR_RE s) as [m|] eqn:Es; [|done].
  intros [= <-]. unfold re_search in Es.
  apply search_from_inv in Es as (pre & s' & -> & Hm & _).
  unfold match_at, DOLLAR_RE in Hm. change (RLit "$") with (RChar 36) in Hm.
  cbn [RSeq rmatch m_rest] in Hm.
  destruct s' as [|x s1]; [discriminate|].
  destruct (chr_eq false _ x) eqn:Ex; [|discriminate].
  unfold chr_eq in Ex. apply N.eqb_eq in Ex. subst x.
  apply rmatch_set_rep in Hm as (w & rest & Hw & Hlen & Hall & Hm).
  cbn [m_rest advance m_prev m_cap] in Hw, Hm.
  destruct (xorb _ _); [|discriminate]. injection Hm as <-. cbn [mo_group1 m_cap].
  subst s1. rewrite length_app, Nat.add_sub, take_app_length. simpl.
  exists pre, rest. split; [done|]. split; [lia|].
  eapply Forall_impl; [exact Hall|]. intros c Hc. unfold in_set in Hc.
  cbn in Hc. rewrite orb_false_r in Hc. apply andb_true_iff in Hc as [H1 H2].
  apply N.leb_le in H1, H2. done.
Qed.

(** ** [re.findall(r'\w+', s)] is the list of the words of [s] *)

Lemma orelse_is_Some {A} (x y : option A) : is_Some x → orelse x y = x.
Proof. now intros [a ->]. Qed.

Lemma advance_nil (st : mstate) : advance st [] (m_rest st) = st.
Proof. now destruct st. Qed.

(** A greedy star over a character set, before a continuation that always
    succeeds, reads the longest run of members. *)
Lemma rmatch_star_set `{Runtime} {A} (ic neg : bool) (items : list citem)
    (k : mstate → option A) :
  (∀ st, is_Some (k st)) →
  ∀ st,
    rmatch ic (RStar (RSet neg items)) st k
    = k (advance st (span (λ x, xorb neg (existsb (λ i, citem_ok i x) items))
                       (m_rest st)).1
           (span (λ x, xorb neg (existsb (λ i, citem_ok i x) items)) (m_rest st)).2).
Proof.
  intros Hk st. cbn [rmatch].
  assert (Hfuel : length (m_rest st) ≤ length (m_rest st)) by lia.
  revert Hfuel. generalize (length (m_rest st)) at 2 3. intros fuel. revert st.
  induction fuel as [|fuel IH]; intros st Hfuel.
  - destruct st as [p [|x s] c]; cbn in Hfuel; [reflexivity | lia].
  - destruct st as [p [|x s] c]; cbn [m_rest rmatch orelse span]; [reflexivity|].
    destruct (xorb neg _) eqn:Ex; cbn [orelse]; [|done].
    cbn [m_rest length]. rewrite (proj2 (Nat.ltb_lt _ _)) by lia.
    rewrite IH by (cbn in Hfuel |- *; lia). cbn [m_rest].
    destruct (span _ s) as [w rest]. cbn [fst snd].
    unfold advance. cbn [m_prev m_cap]. rewrite last_cons_or.
    apply orelse_is_Some, Hk.
Qed.

Lemma span_ext (p q : char → bool) (s : str) :
  (∀ x, p x = q x) → span p s = span q s.
Proof.
  intros Hpq. induction s as [|c s IH]; cbn; [done|].
  now rewrite Hpq, IH.
Qed.

Lemma span_app (p : char → bool) (s : str) : s = (span p s).1 ++ (span p s).2.
Proof.
  induction s as [|c s IH]; cbn; [done|].
  destruct (p c); [|done]. destruct (span p s) as [w rest]. cbn in *. now f_equal.
Qed.

Lemma span_length (p : char → bool) (s : str) : length (span p s).2 ≤ length s.
Proof.
  rewrite (span_app p s) at 2. rewrite length_app. lia.
Qed.

Lemma rmatch_cat `{Runtime} {A} (ic : bool) (r1 r2 : re) (st : mstate)
    (k : mstate → option A) :
  rmatch ic (RCat r1 r2) st k = rmatch ic r1 st (λ st', rmatch ic r2 st' k).
Proof. reflexivity. Qed.

Lemma rmatch_set `{Runtime} {A} (ic neg : bool) (items : list citem) (st : mstate)
    (k : mstate → option A) :
  rmatch ic (RSet neg items) st k
  = match m_rest st with
    | x :: s =>
        if xorb neg (existsb (λ i, citem_ok i x) items)
        then k (MState (Some x) s (m_cap st)) else None
    | [] => None
    end.
Proof. reflexivity. Qed.

(** The match of [\w+] at a position: the run of word characters that starts
    there, if there is one. *)
Lemma match_at_words `{Runtime} (prev : option char) (s : str) (i : nat) :
  match_at false WORDS_RE prev s i
  = match s with
    | x :: s1 =>
        if isword x
        then Some (MatchObj i (x :: (span isword s1).1) None
                     (MState (if last (span isword s1).1 is Some d then Some d else Some x)
                        (span isword s1).2 None))
        else None
    | [] => None
    end.
Proof.
  unfold match_at, WORDS_RE, RPlus, RWord. rewrite rmatch_cat, rmatch_set.
  cbn [m_rest]. destruct s as [|x s1]; [done|].
  cbn [existsb citem_ok xorb]. rewrite orb_false_r.
  destruct (isword x); [|done].
  rewrite rmatch_star_set by (intros st; eexists; reflexivity).
  cbn [m_rest advance m_prev m_cap].
  rewrite (span_ext _ isword s1) by (intros y; cbn; now rewrite orb_false_r).
  f_equal. f_equal.
  rewrite (span_app isword s1) at 1 3.
  destruct (span isword s1) as [w rest]. cbn [fst snd length].
  rewrite length_app.
  replace (S (length w + length rest) - length rest) with (S (length w)) by lia.
  cbn [take]. f_equal. apply take_app_length.
Qed.

(** [re.search(r'\w+', ...)]: skip the characters that are not word
    characters, then take the run that follows. *)
Lemma search_words `{Runtime} (s : str) :
  ∀ (prev : option char) (i : nat),
    search_from false WORDS_RE prev s i
    = match (span (λ x, negb (isword x)) s).2 with
      | x :: s1 =>
          Some (MatchObj (i + length (span (λ x, negb (isword x)) s).1)
                  (x :: (span isword s1).1) None
                  (MState (if last (span isword s1).1 is Some d then Some d else Some x)
                     (span isword s1).2 None))
      | [] => None
      end.
Proof.
  induction s as [|c s IH]; intros prev i; cbn [search_from].
  - now rewrite match_at_words.
  - rewrite match_at_words. cbn [span]. destruct (isword c) eqn:Ec; cbn [negb orelse].
    + cbn [fst snd length]. now rewrite Nat.add_0_r.
    + rewrite IH. destruct (span _ s) as [skip r]. cbn [fst snd length].
      destruct r; [done|]. now rewrite Nat.add_succ_r.
Qed.

(** The words of a text, run by run. *)
Lemma tokens_from_span `{Runtime} (s : str) :
  ∀ cur,
    tokens_from cur s
    = (if cur ++ (span isword s).1 is [] then [] else [cur ++ (span isword s).1])
      ++ tokens_from [] (span isword s).2.
Proof.
  induction s as [|c s IH]; intros cur; cbn [tokens_from span].
  - cbn [fst snd tokens_from]. rewrite !app_nil_r. now destruct cur.
  - destruct (isword c) eqn:Ec.
    + rewrite IH. destruct (span isword s) as [w rest]. cbn [fst snd].
      now rewrite <- app_assoc.
    + cbn [fst snd tokens_from]. rewrite Ec, app_nil_r. cbn [app].
      now destruct cur.
Qed.

Lemma tokens_from_skip `{Runtime} (s : str) :
  tokens_from [] s = tokens_from [] (span (λ x, negb (isword x)) s).2.
Proof.
  induction s as [|c s IH]; cbn [span]; [done|].
  destruct (isword c) eqn:Ec; cbn [negb snd]; [done|].
  destruct (span _ s) as [skip r] eqn:Es. cbn [snd] in IH |- *.
  cbn [tokens_from]. now rewrite Ec.
Qed.

Lemma findall_words_fuel `{Runtime} (fuel : nat) :
  ∀ (s : str) (prev : option char),
    length s < fuel → findall_from fuel false WORDS_RE prev s = tokens s.
Proof.
  unfold tokens. induction fuel as [|fuel IH]; intros s prev Hlen; [lia|].
  cbn [findall_from]. rewrite search_words, (tokens_from_skip s).
  pose proof (span_length (λ x, negb (isword x)) s) as Hskip.
  destruct (span (λ x, negb (isword x)) s).2 as [|x s1] eqn:Er; [done|].
  cbn [mo_text mo_group1 mo_end m_rest m_prev default] in *.
  cbn [length] in Hskip.
  rewrite IH by (pose proof (span_length isword s1); lia).
  assert (Hx : isword x = true).
  { clear -Er. revert Er. induction s as [|c s IHs]; cbn [span]; [done|].
    destruct (isword c) eqn:Ec; cbn [negb].
    - cbn [snd]. now intros [= <- _].
    - destruct (span _ s) as [skip r]. cbn [snd] in *. exact IHs. }
  cbn [tokens_from]. rewrite Hx, (tokens_from_span s1 [x]). cbn [app].
  reflexivity.
Qed.

Lemma findall_words `{Runtime} (s : str) :
  re_findall false WORDS_RE s = tokens s.
Proof. unfold re_findall. apply findall_words_fuel. lia. Qed.

(** ** Texts without a ticker *)

(** Membership in the constant tables, decided on the list the table is
    built from. *)
Lemma mem_elem_of (x : str) (xs : list str) : mem x xs = true ↔ x ∈ xs.
Proof.
  unfold mem, str_eqb. rewrite existsb_exists. split.
  - intros (y & Hy & E). apply bool_decide_eq_true in E as ->. now apply list_elem_of_In.
  - intros Hx. exists x. split; [now apply list_elem_of_In|]. now apply bool_decide_eq_true.
Qed.

Lemma mem_table (x : str) (xs : list str) :
  mem x xs = true → x ∈ (list_to_set xs : gset str).
Proof. intros Hx. now apply elem_of_list_to_set, mem_elem_of. Qed.

Lemma mem_table_not (x : str) (xs : list str) (more : gset str) :
  mem x xs = false → x ∉ more → x ∉ (list_to_set xs : gset str) ∪ more.
Proof.
  intros Hx Hm. apply not_elem_of_union. split; [|done].
  rewrite elem_of_list_to_set, <- mem_elem_of. now rewrite Hx.
Qed.

Ltac in_table :=
  first
    [ left; apply mem_table; vm_compute; reflexivity
    | right; left; apply mem_table; vm_compute; reflexivity
    | right; right; apply mem_table_not;
      [vm_compute; reflexivity | apply not_elem_of_empty] ].

(** Neither loop over [words] returns a word when every word is ignored,
    dollar-only or unknown. *)
Lemma scan_words_none `{Runtime} (v : variant) (ambiguous : bool)
    (all_valid : gset str) (words : list str) :
  Forall (λ w, w ∈ IGNORE_WORDS v ∨ w ∈ DOLLAR_ONLY_TICKERS v ∨ w ∉ all_valid) words →
  scan_words v ambiguous all_valid words = None.
Proof.
  induction 1 as [|w words Hw _ IH]; cbn [scan_words]; [done|].
  destruct Hw as [Hw | [Hw | Hw]].
  - now rewrite (bool_decide_eq_true_2 _ Hw).
  - rewrite (bool_decide_eq_true_2 _ Hw). now rewrite orb_true_r.
  - rewrite (bool_decide_eq_false_2 _ Hw). cbn [andb]. now destruct (_ || _).
Qed.

(** A text with no [$] token, no company name and no known word has no
    ticker, and the session-discovered set is left as it was. *)
Lemma extract_ticker_none `{Runtime} (v : variant) (text : str)
    (session_discovered : gset str) :
  dollar_token (str_upper text) = None →
  company_lookup COMPANY_NAMES (str_upper text) = None →
  Forall (λ w, w ∈ IGNORE_WORDS v ∨ w ∈ DOLLAR_ONLY_TICKERS v ∨
               w ∉ KNOWN_TICKERS v ∪ session_discovered)
         (re_findall false TICKER_WORD_RE (str_upper text)) →
  extract_ticker v text session_discovered = (None, session_discovered).
Proof.
  intros Hd Hc Hw. unfold extract_ticker, extract_plain. rewrite Hd, Hc.
  rewrite !(scan_words_none v _ _ _ Hw). now destruct (has_stock_context v text).
Qed.

(** What [process_message] returns for a message that is scored and has no
    ticker. *)
Lemma process_message_no_topic `{Runtime} (v : variant) (conv : str → str)
    (now stamp : Q) (chat_msg : chat_item) (state : video_state_t) (sd : gset str) :
  is_privileged v (author chat_msg) = false →
  extract_ticker v (conv (message chat_msg)) (session_discovered state) = (None, sd) →
  let text := conv (message chat_msg) in
  let who := name (author chat_msg) in
  let verdict := detect_spam v now text who (user_message_history state) in
  process_message v conv now stamp chat_msg state
  = (Processed text who stamp None neutral (is_question text) None verdict.1,
     VideoState (pulse_buffer state) verdict.2 sd,
     [CallDetectSpam text who; CallExtractTicker text; CallIsQuestion text]).
Proof.
  intros Hp He text who verdict. unfold process_message. rewrite Hp, He.
  subst verdict text who. now destruct (detect_spam v _ _ _ _).
Qed.
(** C1. The confidence [detect_spam] returns is the largest confidence of the
    rules that triggered, raised by 0.2 and capped at 0.75 exactly when at
    least two reasons fired and that largest confidence is below 0.7; the
    reasons are those of the triggered rules, each once; and [is_spam] holds
    exactly when the returned confidence is at least 0.7. *)
Theorem C1_confidence_is_boosted_maximum `{Runtime} (v : variant) (now : Q)
    (text author : str) (hist : history) :
  let r := (detect_spam v now text author hist).1 in
  let fired := triggered v now text author hist in
  let m := max_confidence (map rule_confidence fired) in
  reasons r = map rule_code fired ∧
  NoDup (reasons r) ∧
  (2 ≤ length fired ∧ (m < 0.7)%Q → (confidence r == Qmin 0.75 (m + 0.2))%Q) ∧
  (¬ (2 ≤ length fired ∧ (m < 0.7)%Q) → (confidence r == m)%Q) ∧
  (is_spam r = true ↔ (0.7 <= confidence r)%Q).
Proof.
  intros r fired m. subst r. rewrite detect_spam_verdict, fire_fold.
  cbn [fst snd app is_spam reasons confidence].
  fold (triggered v now text author hist). fold fired. rewrite length_map.
  fold (max_confidence (map rule_confidence fired)). fold m.
  split; [reflexivity|]. split.
  { apply filter_NoDup_map. cbn [rules map rule_code].
    repeat (apply NoDup_cons_2;
            [rewrite ?not_elem_of_cons; repeat split; [discriminate .. | apply not_elem_of_nil] |]).
    apply NoDup_nil_2. }
  assert (Hm : In m (0%Q :: map rule_confidence
                       (rules v now text author (clean_history author now hist)))).
  { destruct (fold_Qmax_In (map rule_confidence fired) 0%Q) as [E | Hin].
    - left. exact E.
    - right. eapply filter_In_map, Hin. }
  clearbody m. unfold rules in Hm. cbn [map rule_confidence In] in Hm.
  destruct (bool_decide_reflect (2 ≤ length fired)) as [Hn | Hn];
    destruct v; cbn [RAPID_FIRE_CONFIDENCE] in Hm;
    repeat (destruct Hm as [<- | Hm]); try destruct Hm;
    (split; [intros [Hn' Hlt]; first [Qclosed | Qabsurd Hlt | lia] |]);
    (split; [intros Hnot;
             first [Qclosed | exfalso; apply Hnot; split; [assumption | Qclosed]] |]);
    split; Qclosed.
Qed.


(** ** Rapid fire *)

(** C3, as stated, fails: three distinct messages of one author within three
    seconds, on an empty history; scoring the third gives no reason at all,
    in either backend.  The rule counts the entries recorded before the
    message being scored. *)
Lemma C3_third_message_is_not_rapid_fire :
  let msgs := [(0%Q, py "first"); (1%Q, py "second")] in
  let third (v : variant) :=
    let h := (score_stream (H:=basic_runtime) v alice msgs ∅).2 in
    (detect_spam (H:=basic_runtime) v 2 (py "third") alice h).1 in
  reasons (third Local) = [] ∧ reasons (third Production) = [].
Proof. split; vm_compute; reflexivity. Qed.

(** C3, amended.  A message scored when the author's previous
    [RAPID_FIRE_COUNT] messages (3 in chat_viz_backend.py, 5 in
    chat_viz_backend_v2.py) were all scored within the 10 seconds before it
    triggers [rapid_fire], with rule confidence [RAPID_FIRE_CONFIDENCE] (0.8,
    respectively 0.6): the 4th, respectively the 6th, message of a burst. *)
Theorem C3_rapid_fire_after_count `{Runtime} (v : variant) (author : str)
    (hist : history) (msgs : list (Q * str)) (t : Q) (text : str) :
  length msgs = RAPID_FIRE_COUNT v →
  Forall (λ m, (m.1 <= t)%Q ∧ (t - m.1 < 10)%Q) msgs →
  let h := (score_stream v author msgs hist).2 in
  let r := (detect_spam v t text author h).1 in
  In (Rule rapid_fire (RAPID_FIRE_CONFIDENCE v) true) (triggered v t text author h) ∧
  rapid_fire ∈ reasons r ∧
  (RAPID_FIRE_CONFIDENCE v <= confidence r)%Q.
Proof.
  intros Hlen Hrecent h r.
  assert (Hcount : RAPID_FIRE_COUNT v ≤ MAX_HISTORY_PER_USER)
    by (destruct v; cbn; unfold MAX_HISTORY_PER_USER; lia).
  destruct (score_stream_suffix v author t msgs hist (default [] (hist !! author)) [])
    as [pre Hh].
  { now rewrite app_nil_r. }
  { constructor. }
  { exact Hrecent. }
  { cbn [length]. lia. }
  fold h in Hh. cbn [app] in Hh.
  assert (Hhit : rapid_fire_hit v t author (clean_history author t h) = true).
  { unfold rapid_fire_hit. rewrite clean_history_lookup.
    destruct (h !! author) as [l|] eqn:El; simpl in Hh.
    - cbn [fmap option_fmap option_map]. apply bool_decide_eq_true.
      subst l.
      destruct (kept_recent t t pre (map entry_of msgs)) as [pre' Hk].
      + apply Qle_refl.
      + apply Forall_fmap. exact Hrecent.
      + rewrite length_map. lia.
      + rewrite Hk, map_app. rewrite <- Hlen.
        etrans; [|apply filter_length_app_ge].
        * now rewrite !length_map.
        * intros ts Hts. apply in_map_iff in Hts as (e & <- & He).
          apply in_map_iff in He as (m & <- & Hm).
          rewrite Forall_forall in Hrecent.
          destruct (Hrecent m (proj2 (list_elem_of_In _ _) Hm)) as [_ H10].
          apply Qltb_lt. exact H10.
    - symmetry in Hh. apply app_eq_nil in Hh as [_ Hh].
      apply map_eq_nil in Hh. subst msgs. cbn in Hlen. destruct v; discriminate. }
  assert (Hin : In (Rule rapid_fire (RAPID_FIRE_CONFIDENCE v) true)
                  (triggered v t text author h)).
  { unfold triggered. apply filter_In. split; [|reflexivity].
    unfold rules. rewrite Hhit. right; now left. }
  split; [exact Hin|]. subst r. rewrite verdict_shape. cbn [reasons confidence].
  split.
  - apply list_elem_of_In, in_map_iff. eexists. split; [|exact Hin]. reflexivity.
  - rewrite (round2_boost v) by apply max_confidence_candidates.
    eapply Qle_trans; [|apply boost_ge].
    apply (fold_Qmax_ub _ 0%Q). apply in_map_iff. eexists. split; [|exact Hin].
    reflexivity.
Qed.

Lemma C3_rapid_fire_after_count_witness :
  let msgs := [(0%Q, py "first"); (1%Q, py "second"); (2%Q, py "third")] in
  let h := (score_stream (H:=basic_runtime) Local alice msgs ∅).2 in
  let r := (detect_spam (H:=basic_runtime) Local 3 (py "fourth") alice h).1 in
  In (Rule rapid_fire (RAPID_FIRE_CONFIDENCE Local) true)
     (triggered (H:=basic_runtime) Local 3 (py "fourth") alice h) ∧
  rapid_fire ∈ reasons r ∧
  (RAPID_FIRE_CONFIDENCE Local <= confidence r)%Q.
Proof.
  apply (C3_rapid_fire_after_count (H:=basic_runtime) Local alice ∅
           [(0%Q, py "first"); (1%Q, py "second"); (2%Q, py "third")] 3 (py "fourth")).
  - reflexivity.
  - repeat constructor; cbn; lra.
Defined.

(** ** Size and window of the history *)

Lemma lastn_length {A} (n : nat) (l : list A) : length (lastn n l) ≤ n.
Proof. unfold lastn. rewrite length_drop. lia. Qed.

Lemma lastn_In {A} (n : nat) (l : list A) (x : A) : In x (lastn n l) → In x l.
Proof.
  unfold lastn. intros Hin. apply list_elem_of_In.
  apply list_elem_of_In in Hin. eapply elem_of_suffix; [exact Hin | apply suffix_drop].
Qed.

(** What does hold after every call: at most [MAX_HISTORY_PER_USER + 1]
    entries, each less than [HISTORY_WINDOW] seconds older than the call. *)
Lemma history_after_call `{Runtime} (v : variant) (t : Q) (text author : str)
    (h : history) :
  let entries := default [] ((detect_spam v t text author h).2 !! author) in
  length entries ≤ S MAX_HISTORY_PER_USER ∧
  Forall (λ e, (t - e.1 < HISTORY_WINDOW)%Q) entries.
Proof.
  intros entries. subst entries. rewrite detect_spam_history. simpl.
  split.
  - rewrite length_app. cbn [length]. pose proof (lastn_length MAX_HISTORY_PER_USER
      (List.filter (λ e, Qltb (t - e.1) HISTORY_WINDOW) (default [] (h !! author)))).
    unfold kept. lia.
  - apply Forall_app. split.
    + apply Forall_forall. intros e He. apply list_elem_of_In in He.
      apply lastn_In, filter_In in He as [_ He]. now apply Qltb_lt.
    + apply Forall_singleton. cbn [fst]. unfold HISTORY_WINDOW. lra.
Qed.

(** C9, on the code: 21 messages of one author, one per second.  After the
    21st call the author's history holds 21 entries, one more than
    [MAX_HISTORY_PER_USER]: [clean_history] caps the list before the new entry
    is appended. *)
Theorem C9_history_holds_21_entries :
  length (default [] ((score_stream (H:=basic_runtime) Local alice (burst 21) ∅).2 !! alice)) = 21 ∧
  length (default [] ((score_stream (H:=basic_runtime) Production alice (burst 21) ∅).2 !! alice)) = 21.
Proof. split; vm_compute; reflexivity. Qed.

(** ** Message processing *)

Ltac no_call Hin :=
  repeat first
    [ apply elem_of_app in Hin as [Hin | Hin]
    | apply elem_of_cons in Hin as [Hin | Hin]; [discriminate Hin|]
    | apply elem_of_nil in Hin; destruct Hin ].

(** C2. A message for which no topic was extracted has sentiment [neutral],
    and [analyze_sentiment] was not called for it. *)
Theorem C2_no_topic_is_neutral `{Runtime} (v : variant)
    (convert_emoji_codes : str → str) (now stamp : Q) (chat_msg : chat_item)
    (state : video_state_t) :
  let out := process_message v convert_emoji_codes now stamp chat_msg state in
  let result := out.1.1 in
  let calls := out.2 in
  p_topic result = None →
  p_sentiment result = neutral ∧ ∀ text, CallAnalyzeSentiment text ∉ calls.
Proof.
  unfold process_message.
  destruct (is_privileged v (author chat_msg)).
  - destruct (extract_ticker v _ _) as [[[|c topic]|] discovered]; cbn [p_topic fst snd];
      intros Htopic; try discriminate Htopic; cbn [p_sentiment].
    split; [reflexivity|]. intros text Hin. no_call Hin.
  - destruct (detect_spam v _ _ _ _) as [r h].
    destruct (extract_ticker v _ _) as [[[|c topic]|] discovered]; cbn [p_topic fst snd];
      intros Htopic; try discriminate Htopic; cbn [p_sentiment].
    split; [reflexivity|]. intros text Hin. no_call Hin.
Qed.

(** A viewer's message full of bullish words, with no ticker in it, on a
    fresh state. *)
Lemma C2_no_topic_is_neutral_witness :
  let out :=
    process_message (H:=basic_runtime) Production id 0 0 bullish_chatter fresh_state in
  let result := out.1.1 in
  let calls := out.2 in
  p_sentiment result = neutral ∧ ∀ text, CallAnalyzeSentiment text ∉ calls.
Proof.
  intros out result calls.
  apply (C2_no_topic_is_neutral (H:=basic_runtime) Production id 0 0
           bullish_chatter fresh_state).
  vm_compute. reflexivity.
Defined.

(** C4, as stated, fails on chat_viz_backend.py, whose [process_message] has
    no privilege test: the owner's message is scored, found to be spam, and
    recorded in the owner's history. *)
Lemma C4_local_backend_scores_the_owner :
  let out := process_message (H:=basic_runtime) Local id 0 0 owner_promo fresh_state in
  let result := out.1.1 in
  let state := out.1.2 in
  let calls := out.2 in
  is_spam (p_spam result) = true ∧
  reasons (p_spam result) = [promo_link] ∧
  length (default [] (user_message_history state !! py "host")) = 1 ∧
  calls = [CallDetectSpam (message owner_promo) (py "host");
           CallExtractTicker (message owner_promo);
           CallIsQuestion (message owner_promo)].
Proof.
  rewrite (process_message_no_topic (H:=basic_runtime) Local id 0 0 owner_promo
             fresh_state ∅).
  - vm_compute. repeat split; reflexivity.
  - reflexivity.
  - apply extract_ticker_none.
    + vm_compute. reflexivity.
    + vm_compute. reflexivity.
    + replace (re_findall _ _ _)
        with [py "JOIN"; py "MY"; py "GROUP"; py "AT"; py "GG"; py "ABC"]
        by (vm_compute; reflexivity).
      unfold IGNORE_WORDS, DOLLAR_ONLY_TICKERS, KNOWN_TICKERS, IGNORE_WORDS_local,
        DOLLAR_ONLY_TICKERS_local, KNOWN_TICKERS_local.
      repeat (apply Forall_cons_2; [in_table|]). apply Forall_nil_2.
Qed.

(** C4, amended to the backend that has the test.  In
    chat_viz_backend_v2.py, for a message whose author is the channel owner
    or a moderator, the verdict is not-spam with confidence 0 and no reasons,
    [detect_spam] is not called, and the history is left as it was. *)
Theorem C4_privileged_bypass `{Runtime} (convert_emoji_codes : str → str)
    (now stamp : Q) (chat_msg : chat_item) (state : video_state_t) :
  getattr (isChatOwner (author chat_msg)) false
  || getattr (isChatModerator (author chat_msg)) false = true →
  let out := process_message Production convert_emoji_codes now stamp chat_msg state in
  let result := out.1.1 in
  let state' := out.1.2 in
  let calls := out.2 in
  p_spam result = SpamResult false None [] 0%Q ∧
  user_message_history state' = user_message_history state ∧
  ∀ text who, CallDetectSpam text who ∉ calls.
Proof.
  intros Hpriv. unfold process_message, is_privileged. rewrite Hpriv.
  destruct (extract_ticker Production _ _) as [[[|c topic]|] discovered];
    cbn [p_spam user_message_history fst snd];
    (split; [reflexivity|]); (split; [reflexivity|]);
    intros text who Hin; no_call Hin.
Qed.

Lemma C4_privileged_bypass_witness :
  let out :=
    process_message (H:=basic_runtime) Production id 0 0 owner_promo fresh_state in
  let result := out.1.1 in
  let state' := out.1.2 in
  let calls := out.2 in
  p_spam result = SpamResult false None [] 0%Q ∧
  user_message_history state' = user_message_history fresh_state ∧
  ∀ text who, CallDetectSpam text who ∉ calls.
Proof.
  apply (C4_privileged_bypass (H:=basic_runtime) id 0 0 owner_promo fresh_state).
  reflexivity.
Defined.

(** ** Ticker extraction *)

Lemma company_lookup_value `{Runtime} (names : list (str * str)) (s t : str) :
  company_lookup names s = Some t → t ∈ map snd names.
Proof.
  induction names as [|[name ticker] names IH]; cbn; [done|].
  destruct (re_search false _ s).
  - intros [= <-]. apply elem_of_cons. now left.
  - intros Hl. apply elem_of_cons. right. now apply IH.
Qed.

Lemma company_tickers_not_dollar_only (v : variant) (t : str) :
  (t ∈ map snd COMPANY_NAMES) → (t ∉ DOLLAR_ONLY_TICKERS v).
Proof.
  intros Hin.
  assert (Hall : Forall (λ t, t ∉ DOLLAR_ONLY_TICKERS v) (map snd COMPANY_NAMES)).
  { apply (bool_decide_unpack _). destruct v; vm_compute; exact I. }
  rewrite Forall_forall in Hall. now apply Hall.
Qed.

(** Neither loop over [words] returns an ignored or a dollar-only word. *)
Lemma scan_words_skips `{Runtime} (v : variant) (ambiguous : bool)
    (all_valid : gset str) (words : list str) (w : str) :
  scan_words v ambiguous all_valid words = Some w →
  (w ∉ IGNORE_WORDS v) ∧ (w ∉ DOLLAR_ONLY_TICKERS v) ∧ (w ∈ all_valid) ∧ (w ∈ words).
Proof.
  induction words as [|word words IH]; cbn [scan_words]; [done|].
  destruct (bool_decide_reflect (word ∈ IGNORE_WORDS v)) as [Hi | Hi]; cbn [orb].
  { intros Hs. destruct (IH Hs) as (? & ? & ? & ?). repeat split; try done.
    apply elem_of_cons. now right. }
  destruct (bool_decide_reflect (word ∈ DOLLAR_ONLY_TICKERS v)) as [Hd | Hd].
  { intros Hs. destruct (IH Hs) as (? & ? & ? & ?). repeat split; try done.
    apply elem_of_cons. now right. }
  destruct (bool_decide_reflect (word ∈ all_valid)) as [Hv | Hv]; cbn [andb].
  - destruct (eqb ambiguous _).
    + intros [= <-]. repeat split; try done. apply elem_of_cons. now left.
    + intros Hs. destruct (IH Hs) as (? & ? & ? & ?). repeat split; try done.
      apply elem_of_cons. now right.
  - intros Hs. destruct (IH Hs) as (? & ? & ? & ?). repeat split; try done.
    apply elem_of_cons. now right.
Qed.

Lemma extract_plain_not_dollar_only `{Runtime} (v : variant) (text : str)
    (session_discovered : gset str) (w : str) :
  w ∈ DOLLAR_ONLY_TICKERS v → extract_plain v text session_discovered ≠ Some w.
Proof.
  intros Hw Hp. unfold extract_plain in Hp.
  destruct (company_lookup COMPANY_NAMES (str_upper text)) as [t|] eqn:Ec.
  - injection Hp as ->. apply company_lookup_value in Ec.
    now apply (company_tickers_not_dollar_only v w) in Ec.
  - destruct (scan_words v false _ _) as [t|] eqn:E1.
    + injection Hp as ->. apply scan_words_skips in E1 as (_ & Hd & _). done.
    + destruct (has_stock_context v text); [|discriminate].
      apply scan_words_skips in Hp as (_ & Hd & _). done.
Qed.

(** C8. A dollar-only word is never the result of the plain-text rules
    (company names, known tickers, ambiguous tickers in context), whatever
    the text and the session-discovered set; when [extract_ticker] returns
    it, it is the token of rule 1, so the upper-cased text holds it with a
    [$] before it. *)
Theorem C8_dollar_only_needs_dollar `{Runtime} (v : variant) (text : str)
    (session_discovered : gset str) (w : str) :
  w ∈ DOLLAR_ONLY_TICKERS v →
  extract_plain v text session_discovered ≠ Some w ∧
  ((extract_ticker v text session_discovered).1 = Some w →
   dollar_token (str_upper text) = Some w ∧
   ∃ pre post, str_upper text = pre ++ 36%N :: w ++ post).
Proof.
  intros Hw. split; [now apply extract_plain_not_dollar_only|].
  unfold extract_ticker.
  destruct (dollar_token (str_upper text)) as [t|] eqn:Ed.
  - destruct (bool_decide (t ∈ IGNORE_WORDS v)); cbn [fst].
    + intros Hp. now apply extract_plain_not_dollar_only in Hp.
    + intros [= ->]. split; [done|].
      apply dollar_token_shape in Ed as (pre & post & E & _). now exists pre, post.
  - cbn [fst]. intros Hp. now apply extract_plain_not_dollar_only in Hp.
Qed.

(** [GO] is dollar-only; here it is in the session-discovered set and the
    text has stock-context words, and it is still not extracted. *)
Lemma C8_dollar_only_needs_dollar_witness :
  let text := py "go buy the stock, GO now" in
  extract_plain (H:=basic_runtime) Production text {[py "GO"]} ≠ Some (py "GO") ∧
  ((extract_ticker (H:=basic_runtime) Production text {[py "GO"]}).1 = Some (py "GO") →
   dollar_token (H:=basic_runtime) (str_upper (Runtime:=basic_runtime) text)
   = Some (py "GO") ∧
   ∃ pre post,
     str_upper (Runtime:=basic_runtime) text = pre ++ 36%N :: py "GO" ++ post).
Proof.
  apply (C8_dollar_only_needs_dollar (H:=basic_runtime) Production
           (py "go buy the stock, GO now") {[py "GO"]} (py "GO")).
  apply (bool_decide_unpack _). vm_compute. exact I.
Defined.

(** The outcome of a match does not depend on what the continuation wraps
    around its result. *)
Lemma rmatch_fmap `{Runtime} {A B} (f : A → B) (ic : bool) (r : re) :
  ∀ (st : mstate) (k : mstate → option A) (k' : mstate → option B),
    (∀ st', k' st' = f <$> k st') →
    rmatch ic r st k' = f <$> rmatch ic r st k.
Proof.
  induction r as [c| |neg items| | | | |r1 IH1 r2 IH2|r1 IH1 r2 IH2|r1 IH1|r1 IH1|];
    intros st k k' Hk; cbn [rmatch].
  - destruct (m_rest st) as [|x s]; [done|]. destruct (chr_eq ic c x); [apply Hk | done].
  - destruct (m_rest st) as [|x s]; [done|]. destruct (x =? 10)%N; [done | apply Hk].
  - destruct (m_rest st) as [|x s]; [done|]. destruct (xorb neg _); [apply Hk | done].
  - destruct (m_prev st); [done | apply Hk].
  - destruct (m_rest st) as [|x [|y s]]; [apply Hk | | done].
    destruct (x =? 10)%N; [apply Hk | done].
  - destruct (xorb _ _); [apply Hk | done].
  - apply Hk.
  - apply IH1. intros st'. now apply IH2.
  - rewrite (IH1 st k k' Hk), (IH2 st k k' Hk).
    now destruct (rmatch ic r1 st k).
  - generalize (length (m_rest st)). intros fuel. revert st.
    induction fuel as [|fuel IHf]; intros st; [apply Hk|].
    match goal with
    | |- orelse (rmatch _ _ _ ?kb) _ = f <$> orelse (rmatch _ _ _ ?ka) _ =>
        rewrite (IH1 st ka kb)
    end.
    + rewrite Hk. now destruct (rmatch ic r1 st _).
    + intros st'. cbn beta. destruct (_ <? _)%nat; [apply IHf | done].
  - apply IH1. intros st'. apply Hk.
  - destruct (m_cap st) as [g|]; [|done].
    destruct (is_prefix g (m_rest st)); [apply Hk | done].
Qed.





(** ** Sentiment *)

(** C7, as stated, fails: a text with two of the positive glyphs and one of
    the negative glyphs.  Counting 2 for each glyph gives 4 against 2,
    bullish; the code adds 2 once on each side and finds a tie. *)
Lemma C7_two_glyphs_count_once :
  (analyze_sentiment (H:=basic_runtime) Local two_up_one_down = neutral ∧
   sentiment_per_glyph (H:=basic_runtime) Local two_up_one_down = bullish) ∧
  (analyze_sentiment (H:=basic_runtime) Production two_up_one_down = neutral ∧
   sentiment_per_glyph (H:=basic_runtime) Production two_up_one_down = bullish).
Proof. repeat split; vm_compute; reflexivity. Qed.

(** C7, amended.  [analyze_sentiment] lower-cases the text, takes its words,
    counts the distinct words that are in the bullish and in the bearish
    lexicon, adds 2 to the bullish count when at least one positive glyph
    occurs in the text and 2 to the bearish count when at least one negative
    glyph occurs, and answers bullish or bearish only for a strictly greater
    count, neutral for a tie. *)
Theorem C7_sentiment_counts `{Runtime} (v : variant) (text : str) :
  let bullish_count :=
    lexicon_count (BULLISH_WORDS v) text + glyph_bonus POSITIVE_GLYPHS text in
  let bearish_count :=
    lexicon_count (BEARISH_WORDS v) text + glyph_bonus NEGATIVE_GLYPHS text in
  analyze_sentiment v text = sentiment_any_glyph v text ∧
  (analyze_sentiment v text = bullish ↔ bearish_count < bullish_count) ∧
  (analyze_sentiment v text = bearish ↔ bullish_count < bearish_count) ∧
  (analyze_sentiment v text = neutral ↔ bullish_count = bearish_count).
Proof.
  intros b r.
  assert (E : analyze_sentiment v text = sentiment_of_counts b r).
  { unfold analyze_sentiment, b, r, lexicon_count, glyph_bonus.
    rewrite findall_words.
    destruct (any_in POSITIVE_GLYPHS text), (any_in NEGATIVE_GLYPHS text);
      rewrite ?Nat.add_0_r; reflexivity. }
  split; [exact E|]. rewrite E. unfold sentiment_of_counts.
  destruct (Nat.ltb_spec r b), (Nat.ltb_spec b r);
    repeat split; intros; try discriminate; try lia; reflexivity.
Qed.

(** ** Vibe batching *)










(** The vibe of a message that has just been processed is absent. *)
Lemma process_message_no_vibe `{Runtime} (v : variant) conv (now stamp : Q)
    (c : chat_item) (state : video_state_t) :
  p_vibe (process_message v conv now stamp c state).1.1 = None.
Proof.
  unfold process_message.
  destruct (is_privileged v (author c)).
  - destruct (extract_ticker v _ _) as [[[|x topic]|] discovered]; reflexivity.
  - destruct (detect_spam v _ _ _ _) as [r h].
    destruct (extract_ticker v _ _) as [[[|x topic]|] discovered]; reflexivity.
Qed.

(** * Further properties *)

(** ** The verdict of [detect_spam] *)

Lemma rule_codes_NoDup `{Runtime} (v : variant) (now : Q) (text author : str)
    (hist : history) :
  NoDup (map rule_code (triggered v now text author hist)).
Proof.
  apply filter_NoDup_map. cbn [rules map rule_code].
  repeat (apply NoDup_cons_2;
          [rewrite ?not_elem_of_cons; repeat split; [discriminate .. | apply not_elem_of_nil] |]).
  apply NoDup_nil_2.
Qed.

(** Every rule but [repetitive_chars] has confidence at least 0.5. *)
Lemma rule_confidence_half `{Runtime} (v : variant) (now : Q) (text author : str)
    (hist : history) (r : rule) :
  In r (triggered v now text author hist) →
  rule_code r ≠ repetitive_chars → (0.5 <= rule_confidence r)%Q.
Proof.
  intros Hin Hne. apply filter_In in Hin as [Hin _]. unfold rules in Hin.
  cbn [In] in Hin.
  repeat (destruct Hin as [<- | Hin]); try destruct Hin; cbn [rule_confidence];
    try (destruct v; cbn [RAPID_FIRE_CONFIDENCE]);
    first [now destruct Hne | Qclosed].
Qed.

(** Two triggered rules: one of them is not [repetitive_chars]. *)
Lemma two_rules_one_half `{Runtime} (v : variant) (now : Q) (text author : str)
    (hist : history) :
  2 ≤ length (triggered v now text author hist) →
  ∃ r, In r (triggered v now text author hist) ∧ (0.5 <= rule_confidence r)%Q.
Proof.
  intros Hlen. pose proof (rule_codes_NoDup v now text author hist) as Hnd.
  pose proof (rule_confidence_half v now text author hist) as Hhalf.
  destruct (triggered v now text author hist) as [|a [|b fired]];
    [cbn in Hlen; lia | cbn in Hlen; lia |].
  destruct (decide (rule_code a = repetitive_chars)) as [Ea | Ea].
  - exists b. split; [right; now left|]. apply Hhalf; [right; now left|].
    intros Eb. cbn [map] in Hnd. apply NoDup_cons_1_1 in Hnd. apply Hnd.
    rewrite Ea, Eb. now left.
  - exists a. split; [now left|]. apply Hhalf; [now left | done].
Qed.

(** A triggered rule is among the reasons and bounds the confidence from
    below; a rule of confidence 0.7 or more makes the message spam. *)
Lemma triggered_rule_counts `{Runtime} (v : variant) (now : Q) (text author : str)
    (hist : history) (rl : rule) :
  In rl (triggered v now text author hist) →
  let r := (detect_spam v now text author hist).1 in
  rule_code rl ∈ reasons r ∧ (rule_confidence rl <= confidence r)%Q ∧
  ((0.7 <= rule_confidence rl)%Q → is_spam r = true).
Proof.
  intros Hin r. subst r. rewrite verdict_shape. cbn [reasons confidence is_spam].
  set (fired := triggered v now text author hist) in *.
  assert (Hub : (rule_confidence rl <= max_confidence (map rule_confidence fired))%Q).
  { apply (fold_Qmax_ub _ 0%Q), in_map_iff. now exists rl. }
  pose proof (boost_ge (length fired) (max_confidence (map rule_confidence fired))) as Hb.
  split; [|split].
  - apply list_elem_of_In, in_map_iff. now exists rl.
  - rewrite (round2_boost v) by apply max_confidence_candidates. lra.
  - intros Hc. apply Qleb_le. lra.
Qed.

(** Two triggered rules make the boosted confidence reach 0.7. *)
Lemma two_rules_reach_threshold `{Runtime} (v : variant) (now : Q)
    (text author : str) (hist : history) :
  let fired := triggered v now text author hist in
  2 ≤ length fired →
  (0.7 <= boost (length fired) (max_confidence (map rule_confidence fired)))%Q.
Proof.
  intros fired Hn.
  destruct (two_rules_one_half v now text author hist Hn) as (rl & Hrl & Hc).
  fold fired in Hrl. set (m := max_confidence (map rule_confidence fired)).
  assert (Hub : (rule_confidence rl <= m)%Q).
  { apply (fold_Qmax_ub _ 0%Q), in_map_iff. now exists rl. }
  unfold boost. destruct (bool_decide (2 ≤ length fired) && Qltb m 0.7) eqn:E.
  - apply Q.min_glb; lra.
  - rewrite (bool_decide_eq_true_2 _ Hn) in E. cbn [andb] in E.
    destruct (Qlt_le_dec m 0.7) as [Hlt | Hle]; [|done].
    apply Qltb_lt in Hlt. congruence.
Qed.

(** A message is spam exactly when it triggers two rules or more, or one rule
    whose own confidence is at least 0.7. *)
Theorem spam_iff_two_rules_or_a_strong_one `{Runtime} (v : variant) (now : Q)
    (text author : str) (hist : history) :
  let r := (detect_spam v now text author hist).1 in
  let fired := triggered v now text author hist in
  is_spam r = true ↔
  2 ≤ length fired ∨ ∃ rl, In rl fired ∧ (0.7 <= rule_confidence rl)%Q.
Proof.
  intros r fired. subst r. rewrite verdict_shape. cbn [is_spam]. fold fired.
  set (m := max_confidence (map rule_confidence fired)).
  rewrite Qleb_le. split.
  - intros Hspam. destruct (decide (2 ≤ length fired)) as [Hn | Hn]; [now left|].
    right. unfold boost in Hspam. rewrite (bool_decide_eq_false_2 _ Hn) in Hspam.
    cbn [andb] in Hspam.
    destruct (max_confidence_is_max (map rule_confidence fired)) as (_ & [E0 | Hin] & _).
    + fold m in E0. rewrite E0 in Hspam. Qabsurd Hspam.
    + fold m in Hin. apply in_map_iff in Hin as (rl & Erl & Hrl).
      exists rl. split; [done|]. now rewrite Erl.
  - intros Hor. assert (Hub : ∀ rl, In rl fired → (rule_confidence rl <= m)%Q).
    { intros rl Hrl. apply (fold_Qmax_ub _ 0%Q), in_map_iff. now exists rl. }
    destruct Hor as [Hn | (rl & Hrl & Hc)].
    + now apply two_rules_reach_threshold.
    + eapply Qle_trans; [|apply boost_ge]. specialize (Hub rl Hrl). lra.
Qed.

(** ** Repeated messages *)

(** The newest entry of an author is kept by a cleaning less than
    [HISTORY_WINDOW] seconds later. *)
Lemma kept_last (t : Q) (xs : list (Q * Z)) (e : Q * Z) :
  (t - e.1 < HISTORY_WINDOW)%Q → ∃ pre, kept t (xs ++ [e]) = pre ++ [e].
Proof.
  intros He. unfold kept. rewrite List.filter_app. cbn [List.filter].
  rewrite (proj2 (Qltb_lt _ _) He). apply lastn_app_keep.
  cbn. unfold MAX_HISTORY_PER_USER. lia.
Qed.

(** An entry less than [HISTORY_WINDOW] seconds old that fewer than
    [MAX_HISTORY_PER_USER] entries follow is kept by a cleaning, and no more
    entries follow it afterwards. *)
Lemma kept_member (t : Q) (pre after : list (Q * Z)) (e : Q * Z) :
  (t - e.1 < HISTORY_WINDOW)%Q → length after < MAX_HISTORY_PER_USER →
  ∃ pre' after',
    kept t (pre ++ e :: after) = pre' ++ e :: after' ∧ length after' ≤ length after.
Proof.
  intros He Hlen. unfold kept. rewrite List.filter_app. cbn [List.filter].
  rewrite (proj2 (Qltb_lt _ _) He).
  set (p := λ e0 : Q * Z, Qltb (t - e0.1) HISTORY_WINDOW).
  pose proof (List.filter_length_le p after) as Hle.
  destruct (lastn_app_keep MAX_HISTORY_PER_USER (List.filter p pre)
              (e :: List.filter p after)) as [pre' ->].
  - cbn [length]. lia.
  - exists pre', (List.filter p after). split; [done|lia].
Qed.

(** While the clock stays within [HISTORY_WINDOW] seconds of an entry, the
    entry stays in its author's history as long as fewer than
    [MAX_HISTORY_PER_USER] messages of that author were scored after it;
    the messages of other authors do not count. *)
Lemma score_chat_keeps `{Runtime} (v : variant) (author : str) (e : Q * Z) (t2 : Q)
    (msgs : list (Q * str * str)) :
  (t2 - e.1 < HISTORY_WINDOW)%Q →
  Forall (λ m, (m.1.1 <= t2)%Q) msgs →
  ∀ (h : history) (pre after : list (Q * Z)),
    h !! author = Some (pre ++ e :: after) →
    length after + length (sent_by author msgs) < MAX_HISTORY_PER_USER →
    ∃ pre' after',
      score_chat v msgs h !! author = Some (pre' ++ e :: after') ∧
      length after' ≤ length after + length (sent_by author msgs).
Proof.
  intros He. induction msgs as [|[[t text] a] msgs IH]; intros Hclock h pre after Hh Hlen.
  - exists pre, after. split; [exact Hh|lia].
  - apply Forall_cons in Hclock as [Ht Hclock]. cbn [fst snd] in Ht.
    unfold score_chat. cbn [fold_left fst snd]. fold (score_chat v msgs).
    unfold sent_by in Hlen |- *. cbn [List.filter snd] in Hlen |- *.
    fold (sent_by author msgs) in Hlen |- *.
    destruct (bool_decide_reflect (a = author)) as [-> | Hne].
    + cbn [length] in Hlen |- *.
      pose proof (detect_spam_history v t text author h) as Hh1.
      rewrite Hh in Hh1. cbn [default] in Hh1. unfold id in Hh1.
      destruct (kept_member t pre after e) as (pre1 & after1 & Hk & Hle1).
      { unfold HISTORY_WINDOW in *. lra. }
      { lia. }
      rewrite Hk in Hh1. rewrite <- app_assoc in Hh1. cbn [app] in Hh1.
      destruct (IH Hclock _ pre1 (after1 ++ [(t, hash (str_strip (str_lower text)))]) Hh1)
        as (pre' & after' & Hres & Hle).
      { rewrite length_app. cbn [length]. lia. }
      exists pre', after'. split; [exact Hres|].
      rewrite length_app in Hle. cbn [length] in Hle. lia.
    + assert (Hh1 : (detect_spam v t text a h).2 !! author = Some (pre ++ e :: after)).
      { rewrite detect_spam_other by congruence. exact Hh. }
      destruct (IH Hclock _ pre after Hh1 Hlen) as (pre' & after' & Hres & Hle).
      exists pre', after'. split; [exact Hres|lia].
Qed.

(** A message whose text, lower-cased and stripped, is that of a message the
    same author sent less than 60 seconds before is a [duplicate], provided
    fewer than [MAX_HISTORY_PER_USER] (20) messages of that author were
    scored in between: [duplicate] is the first reason, the confidence is at
    least 0.9 and the message is spam, whatever the history held before and
    whatever other authors sent in between.  The clock does not go back. *)
Theorem repeated_text_is_spam `{Runtime} (v : variant) (t1 t2 : Q)
    (text1 text2 author : str) (hist : history) (between : list (Q * str * str)) :
  str_strip (str_lower text2) = str_strip (str_lower text1) →
  (t2 - t1 < 60)%Q →
  Forall (λ m, (m.1.1 <= t2)%Q) between →
  length (sent_by author between) < MAX_HISTORY_PER_USER →
  let h1 := (detect_spam v t1 text1 author hist).2 in
  let h2 := score_chat v between h1 in
  let r := (detect_spam v t2 text2 author h2).1 in
  reason r = Some duplicate ∧ is_spam r = true ∧ (0.9 <= confidence r)%Q.
Proof.
  intros Etext Ht Hclock Hcount h1 h2 r.
  set (e1 := (t1, hash (str_strip (str_lower text1)))).
  assert (Hh2 : ∃ pre after, h2 !! author = Some (pre ++ e1 :: after) ∧
                             length after < MAX_HISTORY_PER_USER).
  { destruct (score_chat_keeps v author e1 t2 between Ht Hclock h1
                (kept t1 (default [] (hist !! author))) [])
      as (pre & after & Hres & Hle).
    - subst h1. apply detect_spam_history.
    - cbn [length]. lia.
    - exists pre, after. split; [exact Hres|]. cbn [length] in Hle. lia. }
  destruct Hh2 as (pre & after & Hh2 & Hafter).
  assert (Hhit : duplicate_hit text2 author (clean_history author t2 h2) = true).
  { unfold duplicate_hit. rewrite clean_history_lookup, Hh2.
    cbn [fmap option_fmap option_map].
    destruct (kept_member t2 pre after e1 Ht Hafter) as (pre' & after' & -> & _).
    apply bool_decide_eq_true. rewrite map_app, Etext. cbn [map snd].
    apply elem_of_app. right. apply elem_of_cons. now left. }
  assert (Hfired : ∃ rest, triggered v t2 text2 author h2
                           = Rule duplicate 0.9 true :: rest).
  { unfold triggered, rules. cbn [List.filter rule_hit]. rewrite Hhit. eauto. }
  destruct Hfired as [rest Hfired].
  assert (Hm : (0.9 <= max_confidence (map rule_confidence
                                        (triggered v t2 text2 author h2)))%Q).
  { apply (fold_Qmax_ub _ 0%Q). rewrite Hfired. now left. }
  subst r. rewrite verdict_shape. cbn [reason is_spam confidence].
  split; [now rewrite Hfired|].
  pose proof (boost_ge (length (triggered v t2 text2 author h2))
                (max_confidence (map rule_confidence (triggered v t2 text2 author h2))))
    as Hb.
  split.
  - apply Qleb_le. lra.
  - rewrite (round2_boost v) by apply max_confidence_candidates. lra.
Qed.

(** [alice] greets at second 0; [bob] and [alice] write other things; at
    second 30 [alice] greets again, with other capitals and blanks around the
    text. *)
Lemma repeated_text_is_spam_witness :
  let between := [(10%Q, py "gm", py "bob"); (20%Q, py "wen moon", alice)] in
  let h1 := (detect_spam (H:=basic_runtime) Production 0 (py "Hello all") alice ∅).2 in
  let h2 := score_chat (H:=basic_runtime) Production between h1 in
  let r := (detect_spam (H:=basic_runtime) Production 30 (py " hello ALL ") alice h2).1 in
  reason r = Some duplicate ∧ is_spam r = true ∧ (0.9 <= confidence r)%Q.
Proof.
  apply (repeated_text_is_spam (H:=basic_runtime) Production 0 30 (py "Hello all")
           (py " hello ALL ") alice ∅
           [(10%Q, py "gm", py "bob"); (20%Q, py "wen moon", alice)]).
  - vm_compute. reflexivity.
  - reflexivity.
  - repeat constructor; cbn; lra.
  - vm_compute. lia.
Defined.

(** The bound is the one of the code: with 19 other messages of the author
    in between the repeat is a duplicate, with 20 the first message has left
    the history and the repeat gets no reason at all. *)
Lemma repeat_after_twenty_is_forgotten :
  let h1 := (detect_spam (H:=basic_runtime) Production 0 (py "hello") alice ∅).2 in
  let r n :=
    (detect_spam (H:=basic_runtime) Production 30 (py "hello") alice
       (score_chat (H:=basic_runtime) Production (chatter n) h1)).1 in
  reasons (r 19) = [duplicate] ∧ reasons (r 20) = [].
Proof. split; vm_compute; reflexivity. Qed.

(** ** Authors are scored independently *)

(** The verdict reads the history of the author only. *)
Lemma detect_spam_verdict_local `{Runtime} (v : variant) (t : Q) (text author : str)
    (h1 h2 : history) :
  h1 !! author = h2 !! author →
  (detect_spam v t text author h1).1 = (detect_spam v t text author h2).1.
Proof.
  intros Eh. rewrite !verdict_shape.
  assert (Ef : triggered v t text author h1 = triggered v t text author h2).
  { unfold triggered, rules, duplicate_hit, rapid_fire_hit.
    now rewrite !clean_history_lookup, Eh. }
  now rewrite Ef.
Qed.

(** Two messages of different authors: the verdicts and the history that
    results are the same whichever of the two is scored first. *)
Theorem authors_are_scored_independently `{Runtime} (v : variant) (t1 t2 : Q)
    (text1 text2 author1 author2 : str) (hist : history) :
  author1 ≠ author2 →
  let first := detect_spam v t1 text1 author1 hist in
  let second := detect_spam v t2 text2 author2 first.2 in
  let first' := detect_spam v t2 text2 author2 hist in
  let second' := detect_spam v t1 text1 author1 first'.2 in
  first.1 = second'.1 ∧ second.1 = first'.1 ∧ second.2 = second'.2.
Proof.
  intros Hne first second first' second'. split; [|split].
  - subst first second'. apply detect_spam_verdict_local.
    subst first'. now rewrite detect_spam_other.
  - subst second first'. apply detect_spam_verdict_local.
    subst first. rewrite detect_spam_other; [done|]. now intros ->.
  - apply map_eq. intros who. subst second second' first first'.
    destruct (decide (who = author1)) as [-> | H1].
    + rewrite detect_spam_other by done. rewrite !detect_spam_history.
      now rewrite detect_spam_other.
    + destruct (decide (who = author2)) as [-> | H2].
      * rewrite detect_spam_history. rewrite !(detect_spam_other v t1) by done.
        now rewrite detect_spam_history.
      * now rewrite !detect_spam_other.
Qed.

Lemma authors_are_scored_independently_witness :
  let first := detect_spam (H:=basic_runtime) Local 0 (py "gm") alice ∅ in
  let second := detect_spam (H:=basic_runtime) Local 1 (py "t.me/x") (py "bob") first.2 in
  let first' := detect_spam (H:=basic_runtime) Local 1 (py "t.me/x") (py "bob") ∅ in
  let second' := detect_spam (H:=basic_runtime) Local 0 (py "gm") alice first'.2 in
  first.1 = second'.1 ∧ second.1 = first'.1 ∧ second.2 = second'.2.
Proof.
  apply (authors_are_scored_independently (H:=basic_runtime) Local 0 1 (py "gm")
           (py "t.me/x") alice (py "bob") ∅).
  intros E. discriminate E.
Defined.

(** ** The history expires *)

Lemma kept_expired (t : Q) (entries : list (Q * Z)) :
  Forall (λ e, (HISTORY_WINDOW <= t - e.1)%Q) entries → kept t entries = [].
Proof.
  intros Hall. unfold kept.
  assert (E : List.filter (λ e, Qltb (t - e.1) HISTORY_WINDOW) entries = []).
  { induction Hall as [|e entries He _ IH]; [done|]. cbn [List.filter].
    destruct (Qltb (t - e.1) HISTORY_WINDOW) eqn:Eq; [|exact IH].
    apply Qltb_lt in Eq. lra. }
  now rewrite E.
Qed.

(** An author whose recorded messages are all 60 seconds old or older is
    scored as an author without history: the two history rules cannot
    trigger. *)
Theorem silent_author_is_scored_afresh `{Runtime} (v : variant) (t : Q)
    (text author : str) (hist : history) :
  Forall (λ e, (60 <= t - e.1)%Q) (default [] (hist !! author)) →
  (detect_spam v t text author hist).1 = (detect_spam v t text author ∅).1.
Proof.
  intros Hold. rewrite !verdict_shape.
  assert (Ef : triggered v t text author hist = triggered v t text author ∅).
  { unfold triggered, rules, duplicate_hit, rapid_fire_hit.
    rewrite !clean_history_lookup, lookup_empty.
    destruct (hist !! author) as [entries|]; [|done].
    cbn [fmap option_fmap option_map default] in Hold |- *.
    rewrite (kept_expired t entries Hold). cbn [map List.filter length].
    rewrite bool_decide_eq_false_2 by apply not_elem_of_nil.
    rewrite bool_decide_eq_false_2; [done|]. destruct v; cbn; lia. }
  now rewrite Ef.
Qed.

(** [alice] repeats her message after a minute: no reason is found. *)
Lemma silent_author_is_scored_afresh_witness :
  let hist := (detect_spam (H:=basic_runtime) Local 0 (py "gm") alice ∅).2 in
  (detect_spam (H:=basic_runtime) Local 60 (py "gm") alice hist).1
  = (detect_spam (H:=basic_runtime) Local 60 (py "gm") alice ∅).1.
Proof.
  apply (silent_author_is_scored_afresh (H:=basic_runtime) Local 60 (py "gm") alice).
  vm_compute. repeat constructor. intros E. discriminate E.
Defined.

(** ** Borderline verdicts *)

(** The scraping loop asks the completion service about a message that is
    not spam and has confidence 0.5 or more.  Such a message triggered
    exactly one rule, and that rule is [excessive_caps] or
    [excessive_emojis] or, in chat_viz_backend_v2.py, [rapid_fire]. *)
Theorem borderline_verdict_has_one_weak_reason `{Runtime} (v : variant) (now : Q)
    (text author : str) (hist : history) :
  let r := (detect_spam v now text author hist).1 in
  is_spam r = false → (0.5 <= confidence r)%Q →
  ∃ c, reasons r = [c] ∧ c ∈ borderline v.
Proof.
  intros r. subst r. rewrite verdict_shape. cbn [is_spam confidence reasons].
  rewrite (round2_boost v) by apply max_confidence_candidates.
  pose proof (two_rules_reach_threshold v now text author hist) as Htwo.
  cbn zeta in Htwo.
  assert (Hrules : ∀ rl, In rl (triggered v now text author hist) →
            In rl (rules v now text author (clean_history author now hist)))
    by (intros rl Hrl; now apply filter_In in Hrl).
  destruct (triggered v now text author hist) as [|rl [|rl' fired]].
  - intros _ Hc. exfalso. revert Hc. Qclosed.
  - intros Hspam Hc. exists (rule_code rl). split; [reflexivity|].
    specialize (Hrules rl (or_introl eq_refl)). unfold rules in Hrules.
    cbn [In] in Hrules.
    repeat (destruct Hrules as [<- | Hrules]); try destruct Hrules;
      cbn [map rule_confidence rule_code length] in Hspam, Hc |- *;
      destruct v; cbn [RAPID_FIRE_CONFIDENCE borderline] in Hspam, Hc |- *;
      first [ Qabsurd Hspam | Qabsurd Hc
            | repeat first [apply elem_of_cons; left; reflexivity | apply elem_of_cons; right] ].
  - intros Hspam _. exfalso. apply not_true_iff_false in Hspam. apply Hspam.
    apply Qleb_le, Htwo. cbn [length]. lia.
Qed.

(** A message in capitals only. *)
Lemma borderline_verdict_has_one_weak_reason_witness :
  let r := (detect_spam (H:=basic_runtime) Production 0 (py "TO THE MOON WE GO") alice ∅).1 in
  ∃ c, reasons r = [c] ∧ c ∈ borderline Production.
Proof.
  apply (borderline_verdict_has_one_weak_reason (H:=basic_runtime) Production 0
           (py "TO THE MOON WE GO") alice ∅).
  - vm_compute. reflexivity.
  - vm_compute. intros E. discriminate E.
Defined.

(** ** What [extract_ticker] returns *)

Lemma mem_table_out (x : str) (xs : list str) :
  mem x xs = false → x ∉ (list_to_set xs : gset str).
Proof. intros Hx. rewrite elem_of_list_to_set, <- mem_elem_of. now rewrite Hx. Qed.

Lemma forallb_Forall {A} (p : A → bool) (l : list A) :
  forallb p l = true → Forall (λ x, p x = true) l.
Proof. intros Hall. apply Forall_forall. intros x Hx. rewrite forallb_forall in Hall.
  apply Hall. now apply list_elem_of_In. Qed.

Lemma capitalb_capital (c : char) : capitalb c = true → capital c.
Proof.
  unfold capitalb, capital. intros Hc. apply andb_true_iff in Hc as [H1 H2].
  now apply N.leb_le in H1, H2.
Qed.

(** The tickers of [COMPANY_NAMES]: none is an ignore word, each is one to
    six capital letters. *)
Lemma company_tickers_shape (v : variant) (t : str) :
  t ∈ map snd COMPANY_NAMES →
  (t ∉ IGNORE_WORDS v) ∧ (1 ≤ length t ≤ 6) ∧ Forall capital t.
Proof.
  intros Hin. split.
  - assert (Hall : Forall (λ t, t ∉ IGNORE_WORDS v) (map snd COMPANY_NAMES)).
    { destruct v; unfold IGNORE_WORDS, IGNORE_WORDS_local, IGNORE_WORDS_production;
        (eapply Forall_impl; [|intros x Hx; apply mem_table_out, negb_true_iff; exact Hx]);
        apply forallb_Forall; vm_compute; reflexivity. }
    rewrite Forall_forall in Hall. now apply Hall.
  - assert (Hall : Forall (λ t, (1 <=? length t) && (length t <=? 6)
                                && forallb capitalb t = true)
                     (map snd COMPANY_NAMES))
      by (apply forallb_Forall; vm_compute; reflexivity).
    rewrite Forall_forall in Hall. specialize (Hall t Hin).
    apply andb_true_iff in Hall as [Hlen Hcap].
    apply andb_true_iff in Hlen as [H1 H2].
    apply Nat.leb_le in H1, H2. split; [lia|].
    eapply Forall_impl; [apply forallb_Forall, Hcap|]. apply capitalb_capital.
Qed.

(** Every element of a [findall] is the match of a search in a suffix of the
    subject. *)
Lemma findall_from_elem `{Runtime} (ic : bool) (r : re) (w : str) :
  ∀ (fuel : nat) (prev : option char) (s : str),
    w ∈ findall_from fuel ic r prev s →
    ∃ prev' s' m, search_from ic r prev' s' 0 = Some m ∧
                  w = default (mo_text m) (mo_group1 m).
Proof.
  induction fuel as [|fuel IH]; intros prev s Hw; cbn [findall_from] in Hw.
  - now apply elem_of_nil in Hw.
  - destruct (search_from ic r prev s 0) as [m|] eqn:Es; [|now apply elem_of_nil in Hw].
    apply elem_of_cons in Hw as [-> | Hw]; [now exists prev, s, m|].
    destruct (mo_text m) as [|c text]; destruct (m_rest (mo_end m)) as [|d rest];
      first [now apply elem_of_nil in Hw | now apply IH in Hw].
Qed.

(** A word of rule 3 is two to five capital letters. *)
Lemma ticker_word_shape `{Runtime} (s w : str) :
  w ∈ re_findall false TICKER_WORD_RE s → (2 ≤ length w ≤ 5) ∧ Forall capital w.
Proof.
  intros Hw. apply findall_from_elem in Hw as (prev & s1 & m & Hs & ->).
  apply search_from_inv in Hs as (pre & s' & -> & Hm & _).
  unfold match_at, TICKER_WORD_RE in Hm. cbn [RSeq rmatch m_rest m_prev] in Hm.
  destruct (xorb _ _); [|discriminate].
  apply rmatch_set_rep in Hm as (w & rest & Hw & Hlen & Hall & Hm).
  cbn [m_rest advance m_prev m_cap] in Hw, Hm.
  destruct (xorb _ _); [|discriminate]. injection Hm as <-. cbn [mo_group1 m_cap default].
  subst s'. rewrite length_app, Nat.add_sub, take_app_length. unfold id.
  split; [lia|]. eapply Forall_impl; [exact Hall|]. intros c Hc. unfold in_set in Hc.
  cbn in Hc. rewrite orb_false_r in Hc. now apply capitalb_capital.
Qed.

(** The topic of a message is one to six capital letters [A-Z], and never an
    ignore word: whatever the text and whatever was discovered before. *)
Theorem topic_is_capital_letters_and_not_ignored `{Runtime} (v : variant)
    (text : str) (session_discovered : gset str) (t : str) :
  (extract_ticker v text session_discovered).1 = Some t →
  (t ∉ IGNORE_WORDS v) ∧ (1 ≤ length t ≤ 6) ∧ Forall capital t.
Proof.
  assert (Hplain : extract_plain v text session_discovered = Some t →
                   (t ∉ IGNORE_WORDS v) ∧ (1 ≤ length t ≤ 6) ∧ Forall capital t).
  { unfold extract_plain.
    destruct (company_lookup COMPANY_NAMES (str_upper text)) as [t0|] eqn:Ec.
    - intros [= ->]. apply company_lookup_value in Ec.
      now apply company_tickers_shape.
    - assert (Hscan : ∀ amb all_valid,
                scan_words v amb all_valid
                  (re_findall false TICKER_WORD_RE (str_upper text)) = Some t →
                (t ∉ IGNORE_WORDS v) ∧ (1 ≤ length t ≤ 6) ∧ Forall capital t).
      { intros amb all_valid Hs. apply scan_words_skips in Hs as (Hi & _ & _ & Hw).
        apply ticker_word_shape in Hw as [Hlen Hcap]. split; [done|]. split; [lia | done]. }
      destruct (scan_words v false _ _) as [t0|] eqn:E1.
      + intros [= ->]. now apply Hscan in E1.
      + destruct (has_stock_context v text); [|discriminate]. apply Hscan. }
  unfold extract_ticker.
  destruct (dollar_token (str_upper text)) as [t0|] eqn:Ed; [|exact Hplain].
  destruct (bool_decide_reflect (t0 ∈ IGNORE_WORDS v)) as [Hi | Hi]; [exact Hplain|].
  cbn [fst]. intros [= ->].
  apply dollar_token_shape in Ed as (pre & post & _ & Hlen & Hcap).
  split; [done|]. split; [lia | exact Hcap].
Qed.

Lemma topic_is_capital_letters_and_not_ignored_witness :
  (py "TSLA" ∉ IGNORE_WORDS Production) ∧ (1 ≤ length (py "TSLA") ≤ 6) ∧
  Forall capital (py "TSLA").
Proof.
  apply (topic_is_capital_letters_and_not_ignored (H:=basic_runtime) Production
           (py "is tesla a buy?") ∅ (py "TSLA")).
  vm_compute. reflexivity.
Defined.

(** ** Ambiguous symbols *)

(** The first loop over [words] returns no ambiguous symbol, the second
    nothing else. *)
Lemma scan_words_ambiguity `{Runtime} (v : variant) (ambiguous : bool)
    (all_valid : gset str) (words : list str) (w : str) :
  scan_words v ambiguous all_valid words = Some w →
  bool_decide (w ∈ AMBIGUOUS_TICKERS v) = ambiguous.
Proof.
  induction words as [|word words IH]; cbn [scan_words]; [done|].
  destruct (_ || _); [exact IH|].
  destruct (bool_decide (word ∈ all_valid)); cbn [andb]; [|exact IH].
  destruct (eqb ambiguous _) eqn:E; [|exact IH].
  intros [= <-]. apply eqb_prop in E. now symmetry.
Qed.

(** A symbol of [AMBIGUOUS_TICKERS] that the text names without a [$], and
    that is not the ticker of a company named in the text, is reported only
    when the text has a word of [STOCK_CONTEXT_WORDS]; it is then a known or
    a session-discovered symbol. *)
Theorem ambiguous_symbol_needs_context `{Runtime} (v : variant) (text : str)
    (session_discovered : gset str) (w : str) :
  company_lookup COMPANY_NAMES (str_upper text) = None →
  extract_plain v text session_discovered = Some w →
  w ∈ AMBIGUOUS_TICKERS v →
  has_stock_context v text = true ∧ w ∈ KNOWN_TICKERS v ∪ session_discovered.
Proof.
  intros Hc Hp Hamb. unfold extract_plain in Hp. rewrite Hc in Hp.
  destruct (scan_words v false _ _) as [w0|] eqn:E1.
  - injection Hp as ->. apply scan_words_ambiguity in E1.
    apply bool_decide_eq_false in E1. done.
  - destruct (has_stock_context v text); [|discriminate]. split; [done|].
    now apply scan_words_skips in Hp as (_ & _ & Hv & _).
Qed.

(** [TEAM] is a known and an ambiguous symbol of chat_viz_backend_v2.py. *)
Lemma ambiguous_symbol_needs_context_witness :
  has_stock_context (H:=basic_runtime) Production (py "team stock") = true ∧
  py "TEAM" ∈ KNOWN_TICKERS Production ∪ ∅.
Proof.
  apply (ambiguous_symbol_needs_context (H:=basic_runtime) Production
           (py "team stock") ∅ (py "TEAM")).
  - vm_compute. reflexivity.
  - vm_compute. reflexivity.
  - unfold AMBIGUOUS_TICKERS, AMBIGUOUS_TICKERS_production.
    apply mem_table. vm_compute. reflexivity.
Defined.

(** ** Stock context *)

(** A text has stock context exactly when one of its words, a maximal run of
    word characters of the lower-cased text, is in [STOCK_CONTEXT_WORDS]: a
    context word inside a longer word does not count. *)
Theorem stock_context_is_a_whole_word `{Runtime} (v : variant) (text : str) :
  has_stock_context v text = true ↔
  ∃ w, w ∈ tokens (str_lower text) ∧ w ∈ STOCK_CONTEXT_WORDS v.
Proof.
  unfold has_stock_context. rewrite findall_words, bool_decide_eq_true. split.
  - intros Hne. apply set_choose_L in Hne as [w Hw].
    apply elem_of_intersection in Hw as [Hw Hc]. exists w. split; [|exact Hc].
    now apply elem_of_list_to_set in Hw.
  - intros (w & Hw & Hc) Hempty.
    assert (Hin : w ∈ (list_to_set (tokens (str_lower text)) : gset str)
                      ∩ STOCK_CONTEXT_WORDS v).
    { apply elem_of_intersection. split; [|exact Hc]. now apply elem_of_list_to_set. }
    rewrite Hempty in Hin. now apply elem_of_empty in Hin.
Qed.

(** ** Literals in the patterns *)

(** Whether a pattern matches at a position does not depend on the index the
    match object records. *)
Lemma match_at_index `{Runtime} (ic : bool) (r : re) (prev : option char) (s : str)
    (i j : nat) :
  is_Some (match_at ic r prev s i) → is_Some (match_at ic r prev s j).
Proof.
  unfold match_at. intros [m Hm].
  rewrite (rmatch_fmap (λ m, MatchObj j (mo_text m) (mo_group1 m) (mo_end m))
             ic r _
             (λ st', Some (MatchObj i (take (length s - length (m_rest st')) s)
                             (m_cap st') st'))) by done.
  rewrite Hm. now eexists.
Qed.

(** [re.search] finds a match when the pattern matches somewhere. *)
Lemma search_from_found `{Runtime} (ic : bool) (r : re) (pre s' : str) :
  ∀ (prev : option char) (i : nat),
    is_Some (match_at ic r (if last pre is Some d then Some d else prev) s' 0) →
    is_Some (search_from ic r prev (pre ++ s') i).
Proof.
  induction pre as [|c pre IH]; intros prev i Hm.
  - cbn [app last] in Hm |- *. apply (match_at_index _ _ _ _ 0 i) in Hm as [m Hm].
    destruct s' as [|c s']; cbn [search_from]; rewrite Hm; now eexists.
  - cbn [app search_from].
    destruct (match_at ic r prev (c :: pre ++ s') i) as [m|]; [now eexists|].
    cbn [orelse]. apply IH. now rewrite last_cons_or in Hm.
Qed.

Lemma searches_found `{Runtime} (ic : bool) (r : re) (pre s' : str) :
  is_Some (match_at ic r (last pre) s' 0) → searches ic r (pre ++ s') = true.
Proof.
  intros Hm. apply bool_decide_eq_true. apply search_from_found.
  now destruct (last pre).
Qed.

(** A literal reads the characters that equal its own, under
    [re.IGNORECASE] up to the case. *)
Lemma rmatch_literal `{Runtime} {A} (ic : bool) (lit w : str) :
  Forall2 (λ c x, chr_eq ic c x = true) lit w →
  ∀ (prev : option char) (post : str) (cap : option str) (k : mstate → option A),
    rmatch ic (RSeq (map RChar lit)) (MState prev (w ++ post) cap) k
    = k (MState (if last w is Some d then Some d else prev) post cap).
Proof.
  induction 1 as [|c x lit w Hc Hrest IH]; intros prev post cap k; [done|].
  destruct Hrest as [|c' x' lit w Hc' Hrest].
  - cbn [map RSeq rmatch m_rest app m_cap last]. now rewrite Hc.
  - change (RSeq (map RChar (c :: c' :: lit)))
      with (RCat (RChar c) (RSeq (map RChar (c' :: lit)))).
    cbn [rmatch m_rest app m_cap]. rewrite Hc.
    change (x' :: w ++ post) with ((x' :: w) ++ post). rewrite IH.
    now rewrite (last_cons_or x).
Qed.

(** An alternation matches where one of its branches does. *)
Lemma rmatch_ROr `{Runtime} {A} (ic : bool) (rs : list re) (r : re) (st : mstate)
    (k : mstate → option A) :
  r ∈ rs → is_Some (rmatch ic r st k) → is_Some (rmatch ic (ROr rs) st k).
Proof.
  intros Hin Hr. induction rs as [|r1 rs IH]; [now apply elem_of_nil in Hin|].
  destruct rs as [|r2 rs].
  - apply elem_of_cons in Hin as [-> | Hin]; [exact Hr | now apply elem_of_nil in Hin].
  - change (ROr (r1 :: r2 :: rs)) with (RAlt r1 (ROr (r2 :: rs))).
    cbn [rmatch]. apply elem_of_cons in Hin as [-> | Hin].
    + destruct Hr as [a ->]. now eexists.
    + destruct (rmatch ic r1 st k); [now eexists|]. cbn [orelse]. now apply IH.
Qed.

(** A text that holds a literal branch of an alternation is found by it. *)
Lemma searches_literal `{Runtime} (ic : bool) (rs : list re) (lit pre w post : str) :
  RSeq (map RChar lit) ∈ rs →
  Forall2 (λ c x, chr_eq ic c x = true) lit w →
  searches ic (ROr rs) (pre ++ w ++ post) = true.
Proof.
  intros Hin Hw. apply searches_found. unfold match_at.
  apply (rmatch_ROr ic rs _ _ _ Hin). rewrite (rmatch_literal ic lit w Hw).
  now eexists.
Qed.

(** ** Question marks *)

(** A text with a question mark is a question. *)
Theorem question_mark_is_a_question `{Runtime} (text : str) :
  sre_ieq 63 63 = true → 63%N ∈ text → is_question text = true.
Proof.
  intros Hieq Hin. apply list_elem_of_split in Hin as (pre & post & ->).
  apply (searches_literal true _ [63%N] pre [63%N] post).
  - apply elem_of_cons. now left.
  - repeat constructor. exact Hieq.
Qed.

Lemma question_mark_is_a_question_witness :
  is_question (H:=basic_runtime) (py "wen moon?") = true.
Proof.
  apply (question_mark_is_a_question (H:=basic_runtime) (py "wen moon?")).
  - reflexivity.
  - apply list_elem_of_In. vm_compute. tauto.
Defined.

(** ** Links *)

(** A text that holds one of the literals of [LINK_LITERALS], in any letter
    case, is found by [SPAM_LINK_RE]. *)
Lemma link_is_found `{Runtime} (v : variant) (lit pre w post : str) :
  lit ∈ LINK_LITERALS →
  Forall2 (λ c x, sre_ieq c x = true) lit w →
  searches true (SPAM_LINK_RE v) (pre ++ w ++ post) = true.
Proof.
  intros Hlit Hw.
  destruct v; unfold SPAM_LINK_RE, SPAM_LINK_RE_local, SPAM_LINK_RE_production;
    apply (searches_literal true _ lit); try exact Hw;
    unfold LINK_LITERALS in Hlit; cbn [map] in Hlit;
    repeat (apply elem_of_cons in Hlit as [-> | Hlit];
            [repeat (apply elem_of_cons; first [left; reflexivity | right])|]);
    now apply elem_of_nil in Hlit.
Qed.

Lemma promo_link_triggered `{Runtime} (v : variant) (now : Q) (text author : str)
    (hist : history) :
  searches true (SPAM_LINK_RE v) text = true →
  In (Rule promo_link 0.85 true) (triggered v now text author hist).
Proof.
  intros Hs. unfold triggered. apply filter_In. split; [|reflexivity].
  unfold rules. rewrite Hs. cbn [In]. tauto.
Qed.

(** A message that holds one of these literals, in any letter case, has the
    reason [promo_link] and is spam, whoever sent it and whatever the
    history: in both backends. *)
Theorem link_is_spam `{Runtime} (v : variant) (now : Q) (author : str)
    (hist : history) (lit pre w post : str) :
  lit ∈ LINK_LITERALS →
  Forall2 (λ c x, sre_ieq c x = true) lit w →
  let r := (detect_spam v now (pre ++ w ++ post) author hist).1 in
  promo_link ∈ reasons r ∧ is_spam r = true ∧ (0.85 <= confidence r)%Q.
Proof.
  intros Hlit Hw r.
  destruct (triggered_rule_counts v now (pre ++ w ++ post) author hist
              (Rule promo_link 0.85 true)) as (Hr & Hc & Hspam).
  { apply promo_link_triggered. now apply (link_is_found v lit). }
  cbn [rule_code rule_confidence] in Hr, Hc, Hspam.
  split; [exact Hr|]. split; [|exact Hc]. apply Hspam. Qclosed.
Qed.

Lemma link_is_spam_witness :
  let r := (detect_spam (H:=basic_runtime) Production 0
              (py "come to " ++ py "T.Me/" ++ py "moonclub") alice ∅).1 in
  promo_link ∈ reasons r ∧ is_spam r = true ∧ (0.85 <= confidence r)%Q.
Proof.
  apply (link_is_spam (H:=basic_runtime) Production 0 alice ∅ (py "t.me/")
           (py "come to ") (py "T.Me/") (py "moonclub")).
  - apply elem_of_cons. right. apply elem_of_cons. now left.
  - repeat constructor.
Defined.

(** ** The scraping loop *)




(** *** Every message is counted once *)







(** *** What is broadcast *)






(** *** What happens to a message *)

(** The state a dropped message leaves: one more message, one more spam. *)
Lemma handle_item_spam `{Runtime} (v : variant) conv spam_or
    (state : video_state_t) (s : scraper) (now stamp : Q) (c : chat_item) :
  is_spam (p_spam (process_message v conv now stamp c state).1.1) = true →
  (handle_item v conv spam_or (state, s) (now, stamp, c)).2
  = Scraper (store s) (vibe_batch s) (last_vibe_check s) (last_pulse_time s)
      (S (spam_count s)) (S (msg_count s)) (sent s) (vibe_queries s) ∧
  pulse_buffer (handle_item v conv spam_or (state, s) (now, stamp, c)).1
  = pulse_buffer state.
Proof.
  unfold handle_item.
  assert (Hbuf : pulse_buffer (process_message v conv now stamp c state).1.2
                 = pulse_buffer state).
  { unfold process_message. destruct (is_privileged v (author c)).
    - now destruct (extract_ticker v _ _) as [[[|x topic]|] discovered].
    - destruct (detect_spam v _ _ _ _) as [r h].
      now destruct (extract_ticker v _ _) as [[[|x topic]|] discovered]. }
  destruct (process_message v conv now stamp c state) as [[p state'] calls].
  cbn [fst snd] in Hbuf |- *. intros ->. now cbn [fst snd].
Qed.

(** In both backends, a message with a link of [LINK_LITERALS] whose author
    has no privilege is dropped by the loop: it is counted as spam, and it is
    neither broadcast nor put into the vibe batch or the pulse buffer.  The
    completion service is not asked. *)
Theorem link_message_is_dropped `{Runtime} (v : variant) (conv : str → str)
    (spam_or : nat → str → option str) (state : video_state_t) (s : scraper)
    (now stamp : Q) (c : chat_item) (lit pre w post : str) :
  is_privileged v (author c) = false →
  lit ∈ LINK_LITERALS →
  Forall2 (λ c x, sre_ieq c x = true) lit w →
  conv (message c) = pre ++ w ++ post →
  let out := handle_item v conv spam_or (state, s) (now, stamp, c) in
  out.2 = Scraper (store s) (vibe_batch s) (last_vibe_check s) (last_pulse_time s)
            (S (spam_count s)) (S (msg_count s)) (sent s) (vibe_queries s) ∧
  pulse_buffer out.1 = pulse_buffer state.
Proof.
  intros Hpriv Hlit Hw Etext out. subst out. apply handle_item_spam.
  assert (Hspam : is_spam (detect_spam v now (conv (message c)) (name (author c))
                             (user_message_history state)).1 = true).
  { rewrite Etext.
    apply (triggered_rule_counts v now (pre ++ w ++ post) (name (author c))
             (user_message_history state) (Rule promo_link 0.85 true)).
    - apply promo_link_triggered. now apply (link_is_found v lit).
    - cbn [rule_confidence]. Qclosed. }
  unfold process_message. rewrite Hpriv.
  destruct (detect_spam v _ _ _ _) as [r h]. cbn [fst] in Hspam.
  now destruct (extract_ticker v _ _) as [[[|x topic]|] discovered].
Qed.

Lemma link_message_is_dropped_witness :
  let s := scraper_init Local 0 in
  let out :=
    handle_item (H:=basic_runtime) Local id no_reply (fresh_state, s) (0%Q, 0%Q, owner_promo) in
  out.2 = Scraper (store s) (vibe_batch s) (last_vibe_check s) (last_pulse_time s)
            (S (spam_count s)) (S (msg_count s)) (sent s) (vibe_queries s) ∧
  pulse_buffer out.1 = pulse_buffer fresh_state.
Proof.
  apply (link_message_is_dropped (H:=basic_runtime) Local id no_reply fresh_state
           (scraper_init Local 0) 0 0 owner_promo (py "discord.gg/")
           (py "join my group at ") (py "discord.gg/") (py "abc")).
  - reflexivity.
  - apply elem_of_cons. now left.
  - repeat constructor.
  - reflexivity.
Defined.

(** In chat_viz_backend_v2.py a message of the channel owner or of a
    moderator is always kept, whatever its text: it is not counted as spam,
    the completion service is not asked about it, and it enters the vibe
    batch and the pulse buffer; it is broadcast when it has a topic or is a
    question. *)
Theorem privileged_message_is_kept `{Runtime} (conv : str → str)
    (spam_or : nat → str → option str) (state : video_state_t) (s : scraper)
    (now stamp : Q) (c : chat_item) :
  getattr (isChatOwner (author c)) false
  || getattr (isChatModerator (author c)) false = true →
  let out := handle_item Production conv spam_or (state, s) (now, stamp, c) in
  let id := size (store s) in
  spam_count out.2 = spam_count s ∧
  vibe_batch out.2 = vibe_batch s ++ [id] ∧
  pulse_buffer out.1 = pulse_buffer state ++ [id] ∧
  user_message_history out.1 = user_message_history state ∧
  ∃ p, store out.2 !! id = Some p ∧
       p_text p = conv (message c) ∧
       p_spam p = SpamResult false None [] 0%Q ∧
       sent out.2
       = if truthy (p_topic p) || p_isQuestion p then sent s ++ [Message p] else sent s.
Proof.
  intros Hpriv out id. subst out id. unfold handle_item, process_message, is_privileged.
  rewrite Hpriv.
  destruct (extract_ticker Production _ _) as [[[|x topic]|] discovered];
    cbn [fst snd spam_count vibe_batch pulse_buffer user_message_history store sent
         p_spam is_spam confidence p_text p_topic p_isQuestion andb];
    (split; [reflexivity|]); (split; [reflexivity|]); (split; [reflexivity|]);
    (split; [reflexivity|]); eexists; (split; [apply lookup_insert_eq|]);
    cbn [p_text p_spam p_topic p_isQuestion]; done.
Qed.

Lemma privileged_message_is_kept_witness :
  let s := scraper_init Production 0 in
  let out :=
    handle_item (H:=basic_runtime) Production id no_reply (fresh_state, s)
      (0%Q, 0%Q, owner_promo) in
  let id := size (store s) in
  spam_count out.2 = spam_count s ∧
  vibe_batch out.2 = vibe_batch s ++ [id] ∧
  pulse_buffer out.1 = pulse_buffer fresh_state ++ [id] ∧
  user_message_history out.1 = user_message_history fresh_state ∧
  ∃ p, store out.2 !! id = Some p ∧
       p_text p = message owner_promo ∧
       p_spam p = SpamResult false None [] 0%Q ∧
       sent out.2
       = if truthy (p_topic p) || p_isQuestion p then sent s ++ [Message p] else sent s.
Proof.
  apply (privileged_message_is_kept (H:=basic_runtime) id no_reply fresh_state
           (scraper_init Production 0) 0 0 owner_promo).
  reflexivity.
Defined.

(** *** Vibe questions *)





(** ** The session registry *)

(** The scraper steps leave the clients alone. *)
Lemma scraper_finally_clients (task : nat) (video_id : str) (srv : server) :
  connected_clients (scraper_finally task video_id srv) = connected_clients srv ∧
  client_video_id (scraper_finally task video_id srv) = client_video_id srv ∧
  video_clients (scraper_finally task video_id srv) = video_clients srv.
Proof. done. Qed.

Lemma scraper_start_clients (task : nat) (create_ok : bool) (t : Q) (srv : server) :
  connected_clients (scraper_start task create_ok t srv) = connected_clients srv ∧
  client_video_id (scraper_start task create_ok t srv) = client_video_id srv ∧
  video_clients (scraper_start task create_ok t srv) = video_clients srv.
Proof.
  unfold scraper_start. destruct (tasks srv !! task) as [[video_id [|s]]|]; try done.
  now destruct create_ok.
Qed.

Lemma scraper_poll_clients `{Runtime} conv spam_or vibe_or pulse_or (task : nat)
    (chat : chat_step) (t : Q) (srv : server) :
  let srv' := scraper_poll conv spam_or vibe_or pulse_or task chat t srv in
  connected_clients srv' = connected_clients srv ∧
  client_video_id srv' = client_video_id srv ∧
  video_clients srv' = video_clients srv.
Proof.
  unfold scraper_poll. destruct (tasks srv !! task) as [[video_id [|s]]|]; try done.
  destruct chat as [| |items]; try done.
  destruct (has_clients video_id srv); [|done].
  destruct (video_state srv !! video_id) as [state|]; [|done].
  now destruct (scrape_iteration _ _ _ _ _ _ _ _).
Qed.

Lemma discard_client_lookup (ws : nat) (current : option str)
    (vc : gmap str (gset nat)) (video_id : str) :
  discard_client ws current vc !! video_id
  = if bool_decide (current = Some video_id ∧ video_id ≠ [])
    then (λ clients, clients ∖ {[ws]}) <$> vc !! video_id
    else vc !! video_id.
Proof.
  unfold discard_client. destruct current as [[|c id]|].
  - rewrite bool_decide_eq_false_2; [done|]. now intros [[= <-] Hne].
  - destruct (decide (c :: id = video_id)) as [<- | Hne].
    + rewrite bool_decide_eq_true_2 by done. apply lookup_alter_eq.
    + rewrite bool_decide_eq_false_2 by (intros [[= E] _]; done).
      now apply lookup_alter_ne.
  - rewrite bool_decide_eq_false_2; [done|]. now intros [? _].
Qed.

(** Once a client is taken out of the set of its current video, it is in no
    set at all. *)
Lemma discard_client_members (ws : nat) (srv : server) :
  one_video_per_client srv →
  discard_client ws (client_video_id srv !! ws) (video_clients srv) !! [] = None ∧
  ∀ w video_id clients,
    discard_client ws (client_video_id srv !! ws) (video_clients srv) !! video_id
    = Some clients →
    w ∈ clients →
    w ≠ ws ∧ w ∈ connected_clients srv ∧ client_video_id srv !! w = Some video_id.
Proof.
  intros (Hnil & Hinv & _). split.
  { rewrite discard_client_lookup. rewrite bool_decide_eq_false_2; [done|].
    now intros [_ Hne]. }
  intros w video_id clients Hl Hw. rewrite discard_client_lookup in Hl.
  destruct (bool_decide_reflect (client_video_id srv !! ws = Some video_id ∧ video_id ≠ []))
    as [[Hcur Hne] | Hnot].
  - destruct (video_clients srv !! video_id) as [before|] eqn:Hb; [|done].
    cbn in Hl. injection Hl as <-. apply elem_of_difference in Hw as [Hw Hws].
    destruct (Hinv w video_id before Hb Hw) as [H1 H2].
    split; [|done]. intros ->. apply Hws. now apply elem_of_singleton.
  - destruct (Hinv w video_id clients Hl Hw) as [H1 H2]. split; [|done].
    intros ->. apply Hnot. split; [done|]. intros ->. now rewrite Hnil in Hl.
Qed.

(** Taking a client out of a set leaves the other clients where they are. *)
Lemma discard_client_others (ws w : nat) (current : option str)
    (vc : gmap str (gset nat)) (video_id : str) (clients : gset nat) :
  w ≠ ws → vc !! video_id = Some clients → w ∈ clients →
  ∃ clients', discard_client ws current vc !! video_id = Some clients' ∧ w ∈ clients'.
Proof.
  intros Hne Hl Hw. rewrite discard_client_lookup, Hl.
  destruct (bool_decide _); cbn; eexists; (split; [reflexivity|]); [|done].
  apply elem_of_difference. split; [done|]. now rewrite elem_of_singleton.
Qed.

(** After SUBSCRIBE the video is the client's current one. *)
Lemma subscribe_current (ws : nat) (video_id : str) (srv : server) :
  client_video_id (subscribe ws video_id srv) = <[ws := video_id]> (client_video_id srv) ∧
  connected_clients (subscribe ws video_id srv) = connected_clients srv ∧
  video_clients (subscribe ws video_id srv)
  = alter (λ clients, {[ws]} ∪ clients) video_id
      (let vc := discard_client ws (client_video_id srv !! ws) (video_clients srv) in
       match vc !! video_id with
       | Some _ => vc
       | None => <[video_id := ∅]> vc
       end).
Proof. unfold subscribe. now destruct (active_scrapers srv !! video_id). Qed.

Lemma subscribe_one_video (ws : nat) (video_id : str) (srv : server) :
  video_id ≠ [] → ws ∈ connected_clients srv →
  one_video_per_client srv → one_video_per_client (subscribe ws video_id srv).
Proof.
  intros Hne Hconn Hinv.
  destruct (discard_client_members ws srv Hinv) as [Hnil1 Hmem].
  destruct Hinv as (_ & _ & Hsub).
  destruct (subscribe_current ws video_id srv) as (Ecur & Econn & Evc).
  unfold one_video_per_client. rewrite Ecur, Econn, Evc. cbn zeta.
  set (vc1 := discard_client ws (client_video_id srv !! ws) (video_clients srv)) in *.
  split; [|split].
  { rewrite lookup_alter_ne by done.
    destruct (vc1 !! video_id); [done|]. now rewrite lookup_insert_ne. }
  - intros w vid clients Hl Hw.
    destruct (decide (vid = video_id)) as [-> | Hvid].
    + rewrite lookup_alter_eq in Hl.
      destruct (vc1 !! video_id) as [c0|] eqn:E0.
      * rewrite E0 in Hl. cbn in Hl. injection Hl as <-.
        apply elem_of_union in Hw as [Hw | Hw].
        -- apply elem_of_singleton in Hw as ->. split; [done|]. apply lookup_insert_eq.
        -- destruct (Hmem w video_id c0 E0 Hw) as (Hws & Hc & Hv).
           split; [done|]. now rewrite lookup_insert_ne.
      * rewrite lookup_insert_eq in Hl. cbn in Hl. injection Hl as <-.
        apply elem_of_union in Hw as [Hw | Hw]; [|now apply elem_of_empty in Hw].
        apply elem_of_singleton in Hw as ->. split; [done|]. apply lookup_insert_eq.
    + rewrite lookup_alter_ne in Hl by done.
      assert (Hl1 : vc1 !! vid = Some clients).
      { destruct (vc1 !! video_id); [done|]. now rewrite lookup_insert_ne in Hl. }
      destruct (Hmem w vid clients Hl1 Hw) as (Hws & Hc & Hv).
      split; [done|]. now rewrite lookup_insert_ne.
  - intros w vid Hcur. destruct (decide (w = ws)) as [-> | Hw].
    + rewrite lookup_insert_eq in Hcur. injection Hcur as <-.
      rewrite lookup_alter_eq. destruct (vc1 !! video_id) as [c0|] eqn:E0.
      * rewrite E0. cbn. eexists. split; [reflexivity|].
        apply elem_of_union. left. now apply elem_of_singleton.
      * rewrite lookup_insert_eq. cbn. eexists. split; [reflexivity|].
        apply elem_of_union. left. now apply elem_of_singleton.
    + rewrite lookup_insert_ne in Hcur by done.
      destruct (Hsub w vid Hcur) as (clients & Hl & Hin).
      destruct (discard_client_others ws w (client_video_id srv !! ws)
                  (video_clients srv) vid clients Hw Hl Hin) as (c1 & Hl1 & Hin1).
      fold vc1 in Hl1.
      destruct (decide (vid = video_id)) as [-> | Hvid].
      * rewrite lookup_alter_eq. rewrite Hl1. cbn. rewrite Hl1. cbn.
        eexists. split; [reflexivity|]. apply elem_of_union. now right.
      * rewrite lookup_alter_ne by done. exists c1. split; [|done].
        destruct (vc1 !! video_id); [done|]. now rewrite lookup_insert_ne.
Qed.

(** Leaving: the client is taken out of its set and has no current video;
    the subscriptions of the others stay. *)
Lemma leave_one_video (ws : nat) (conn : gset nat) (srv srv' : server) :
  one_video_per_client srv →
  connected_clients srv' = conn →
  (∀ w, w ≠ ws → w ∈ connected_clients srv → w ∈ conn) →
  client_video_id srv' = delete ws (client_video_id srv) →
  video_clients srv'
  = discard_client ws (client_video_id srv !! ws) (video_clients srv) →
  one_video_per_client srv'.
Proof.
  intros Hinv Econn Hconn Ecur Evc.
  destruct (discard_client_members ws srv Hinv) as [Hnil1 Hmem].
  destruct Hinv as (_ & _ & Hsub).
  unfold one_video_per_client. rewrite Econn, Ecur, Evc. split; [exact Hnil1|split].
  - intros w vid clients Hl Hw. destruct (Hmem w vid clients Hl Hw) as (Hws & Hc & Hv).
    split; [now apply Hconn|]. now rewrite lookup_delete_ne.
  - intros w vid Hcur. apply lookup_delete_Some in Hcur as [Hw Hcur].
    destruct (Hsub w vid Hcur) as (clients & Hl & Hin).
    apply (discard_client_others ws w _ _ vid clients); done.
Qed.

Lemma step_one_video `{Runtime} (conv : str → str) (srv srv' : server) :
  step conv srv srv' → one_video_per_client srv → one_video_per_client srv'.
Proof.
  intros Hstep Hinv. destruct Hstep as [ws srv Hnew | ws data srv Hconn
    | ws srv Hconn | ws srv Hconn | task create_ok t srv
    | spam_or vibe_or pulse_or task chat t srv].
  - destruct Hinv as (Hnil & Hinv & Hsub). split; [done|split].
    + intros w vid clients Hl Hw.
      cbn [connect video_clients connected_clients client_video_id] in *.
      destruct (Hinv w vid clients Hl Hw) as [Hc Hv]. split.
      * apply elem_of_union. now right.
      * rewrite lookup_delete_ne; [done|]. now intros ->.
    + intros w vid Hcur.
      cbn [connect video_clients connected_clients client_video_id] in *.
      apply lookup_delete_Some in Hcur as [_ Hcur]. now apply Hsub.
  - unfold on_subscribe.
    destruct (match videoId data with
              | Some (c :: id) => c :: id
              | _ => extract_video_id (default [] (url data))
              end) as [|c id]; [done|].
    now apply subscribe_one_video.
  - unfold unsubscribe.
    destruct (client_video_id srv !! ws) as [[|c id]|] eqn:Ecur; try done.
    destruct (video_clients srv !! (c :: id)); [|done].
    apply (leave_one_video ws (connected_clients srv) srv); try done.
    cbn [video_clients]. now rewrite Ecur.
  - apply (leave_one_video ws (connected_clients srv ∖ {[ws]}) srv); try done.
    intros w Hw Hc. apply elem_of_difference. split; [done|].
    now rewrite elem_of_singleton.
  - destruct (scraper_start_clients task create_ok t srv) as (E1 & E2 & E3).
    unfold one_video_per_client. now rewrite E1, E2, E3.
  - destruct (scraper_poll_clients conv spam_or vibe_or pulse_or task chat t srv)
      as (E1 & E2 & E3).
    unfold one_video_per_client. now rewrite E1, E2, E3.
Qed.

(** In every server a run reaches, the client sets hold the subscriptions:
    a client is in the client set of a video exactly when that video is the
    one it subscribed to last, so it gets the broadcasts of one video.  A
    SUBSCRIBE that names a video puts the client into the set of that video
    and leaves it in no other.  Once the client unsubscribes or goes away it
    is in no set at all. *)
Theorem client_watches_one_video `{Runtime} (conv : str → str)
    (video_url : option str) (srv : server) :
  reachable conv video_url srv →
  one_video_per_client srv ∧
  (∀ ws data, ws ∈ connected_clients srv → requested_video data ≠ [] →
     watches ws (requested_video data) (on_subscribe ws data srv)) ∧
  ∀ ws, in_no_set ws (unsubscribe ws srv) ∧ in_no_set ws (disconnect ws srv).
Proof.
  intros Hreach.
  assert (Hinv : one_video_per_client srv).
  { induction Hreach as [|srv srv' _ IH Hstep].
    - unfold main. destruct video_url as [[|c rest]|]; repeat split; done.
    - exact (step_one_video conv srv srv' Hstep IH). }
  split; [exact Hinv|]. split.
  { intros ws data Hconn Hreq.
    pose proof (step_one_video conv srv _ (step_subscribe conv ws data srv Hconn) Hinv)
      as (_ & Hin' & Hsub').
    assert (Hcur : client_video_id (on_subscribe ws data srv) !! ws
                   = Some (requested_video data)).
    { unfold on_subscribe. fold (requested_video data).
      destruct (requested_video data) as [|c id]; [done|].
      destruct (subscribe_current ws (c :: id) srv) as (-> & _).
      apply lookup_insert_eq. }
    split; [now apply Hsub'|].
    intros other clients Hl Hw. destruct (Hin' ws other clients Hl Hw) as [_ Hv].
    congruence. }
  intros ws.
  destruct (discard_client_members ws srv Hinv) as [_ Hmem].
  assert (Hgone : in_no_set ws
            (Server (connected_clients srv) (client_video_id srv)
               (discard_client ws (client_video_id srv !! ws) (video_clients srv))
               (active_scrapers srv) (video_state srv) (tasks srv) (next_task srv)
               (video_messages srv))).
  { intros vid clients Hl Hw. cbn [video_clients] in Hl.
    now destruct (Hmem ws vid clients Hl Hw) as (Hne & _). }
  split; [|exact Hgone].
  destruct Hinv as (Hnil & Hinv & _). unfold unsubscribe.
  destruct (client_video_id srv !! ws) as [[|c id]|] eqn:Ecur.
  - intros vid clients Hl Hw. destruct (Hinv ws vid clients Hl Hw) as [_ Hv].
    rewrite Ecur in Hv. injection Hv as <-. now rewrite Hnil in Hl.
  - destruct (video_clients srv !! (c :: id)) as [before|] eqn:Eb.
    + exact Hgone.
    + intros vid clients Hl Hw. destruct (Hinv ws vid clients Hl Hw) as [_ Hv].
      rewrite Ecur in Hv. injection Hv as <-. rewrite Eb in Hl. discriminate.
  - intros vid clients Hl Hw. destruct (Hinv ws vid clients Hl Hw) as [_ Hv].
    rewrite Ecur in Hv. discriminate.
Qed.

Lemma one_subscriber_reachable :
  reachable (H:=basic_runtime) id None (one_subscriber (H:=basic_runtime)).
Proof.
  unfold one_subscriber. eapply reach_step; [eapply reach_step; [apply reach_main|]|].
  - apply step_connect. apply not_elem_of_empty.
  - apply step_subscribe. apply elem_of_union. left. now apply elem_of_singleton.
Qed.

Lemma client_watches_one_video_witness :
  let srv := one_subscriber (H:=basic_runtime) in
  one_video_per_client srv ∧
  (∀ ws data, ws ∈ connected_clients srv → requested_video (H:=basic_runtime) data ≠ [] →
     watches ws (requested_video (H:=basic_runtime) data)
       (on_subscribe (H:=basic_runtime) ws data srv)) ∧
  ∀ ws, in_no_set ws (unsubscribe ws srv) ∧ in_no_set ws (disconnect ws srv).
Proof.
  apply (client_watches_one_video (H:=basic_runtime) id None
           (one_subscriber (H:=basic_runtime))).
  exact one_subscriber_reachable.
Defined.

(** *** One pipeline per video *)

Lemma scraper_finally_one_task (task : nat) (video_id : str) (phase : task_phase)
    (srv : server) :
  tasks srv !! task = Some (video_id, phase) →
  one_task_per_video srv → one_task_per_video (scraper_finally task video_id srv).
Proof.
  intros Ht (Ha & Hb & Hc). unfold one_task_per_video.
  cbn [scraper_finally active_scrapers tasks next_task]. split; [|split].
  - intros vid tk Hl. apply lookup_delete_Some in Hl as [Hne Hl].
    destruct (Ha vid tk Hl) as [ph Hph]. exists ph.
    rewrite lookup_delete_ne; [done|]. intros <-. rewrite Ht in Hph. congruence.
  - intros tk vid ph Hl. apply lookup_delete_Some in Hl as [Hne Hl].
    pose proof (Hb tk vid ph Hl) as Hact.
    rewrite lookup_delete_ne; [done|]. intros <-.
    rewrite (Hb task video_id phase Ht) in Hact. congruence.
  - intros tk Hle. rewrite lookup_delete_None. right. now apply Hc.
Qed.

Lemma task_phase_one_task (task : nat) (video_id : str) (old new : task_phase)
    (vs : gmap str video_state_t) (srv : server) :
  tasks srv !! task = Some (video_id, old) →
  one_task_per_video srv →
  one_task_per_video
    (Server (connected_clients srv) (client_video_id srv) (video_clients srv)
       (active_scrapers srv) vs (<[task := (video_id, new)]> (tasks srv))
       (next_task srv) (video_messages srv)).
Proof.
  intros Ht (Ha & Hb & Hc). unfold one_task_per_video.
  cbn [active_scrapers tasks next_task]. split; [|split].
  - intros vid tk Hl. destruct (Ha vid tk Hl) as [ph Hph].
    destruct (decide (tk = task)) as [-> | Hne].
    + rewrite Ht in Hph. injection Hph as <- <-. exists new. apply lookup_insert_eq.
    + exists ph. now rewrite lookup_insert_ne.
  - intros tk vid ph Hl. destruct (decide (tk = task)) as [-> | Hne].
    + rewrite lookup_insert_eq in Hl. injection Hl as <- <-. now apply (Hb task video_id old).
    + rewrite lookup_insert_ne in Hl by done. now apply (Hb tk vid ph).
  - intros tk Hle. rewrite lookup_insert_ne; [now apply Hc|].
    intros <-. rewrite (Hc task Hle) in Ht. discriminate.
Qed.

Lemma subscribe_one_task (ws : nat) (video_id : str) (srv : server) :
  one_task_per_video srv → one_task_per_video (subscribe ws video_id srv).
Proof.
  intros (Ha & Hb & Hc). unfold subscribe.
  destruct (active_scrapers srv !! video_id) as [tk0|] eqn:Eact; [done|].
  assert (Hfresh : tasks srv !! next_task srv = None) by now apply Hc.
  unfold one_task_per_video. cbn [active_scrapers tasks next_task]. split; [|split].
  - intros vid tk Hl. destruct (decide (vid = video_id)) as [-> | Hne].
    + rewrite lookup_insert_eq in Hl. injection Hl as <-. exists Created.
      apply lookup_insert_eq.
    + rewrite lookup_insert_ne in Hl by done. destruct (Ha vid tk Hl) as [ph Hph].
      exists ph. rewrite lookup_insert_ne; [done|]. intros <-. congruence.
  - intros tk vid ph Hl. destruct (decide (tk = next_task srv)) as [-> | Hne].
    + rewrite lookup_insert_eq in Hl. injection Hl as <- <-. apply lookup_insert_eq.
    + rewrite lookup_insert_ne in Hl by done. pose proof (Hb tk vid ph Hl) as Hact.
      rewrite lookup_insert_ne; [done|]. intros <-. congruence.
  - intros tk Hle. rewrite lookup_insert_ne by lia. apply Hc. lia.
Qed.

Lemma step_one_task `{Runtime} (conv : str → str) (srv srv' : server) :
  step conv srv srv' → one_task_per_video srv → one_task_per_video srv'.
Proof.
  intros Hstep Hinv. destruct Hstep as [ws srv Hnew | ws data srv Hconn
    | ws srv Hconn | ws srv Hconn | task create_ok t srv
    | spam_or vibe_or pulse_or task chat t srv].
  - exact Hinv.
  - unfold on_subscribe.
    destruct (match videoId data with
              | Some (c :: id) => c :: id
              | _ => extract_video_id (default [] (url data))
              end) as [|c id]; [done|].
    now apply subscribe_one_task.
  - unfold unsubscribe.
    destruct (client_video_id srv !! ws) as [[|c id]|]; try done.
    now destruct (video_clients srv !! (c :: id)).
  - exact Hinv.
  - unfold scraper_start.
    destruct (tasks srv !! task) as [[video_id [|s]]|] eqn:Et; try done.
    destruct create_ok.
    + now apply (task_phase_one_task task video_id Created).
    + apply (scraper_finally_one_task task video_id Created); [done|].
      destruct Hinv as (Ha & Hb & Hc). done.
  - unfold scraper_poll.
    destruct (tasks srv !! task) as [[video_id [|s]]|] eqn:Et; try done.
    destruct chat as [| |items];
      try (now apply (scraper_finally_one_task task video_id (Looping s))).
    destruct (has_clients video_id srv);
      [|now apply (scraper_finally_one_task task video_id (Looping s))].
    destruct (video_state srv !! video_id) as [state|]; [|done].
    destruct (scrape_iteration _ _ _ _ _ _ _ _) as [state' s'].
    now apply (task_phase_one_task task video_id (Looping s)).
Qed.

(** In every server a run reaches, the registry [active_scrapers] and the
    running scraper tasks correspond one to one: a video never has two
    pipelines, and a registered pipeline is running. *)
Theorem video_has_one_pipeline `{Runtime} (conv : str → str)
    (video_url : option str) (srv : server) :
  reachable conv video_url srv → one_task_per_video srv.
Proof.
  induction 1 as [|srv srv' _ IH Hstep].
  - unfold main. destruct video_url as [[|c rest]|];
      unfold one_task_per_video; cbn [active_scrapers tasks next_task];
      try (split; [|split]; intros; simplify_map_eq; done).
    split; [|split].
    + intros vid tk Hl. apply lookup_singleton_Some in Hl as [<- <-].
      exists Created. apply lookup_singleton_eq.
    + intros tk vid ph Hl. apply lookup_singleton_Some in Hl as [<- [= <- <-]].
      apply lookup_singleton_eq.
    + intros tk Hle. apply lookup_singleton_ne. lia.
  - exact (step_one_task conv srv srv' Hstep IH).
Qed.

Lemma video_has_one_pipeline_witness :
  one_task_per_video (one_subscriber (H:=basic_runtime)).
Proof.
  apply (video_has_one_pipeline (H:=basic_runtime) id None
           (one_subscriber (H:=basic_runtime))).
  exact one_subscriber_reachable.
Defined.

(** ** Video ids *)

Lemma rmatch_group `{Runtime} {A} (ic : bool) (r : re) (st : mstate)
    (k : mstate → option A) :
  rmatch ic (RGroup r) st k
  = rmatch ic r st (λ st',
      k (MState (m_prev st') (m_rest st')
           (Some (take (length (m_rest st) - length (m_rest st')) (m_rest st))))).
Proof. reflexivity. Qed.

Lemma rmatch_bol `{Runtime} {A} (ic : bool) (st : mstate) (k : mstate → option A) :
  rmatch ic RBol st k = if m_prev st is None then k st else None.
Proof. reflexivity. Qed.

Lemma rmatch_eol `{Runtime} {A} (ic : bool) (st : mstate) (k : mstate → option A) :
  rmatch ic REol st k
  = match m_rest st with
    | [] => k st
    | [x] => if (x =? 10)%N then k st else None
    | _ => None
    end.
Proof. reflexivity. Qed.

(** The group of [prefix([^&?\s]+)] is not empty. *)
Lemma url_group_nonempty `{Runtime} (prefix : re) (prev : option char) (s : str)
    (i : nat) (m : match_obj) :
  match_at false (RSeq [prefix; RGroup (RPlus NOT_SEP)]) prev s i = Some m →
  ∃ w, mo_group1 m = Some w ∧ w ≠ [].
Proof.
  unfold match_at. cbn [RSeq]. rewrite rmatch_cat. intros Hm.
  apply rmatch_consumes in Hm as (st1 & Hm & _).
  unfold RPlus, NOT_SEP in Hm. rewrite rmatch_group, rmatch_cat, rmatch_set in Hm.
  destruct (m_rest st1) as [|x rest1] eqn:E1; [discriminate|].
  destruct (xorb true _); [|discriminate].
  apply rmatch_consumes in Hm as (st2 & Hm & Hsuf). cbn [m_rest] in Hsuf.
  injection Hm as <-. cbn [mo_group1 m_cap m_rest]. eexists. split; [reflexivity|].
  apply suffix_length in Hsuf.
  replace (S (length rest1) - length (m_rest st2))
    with (S (length rest1 - length (m_rest st2))) by lia.
  discriminate.
Qed.

(** The group of [^([a-zA-Z0-9_-]{11})$] has eleven characters. *)
Lemma bare_id_group_nonempty `{Runtime} (prev : option char) (s : str) (i : nat)
    (m : match_obj) :
  match_at false
    (RSeq [RBol;
           RGroup (RRep (RSet false [IRange 97 122; IRange 65 90; IRange 48 57;
                                     IChar 95; IChar 45]) 11 11);
           REol]) prev s i = Some m →
  ∃ w, mo_group1 m = Some w ∧ w ≠ [].
Proof.
  unfold match_at. cbn [RSeq]. rewrite rmatch_cat, rmatch_bol. cbn [m_prev].
  destruct prev; [discriminate|]. rewrite rmatch_cat, rmatch_group. intros Hm.
  apply rmatch_set_rep in Hm as (w & rest & Hw & Hlen & _ & Hm).
  cbn [m_rest advance m_prev m_cap] in Hw, Hm. subst s.
  rewrite rmatch_eol in Hm. cbn [m_rest] in Hm.
  rewrite length_app, Nat.add_sub, take_app_length in Hm.
  exists w. split; [|intros ->; cbn in Hlen; lia].
  destruct rest as [|x [|y rest]]; [| |discriminate].
  - now injection Hm as <-.
  - destruct (x =? 10)%N; [|discriminate]. now injection Hm as <-.
Qed.

Lemma first_group_nonempty `{Runtime} (url g : str) :
  first_group VIDEO_ID_PATTERNS url = Some g → g ≠ [].
Proof.
  unfold VIDEO_ID_PATTERNS. cbn [first_group].
  repeat match goal with
         | |- context [re_search false ?r url] =>
             let E := fresh "E" in
             destruct (re_search false r url) as [m|] eqn:E;
             [ intros [= <-]; unfold re_search in E;
               apply search_from_inv in E as (pre & s' & _ & E & _);
               first [apply url_group_nonempty in E | apply bare_id_group_nonempty in E];
               destruct E as (w & -> & Hw); exact Hw | ]
         end.
  discriminate.
Qed.

(** [extract_video_id] gives the empty string for the empty URL only: on any
    other text it returns a group that is not empty or the text itself.  So a
    SUBSCRIBE message without [videoId] and with a URL that is not empty
    always subscribes the client, whatever the URL is. *)
Theorem url_is_refused_only_when_empty `{Runtime} (link : str) :
  (extract_video_id link = [] ↔ link = []) ∧
  ∀ (ws : nat) (srv : server),
    link ≠ [] →
    extract_video_id link ≠ [] ∧
    on_subscribe ws (SubscribeData None (Some link)) srv
    = subscribe ws (extract_video_id link) srv.
Proof.
  assert (Hiff : extract_video_id link = [] ↔ link = []).
  { unfold extract_video_id. split.
    - destruct (first_group VIDEO_ID_PATTERNS link) as [g|] eqn:Eg; [|done].
      simpl. intros ->. now apply first_group_nonempty in Eg.
    - intros ->. reflexivity. }
  split; [exact Hiff|]. intros ws srv Hne.
  assert (Hid : extract_video_id link ≠ []) by (intros E; now apply Hiff in E).
  split; [exact Hid|]. unfold on_subscribe. simpl.
  destruct (extract_video_id link) as [|c id]; [done | reflexivity].
Qed.

(** *** Bare ids *)

Lemma rmatch_ROr_inv `{Runtime} {A} (ic : bool) (rs : list re) (st : mstate)
    (k : mstate → option A) (a : A) :
  rmatch ic (ROr rs) st k = Some a → ∃ r, r ∈ rs ∧ rmatch ic r st k = Some a.
Proof.
  induction rs as [|r1 rs IH].
  { cbn [ROr]. rewrite rmatch_set. now destruct (m_rest st). }
  destruct rs as [|r2 rs].
  - intros Hm. exists r1. split; [apply elem_of_cons; now left | exact Hm].
  - change (ROr (r1 :: r2 :: rs)) with (RAlt r1 (ROr (r2 :: rs))). cbn [rmatch].
    intros Hm. apply orelse_Some in Hm as [Hm | Hm].
    + exists r1. split; [apply elem_of_cons; now left | exact Hm].
    + destruct (IH Hm) as (r & Hr & Hrm). exists r. split; [|exact Hrm].
      apply elem_of_cons. now right.
Qed.

(** Without [re.IGNORECASE] a literal reads itself. *)
Lemma rmatch_literal_inv `{Runtime} {A} (lit : str) :
  ∀ (st : mstate) (k : mstate → option A) (a : A),
    rmatch false (RSeq (map RChar lit)) st k = Some a →
    ∃ post, m_rest st = lit ++ post.
Proof.
  induction lit as [|c lit IH]; intros st k a Hm; [now exists (m_rest st)|].
  destruct lit as [|c' lit].
  - cbn [map RSeq rmatch] in Hm. destruct (m_rest st) as [|x s]; [discriminate|].
    unfold chr_eq in Hm. destruct (N.eqb_spec c x) as [-> | Hne]; [|discriminate].
    now exists s.
  - change (RSeq (map RChar (c :: c' :: lit)))
      with (RCat (RChar c) (RSeq (map RChar (c' :: lit)))) in Hm.
    rewrite rmatch_cat in Hm. cbn [rmatch] in Hm.
    destruct (m_rest st) as [|x s]; [discriminate|].
    unfold chr_eq in Hm. destruct (N.eqb_spec c x) as [-> | Hne]; [|discriminate].
    apply IH in Hm as [post Hpost]. cbn [m_rest] in Hpost. exists post.
    now rewrite Hpost.
Qed.

(** A pattern that begins with one of the literals [lits] finds nothing in a
    text that holds none of them. *)
Lemma literal_prefix_not_found `{Runtime} (lits : list str) (r : re) (text : str) :
  (∀ lit pre post, lit ∈ lits → text ≠ pre ++ lit ++ post) →
  re_search false (RCat (ROr (map (λ lit, RSeq (map RChar lit)) lits)) r) text = None.
Proof.
  intros Hnone. unfold re_search.
  destruct (search_from false _ None text 0) as [m|] eqn:Es; [|done].
  apply search_from_inv in Es as (pre & s' & -> & Hm & _).
  unfold match_at in Hm. rewrite rmatch_cat in Hm.
  apply rmatch_ROr_inv in Hm as (r0 & Hr0 & Hm).
  apply list_elem_of_fmap in Hr0 as (lit & -> & Hlit).
  apply rmatch_literal_inv in Hm as [post Hpost]. cbn [m_rest] in Hpost.
  exfalso. apply (Hnone lit pre post Hlit). now rewrite Hpost.
Qed.

Lemma id_chars_literal (text lit pre post : str) :
  Forall (λ c, id_char c = true) text → forallb id_char lit = false →
  text ≠ pre ++ lit ++ post.
Proof.
  intros Hall Hlit ->. apply Forall_app in Hall as [_ Hall].
  apply Forall_app in Hall as [Hall _].
  assert (forallb id_char lit = true); [|congruence].
  apply forallb_forall. intros c Hc. rewrite Forall_forall in Hall.
  apply Hall. now apply list_elem_of_In.
Qed.

(** A text made of the characters of video ids only, of whatever length, is
    returned as it is: no URL pattern matches it, and the pattern for a bare
    id of eleven characters returns the whole text. *)
Theorem bare_id_is_returned_unchanged `{Runtime} (link : str) :
  Forall (λ c, id_char c = true) link → extract_video_id link = link.
Proof.
  intros Hid.
  assert (Hlits : ∀ lits lit pre post,
            forallb (λ l, negb (forallb id_char l)) lits = true →
            lit ∈ lits → link ≠ pre ++ lit ++ post).
  { intros lits lit pre post Hall Hlit. apply (id_chars_literal link lit pre post Hid).
    rewrite forallb_forall in Hall. apply negb_true_iff, Hall.
    now apply list_elem_of_In. }
  assert (E1 : re_search false
                 (RSeq [ROr [RLit "v="; RLit "/v/"; RLit "youtu.be/"];
                        RGroup (RPlus NOT_SEP)]) link = None).
  { apply (literal_prefix_not_found (map py ["v="; "/v/"; "youtu.be/"])).
    intros lit pre post. now apply Hlits. }
  assert (E2 : re_search false (RSeq [RLit "embed/"; RGroup (RPlus NOT_SEP)]) link
               = None).
  { apply (literal_prefix_not_found [py "embed/"]).
    intros lit pre post. now apply Hlits. }
  assert (E3 : re_search false (RSeq [RLit "live/"; RGroup (RPlus NOT_SEP)]) link
               = None).
  { apply (literal_prefix_not_found [py "live/"]).
    intros lit pre post. now apply Hlits. }
  unfold extract_video_id, VIDEO_ID_PATTERNS. cbn [first_group].
  rewrite E1, E2, E3. clear E1 E2 E3.
  destruct (re_search false _ link) as [m|] eqn:Es; [|reflexivity].
  unfold re_search in Es. apply search_from_inv in Es as (pre & s' & -> & Hm & _).
  unfold match_at in Hm. cbn [RSeq] in Hm. rewrite rmatch_cat, rmatch_bol in Hm.
  cbn [m_prev] in Hm. destruct pre as [|c pre _] using rev_ind.
  2:{ rewrite last_snoc in Hm. discriminate. }
  cbn [last app] in Hm |- *. rewrite rmatch_cat, rmatch_group in Hm.
  apply rmatch_set_rep in Hm as (w & rest & Hw & _ & _ & Hm).
  cbn [m_rest advance m_prev m_cap] in Hw, Hm. subst s'.
  rewrite rmatch_eol in Hm. cbn [m_rest] in Hm.
  rewrite length_app, Nat.add_sub, take_app_length in Hm.
  destruct rest as [|x [|y rest]]; [| |discriminate].
  - injection Hm as <-. cbn. now rewrite app_nil_r.
  - destruct (N.eqb_spec x 10) as [-> | Hne]; [|discriminate].
    cbn [app] in Hid. apply Forall_app in Hid as [_ Hid].
    apply Forall_cons in Hid as [Hx _]. discriminate Hx.
Qed.

Lemma bare_id_is_returned_unchanged_witness :
  extract_video_id (H:=basic_runtime) video = video.
Proof.
  apply (bare_id_is_returned_unchanged (H:=basic_runtime) video).
  repeat constructor.
Defined.

(** ** The chat pulse *)

Lemma lstrip_suffix `{Runtime} (s : str) : lstrip s `suffix_of` s.
Proof.
  induction s as [|c s IH]; cbn [lstrip]; [done|].
  destruct (isspace c); [now apply suffix_cons_r | done].
Qed.

Lemma str_strip_elem `{Runtime} (s : str) (c : char) : c ∈ str_strip s → c ∈ s.
Proof.
  unfold str_strip. intros Hc. apply list_elem_of_In, in_rev, list_elem_of_In in Hc.
  eapply elem_of_suffix in Hc; [|apply lstrip_suffix].
  apply list_elem_of_In, in_rev, list_elem_of_In in Hc.
  eapply elem_of_suffix; [exact Hc | apply lstrip_suffix].
Qed.

(** The cleaned summary has at most 80 characters and no double quote. *)
Lemma clean_summary_shape `{Runtime} (summary : str) :
  length (clean_summary summary) ≤ 80 ∧ 34%N ∉ clean_summary summary.
Proof.
  unfold clean_summary.
  set (s1 := str_strip (List.filter (λ c, negb (c =? 34)%N) summary)).
  assert (H1 : 34%N ∉ s1).
  { intros Hin. apply str_strip_elem, list_elem_of_In, filter_In in Hin as [_ Hq].
    discriminate Hq. }
  set (s2 := match s1 with
             | c :: rest => if (c =? 45)%N then str_strip rest else s1
             | [] => s1
             end).
  assert (H2 : 34%N ∉ s2).
  { subst s2. destruct s1 as [|c rest]; [exact H1|].
    destruct (c =? 45)%N; [|exact H1].
    intros Hin. apply str_strip_elem in Hin. apply H1. apply elem_of_cons. now right. }
  destruct (80 <? length s2) eqn:Elen.
  - apply Nat.ltb_lt in Elen. split.
    + rewrite length_app, length_take. change (length (py "...")) with 3. lia.
    + intros Hin. apply elem_of_app in Hin as [Hin | Hin].
      * apply H2. eapply elem_of_prefix; [exact Hin | apply prefix_take].
      * apply list_elem_of_In in Hin. vm_compute in Hin.
        repeat destruct Hin as [Hin | Hin]; try discriminate Hin. exact Hin.
  - apply Nat.ltb_ge in Elen. done.
Qed.

(** A pulse has a summary of at most 80 characters without a double quote,
    whatever the completion service replied, and counts all the messages of
    the buffer. *)
Theorem pulse_summary_is_short `{Runtime} (v : variant)
    (llm_response : str → option str) (stamp : Q) (messages : list processed)
    (p : pulse) :
  generate_pulse_summary v llm_response stamp messages = Some p →
  length (pulse_summary p) ≤ 80 ∧ (34%N ∉ pulse_summary p) ∧
  pulse_msg_count p = length messages ∧ messages ≠ [].
Proof.
  unfold generate_pulse_summary. destruct messages as [|m messages]; [discriminate|].
  destruct (llm_response _) as [response|]; [|discriminate].
  destruct v; [|destruct (str_strip response) as [|c rest]; [discriminate|]];
    intros [= <-]; cbn [pulse_summary pulse_msg_count];
    (split; [apply clean_summary_shape|]); (split; [apply clean_summary_shape|]);
    split; done.
Qed.

(** The service replies with a quoted sentence after a dash. *)
Lemma pulse_summary_is_short_witness :
  let p := PulseDict (py "Bulls everywhere") MOOD_QUIET None 1 0 in
  length (pulse_summary p) ≤ 80 ∧ (34%N ∉ pulse_summary p) ∧
  pulse_msg_count p = length [plain "gm"] ∧ [plain "gm"] ≠ [].
Proof.
  apply (pulse_summary_is_short (H:=basic_runtime) Production
           (λ _, Some (py " - " ++ [34%N] ++ py "Bulls everywhere" ++ [34%N] ++ py " "))
           0 [plain "gm"]).
  vm_compute. reflexivity.
Defined.

(** *** The top ticker *)

Lemma count_ticker_count_of (t t' : str) (counts : list (str * nat)) :
  count_of t' (count_ticker t counts)
  = (if bool_decide (t = t') then 1 else 0) + count_of t' counts.
Proof.
  induction counts as [|[k n] counts IH]; cbn [count_ticker count_of].
  - unfold str_eqb. destruct (bool_decide (t = t')); lia.
  - unfold str_eqb in *. destruct (bool_decide_reflect (k = t)) as [-> | Hkt];
      cbn [count_of]; unfold str_eqb.
    + destruct (bool_decide (t = t')); lia.
    + rewrite IH. destruct (bool_decide_reflect (k = t')) as [-> | Hkt']; [|done].
      now rewrite bool_decide_eq_false_2 by (intros ->; done).
Qed.

Lemma count_ticker_keys (t : str) (counts : list (str * nat)) (k : str) :
  k ∈ (count_ticker t counts).*1 ↔ k = t ∨ k ∈ counts.*1.
Proof.
  induction counts as [|[k0 n] counts IH]; cbn [count_ticker].
  - cbn. rewrite elem_of_cons, elem_of_nil. tauto.
  - unfold str_eqb. destruct (bool_decide_reflect (k0 = t)) as [-> | Hne]; cbn.
    + rewrite !elem_of_cons. tauto.
    + rewrite !elem_of_cons, IH. tauto.
Qed.

Lemma count_ticker_NoDup (t : str) (counts : list (str * nat)) :
  NoDup counts.*1 → NoDup (count_ticker t counts).*1.
Proof.
  induction counts as [|[k0 n] counts IH]; cbn [count_ticker].
  - intros _. cbn. apply NoDup_singleton.
  - cbn. intros Hnd. apply NoDup_cons in Hnd as [Hk0 Hnd].
    unfold str_eqb. destruct (bool_decide_reflect (k0 = t)) as [-> | Hne]; cbn.
    + now apply NoDup_cons.
    + apply NoDup_cons. split; [|now apply IH].
      rewrite count_ticker_keys. intros [-> | Hin]; done.
Qed.

Lemma count_of_elem (counts : list (str * nat)) (k : str) (n : nat) :
  NoDup counts.*1 → (k, n) ∈ counts → count_of k counts = n.
Proof.
  induction counts as [|[k0 n0] counts IH]; [intros _ Hin; now apply elem_of_nil in Hin|].
  cbn. intros Hnd Hin. apply NoDup_cons in Hnd as [Hk0 Hnd].
  apply elem_of_cons in Hin as [[= <- <-] | Hin].
  - unfold str_eqb. now rewrite bool_decide_eq_true_2.
  - unfold str_eqb. rewrite bool_decide_eq_false_2; [now apply IH|].
    intros ->. apply Hk0. apply list_elem_of_fmap. now exists (k, n).
Qed.

Lemma count_of_positive (counts : list (str * nat)) (t : str) :
  0 < count_of t counts → (t, count_of t counts) ∈ counts.
Proof.
  induction counts as [|[k n] counts IH]; cbn [count_of]; [lia|].
  unfold str_eqb. destruct (bool_decide_reflect (k = t)) as [-> | Hne].
  - intros _. apply elem_of_cons. now left.
  - intros Hpos. apply elem_of_cons. right. now apply IH.
Qed.

(** The dict of counts after the loop over [tickers]. *)
Lemma ticker_counts_spec (tickers : list str) :
  ∀ counts : list (str * nat),
    NoDup counts.*1 →
    let counts' := fold_left (λ counts t, count_ticker t counts) tickers counts in
    NoDup counts'.*1 ∧
    (∀ k, k ∈ counts'.*1 → k ∈ tickers ∨ k ∈ counts.*1) ∧
    ∀ t, count_of t counts'
         = count_of t counts
           + length (List.filter (λ x, bool_decide (x = t)) tickers).
Proof.
  induction tickers as [|x tickers IH]; intros counts Hnd; cbn [fold_left].
  - split; [done|]. split; [auto|]. intros t. cbn. lia.
  - destruct (IH (count_ticker x counts) (count_ticker_NoDup x counts Hnd))
      as (Hnd' & Hkeys & Hcount).
    split; [exact Hnd'|]. split.
    + intros k Hk. apply Hkeys in Hk as [Hk | Hk].
      * left. apply elem_of_cons. now right.
      * apply count_ticker_keys in Hk as [-> | Hk]; [left | now right].
        apply elem_of_cons. now left.
    + intros t. rewrite Hcount, count_ticker_count_of. cbn [List.filter].
      destruct (bool_decide (x = t)); cbn [length]; lia.
Qed.

Lemma insert_by_count_perm (x : str * nat) (sorted : list (str * nat)) :
  insert_by_count x sorted ≡ₚ x :: sorted.
Proof.
  induction sorted as [|y sorted IH]; cbn [insert_by_count]; [done|].
  destruct (y.2 <? x.2); [done|]. rewrite IH. apply Permutation_swap.
Qed.

Lemma insert_by_count_falling (x : str * nat) (sorted : list (str * nat)) :
  falling sorted → falling (insert_by_count x sorted).
Proof.
  induction sorted as [|y sorted IH]; cbn [insert_by_count falling].
  - intros _. split; [constructor | exact I].
  - intros [Hy Hs]. destruct (y.2 <? x.2) eqn:E.
    + apply Nat.ltb_lt in E. cbn [falling]. split; [|done].
      constructor; [lia|]. eapply Forall_impl; [exact Hy|]. cbn. intros z Hz. lia.
    + apply Nat.ltb_ge in E. cbn [falling]. split; [|now apply IH].
      rewrite insert_by_count_perm. now constructor.
Qed.

Lemma sorted_by_count_spec (items : list (str * nat)) :
  sorted_by_count items ≡ₚ items ∧ falling (sorted_by_count items).
Proof.
  unfold sorted_by_count.
  assert (Hgen : ∀ acc, falling acc →
            fold_left (λ sorted x, insert_by_count x sorted) items acc ≡ₚ acc ++ items ∧
            falling (fold_left (λ sorted x, insert_by_count x sorted) items acc)).
  { induction items as [|x items IH]; intros acc Hacc; cbn [fold_left].
    - now rewrite app_nil_r.
    - destruct (IH (insert_by_count x acc) (insert_by_count_falling x acc Hacc))
        as [Hp Hf].
      split; [|exact Hf]. rewrite Hp, insert_by_count_perm.
      cbn [app]. apply Permutation_middle. }
  destruct (Hgen [] I) as [Hp Hf]. now split.
Qed.

Lemma omap_cons_eq {A B} (f : A → option B) (x : A) (l : list A) :
  omap f (x :: l) = match f x with Some y => y :: omap f l | None => omap f l end.
Proof. reflexivity. Qed.

(** The topics that count: the ones that are not empty. *)
Lemma tickers_mentions (t : str) (messages : list processed) :
  t ≠ [] →
  length (List.filter (λ x, bool_decide (x = t))
            (omap (λ m, if truthy (p_topic m) then p_topic m else None) messages))
  = mentions t messages.
Proof.
  intros Ht. unfold mentions. induction messages as [|m messages IH]; [done|].
  rewrite omap_cons_eq. cbn [List.filter].
  destruct (p_topic m) as [[|c topic]|]; cbn [truthy].
  - rewrite bool_decide_eq_false_2 by (intros [= <-]; done). exact IH.
  - cbn [List.filter].
    destruct (bool_decide_reflect (c :: topic = t)) as [E | Hne].
    + rewrite bool_decide_eq_true_2 by now rewrite E. cbn [length]. now rewrite IH.
    + rewrite bool_decide_eq_false_2 by (intros [= ?]; done). exact IH.
  - rewrite bool_decide_eq_false_2 by done. exact IH.
Qed.

Lemma tickers_nonempty (messages : list processed) (t : str) :
  t ∈ omap (λ m, if truthy (p_topic m) then p_topic m else None) messages → t ≠ [].
Proof.
  intros Hin. apply list_elem_of_omap in Hin as (m & _ & Hm).
  destruct (p_topic m) as [[|c topic]|]; cbn [truthy] in Hm; try discriminate.
  injection Hm as <-. discriminate.
Qed.

(** The top ticker of a pulse is a topic that no other topic of the buffer
    was mentioned more often than; there is none only when no message of the
    buffer has a topic. *)
Theorem top_ticker_is_most_mentioned `{Runtime} (v : variant)
    (llm_response : str → option str) (stamp : Q) (messages : list processed)
    (p : pulse) :
  generate_pulse_summary v llm_response stamp messages = Some p →
  match pulse_top_ticker p with
  | Some t =>
      t ≠ [] ∧ 0 < mentions t messages ∧
      ∀ t', t' ≠ [] → mentions t' messages ≤ mentions t messages
  | None => ∀ t', t' ≠ [] → mentions t' messages = 0
  end.
Proof.
  intros Hp.
  set (tickers := omap (λ m, if truthy (p_topic m) then p_topic m else None) messages).
  set (counts := fold_left (λ counts t, count_ticker t counts) tickers []).
  assert (Etop : pulse_top_ticker p = fst <$> head (sorted_by_count counts)).
  { unfold generate_pulse_summary in Hp. destruct messages as [|m messages]; [discriminate|].
    fold tickers counts in Hp.
    destruct (llm_response _) as [response|]; [|discriminate].
    assert (Eh : head (take 3 (sorted_by_count counts)) = head (sorted_by_count counts))
      by now destruct (sorted_by_count counts).
    destruct v; [|destruct (str_strip response) as [|c rest]; [discriminate|]];
      injection Hp as <-; cbn [pulse_top_ticker]; now rewrite Eh. }
  rewrite Etop. clear Etop Hp.
  destruct (ticker_counts_spec tickers [] (NoDup_nil_2 (A:=str))) as (Hnd & Hkeys & Hcount).
  fold counts in Hnd, Hkeys, Hcount. cbn [count_of] in Hcount.
  destruct (sorted_by_count_spec counts) as [Hperm Hfall].
  assert (Hm : ∀ t, t ≠ [] → count_of t counts = mentions t messages).
  { intros t Ht. rewrite Hcount. cbn. now apply tickers_mentions. }
  destruct (sorted_by_count counts) as [|[t n] sorted] eqn:Es; cbn [head fmap option_fmap option_map fst].
  - intros t' Ht'. rewrite <- (Hm t' Ht').
    apply Permutation_nil_l in Hperm. now rewrite <- Hperm.
  - assert (Hin : (t, n) ∈ counts) by (rewrite <- Hperm; apply elem_of_cons; now left).
    assert (Ht : t ≠ []).
    { destruct (Hkeys t) as [Hk | Hk].
      - apply list_elem_of_fmap. now exists (t, n).
      - now apply (tickers_nonempty messages).
      - now apply elem_of_nil in Hk. }
    pose proof (count_of_elem counts t n Hnd Hin) as En. rewrite (Hm t Ht) in En.
    split; [exact Ht|]. split.
    + rewrite <- (Hm t Ht), Hcount. cbn [plus].
      destruct (Hkeys t) as [Hk | Hk];
        [apply list_elem_of_fmap; now exists (t, n) | | now apply elem_of_nil in Hk].
      apply list_elem_of_In in Hk.
      assert (Hf : In t (List.filter (λ x, bool_decide (x = t)) tickers))
        by (apply filter_In; split; [done | now apply bool_decide_eq_true]).
      destruct (List.filter _ tickers); [destruct Hf | cbn; lia].
    + intros t' Ht'. rewrite En, <- (Hm t' Ht').
      destruct (count_of t' counts) as [|k] eqn:Ek; [lia|].
      assert (Hin' : (t', S k) ∈ counts)
        by (rewrite <- Ek; apply count_of_positive; lia).
      rewrite <- Hperm in Hin'. apply elem_of_cons in Hin' as [[= -> <-] | Hin']; [lia|].
      cbn [falling] in Hfall. destruct Hfall as [Hle _].
      rewrite Forall_forall in Hle. exact (Hle (t', S k) Hin').
Qed.

(** Three messages, two of them about NVDA. *)
Lemma top_ticker_is_most_mentioned_witness :
  let messages := [about "NVDA"; about "TSLA"; about "NVDA"] in
  let p := PulseDict (py "Quiet chat") MOOD_BULLISH (Some (py "NVDA")) 3 0 in
  match pulse_top_ticker p with
  | Some t =>
      t ≠ [] ∧ 0 < mentions t messages ∧
      ∀ t', t' ≠ [] → mentions t' messages ≤ mentions t messages
  | None => ∀ t', t' ≠ [] → mentions t' messages = 0
  end.
Proof.
  apply (top_ticker_is_most_mentioned (H:=basic_runtime) Production quiet_reply 0
           [about "NVDA"; about "TSLA"; about "NVDA"]).
  vm_compute. reflexivity.
Defined.

(** ** The icon generator *)

Lemma pack_I_be32 (n : N) (bytes : list N) :
  pack_I n = Some bytes → be32 bytes = n ∧ length bytes = 4.
Proof.
  unfold pack_I. destruct (n <? 2 ^ 32)%N eqn:E; [|discriminate].
  apply N.ltb_lt in E. intros [= <-]. split; [|reflexivity].
  unfold be32. cbn [fold_left]. change (2 ^ 32)%N with 4294967296%N in E.
  change (2 ^ 24)%N with 16777216%N. change (2 ^ 16)%N with 65536%N.
  change (2 ^ 8)%N with 256%N. zify. Z.to_euclidean_division_equations. lia.
Qed.

Lemma pack_I_fits (n : N) : (n < 2 ^ 32)%N → ∃ bytes, pack_I n = Some bytes.
Proof.
  intros Hn. unfold pack_I. apply N.ltb_lt in Hn. rewrite Hn. eauto.
Qed.

Lemma png_chunk_layout `{IconRuntime} (chunk_type data : list N) :
  (N.of_nat (length data) < 2 ^ 32)%N →
  ∃ chunk_len crc,
    png_chunk chunk_type data = Some (chunk_len ++ chunk_type ++ data ++ crc) ∧
    pack_I (N.of_nat (length data)) = Some chunk_len ∧ length crc = 4.
Proof.
  intros Hlen. unfold png_chunk.
  destruct (pack_I_fits _ Hlen) as [chunk_len Elen]. rewrite Elen.
  destruct (pack_I_fits (N.land (crc32 (chunk_type ++ data)) 0xffffffff))
    as [crc Ecrc].
  { change 0xffffffff%N with (N.ones 32). rewrite N.land_ones.
    apply N.mod_lt. discriminate. }
  rewrite Ecrc. exists chunk_len, crc.
  destruct (pack_I_be32 _ _ Ecrc) as [_ E3].
  split; [|done]. now rewrite <- !app_assoc.
Qed.

Lemma flat_map_length {A B} (f : A → list B) (n : nat) (l : list A) :
  (∀ x, length (f x) = n) → length (flat_map f l) = length l * n.
Proof.
  intros Hf. induction l as [|x l IH]; [done|].
  cbn [flat_map length]. rewrite length_app, Hf, IH. lia.
Qed.

Lemma scanline_shape `{IconRuntime} (size y : nat) :
  head (scanline size y) = Some 0%N ∧ length (scanline size y) = 1 + 3 * size.
Proof.
  split; [reflexivity|]. unfold scanline. cbn [length].
  rewrite (flat_map_length _ 3), length_seq; [lia|].
  intros x. unfold pixel. destruct (in_circle _ _ _); [done|].
  now destruct (in_border _ _ _).
Qed.

(** For an icon whose size and compressed data fit 32 bits, [create_png]
    returns the PNG signature followed by the chunks IHDR, IDAT and IEND.
    IHDR announces the width and the height [size], 8 bits per sample and
    colour type 2; the data that IDAT holds compressed are [size] scanlines
    of [1 + 3 * size] bytes, each with filter byte 0: what the header
    announces. *)
Theorem icon_data_match_the_header `{IconRuntime} (size : nat) :
  (N.of_nat size < 2 ^ 32)%N →
  (N.of_nat (length (compress (raw_data size))) < 2 ^ 32)%N →
  ∃ width crc1 len2 crc2 crc3,
    create_png size
    = Some (PNG_SIGNATURE
            ++ ([0; 0; 0; 13]%N ++ py "IHDR" ++ (width ++ width ++ [8; 2; 0; 0; 0]%N)
                ++ crc1)
            ++ (len2 ++ py "IDAT" ++ compress (raw_data size) ++ crc2)
            ++ ([0; 0; 0; 0]%N ++ py "IEND" ++ [] ++ crc3)) ∧
    be32 width = N.of_nat size ∧ length width = 4 ∧
    be32 len2 = N.of_nat (length (compress (raw_data size))) ∧
    raw_data size = concat (map (scanline size) (seq 0 size)) ∧
    Forall (λ row, head row = Some 0%N ∧ length row = 1 + 3 * size)
      (map (scanline size) (seq 0 size)) ∧
    length (raw_data size) = size * (1 + 3 * size).
Proof.
  intros Hsize Hdata. unfold create_png.
  destruct (pack_I_fits _ Hsize) as [width Ewidth]. rewrite Ewidth.
  destruct (pack_I_be32 _ _ Ewidth) as [Ew Lw].
  destruct (png_chunk_layout (py "IHDR") (width ++ width ++ [8; 2; 0; 0; 0]%N))
    as (len1 & crc1 & E1 & P1 & C1).
  { rewrite !length_app, Lw. cbn. lia. }
  destruct (png_chunk_layout (py "IDAT") (compress (raw_data size)) Hdata)
    as (len2 & crc2 & E2 & P2 & C2).
  destruct (png_chunk_layout (py "IEND") []) as (len3 & crc3 & E3 & P3 & C3).
  { cbn. lia. }
  rewrite E1, E2, E3.
  rewrite !length_app, Lw in P1. vm_compute in P1, P3.
  injection P1 as <-. injection P3 as <-.
  destruct (pack_I_be32 _ _ P2) as [B2 _].
  exists width, crc1, len2, crc2, crc3.
  split; [reflexivity|]. split; [exact Ew|]. split; [exact Lw|]. split; [exact B2|].
  assert (Hrows : Forall (λ row, head row = Some 0%N ∧ length row = 1 + 3 * size)
                    (map (scanline size) (seq 0 size))).
  { apply Forall_forall. intros row Hrow. apply list_elem_of_fmap in Hrow as (y & -> & _).
    apply scanline_shape. }
  split; [|split; [exact Hrows|]].
  - unfold raw_data. now rewrite flat_map_concat_map.
  - unfold raw_data. rewrite (flat_map_length _ (1 + 3 * size)), length_seq; [done|].
    intros y. apply scanline_shape.
Qed.

Lemma icon_data_match_the_header_witness :
  ∃ width crc1 len2 crc2 crc3,
    create_png (H:=plain_icons) 2
    = Some (PNG_SIGNATURE
            ++ ([0; 0; 0; 13]%N ++ py "IHDR" ++ (width ++ width ++ [8; 2; 0; 0; 0]%N)
                ++ crc1)
            ++ (len2 ++ py "IDAT"
                ++ compress (IconRuntime:=plain_icons) (raw_data (H:=plain_icons) 2)
                ++ crc2)
            ++ ([0; 0; 0; 0]%N ++ py "IEND" ++ [] ++ crc3)) ∧
    be32 width = N.of_nat 2 ∧ length width = 4 ∧
    be32 len2
    = N.of_nat (length (compress (IconRuntime:=plain_icons) (raw_data (H:=plain_icons) 2))) ∧
    raw_data (H:=plain_icons) 2
    = concat (map (scanline (H:=plain_icons) 2) (seq 0 2)) ∧
    Forall (λ row, head row = Some 0%N ∧ length row = 1 + 3 * 2)
      (map (scanline (H:=plain_icons) 2) (seq 0 2)) ∧
    length (raw_data (H:=plain_icons) 2) = 2 * (1 + 3 * 2).
Proof.
  apply (icon_data_match_the_header (H:=plain_icons) 2).
  - reflexivity.
  - reflexivity.
Defined.

(** ** The message dicts of a video *)

















(** ** Session lifecycle (chat_viz_backend_v2.py) *)








